(** * Camera undistortion and stereo rectification (src/base/undistortion.cc)

    A shallow embedding of [SelectPointOnRay], [UndistortCamera] and
    [RectifyStereoCameras], and of the functions around them:
    [UndistortImage], [UndistortReconstruction],
    [RectifyAndUndistortStereoImages], [WriteProjectionMatrix] and the
    visibility lists of [PMVSUndistorter::WriteVisibilityData].
    A C++ [double] is idealised as a real number
    ([R]): rounding, overflow, NaN and infinities are not modelled, and every
    statement below is a statement about the exact arithmetic the code
    approximates.  A quotient whose divisor is zero is left as the term
    [x / 0]; no statement below rests on its value.  [size_t] and [int]
    values are integers ([Z]); the image dimensions that occur are far below
    the wrap-around of either type.  A failed [CHECK] ends the program: the
    functions that can fail return an [option], [None] for the failure. *)

From Stdlib Require Import Reals Lra Lia ZArith List String Bool Ascii.
From Stdlib Require Import RNsatz Sorted.
Import ListNotations.

Open Scope R_scope.

(** ** The C++ standard library on doubles *)

Definition Rltb (x y : R) : bool := if Rlt_dec x y then true else false.
Definition Rleb (x y : R) : bool := if Rle_dec x y then true else false.

(** [std::min(a, b)] is [(b < a) ? b : a]; [std::max(a, b)] is
    [(a < b) ? b : a]. *)
Definition std_min (a b : R) : R := if Rlt_dec b a then b else a.
Definition std_max (a b : R) : R := if Rlt_dec a b then b else a.

(** [std::numeric_limits<double>::epsilon()] is 2^-52. *)
Definition double_epsilon : R := / 2 ^ 52.

(** [std::numeric_limits<double>::max()] and [lowest()]. *)
Definition double_max : R := (2 - / 2 ^ 52) * 2 ^ 1023.
Definition double_lowest : R := - double_max.

(** [static_cast<size_t>(x)] truncates toward zero; it is used on values
    that are at least 1, where truncation is the floor. *)
Definition to_size_t (x : R) : Z := Int_part x.

(** ** Eigen: 2-vectors *)

Definition Vector2d : Type := (R * R)%type.

Definition vx (v : Vector2d) : R := fst v.
Definition vy (v : Vector2d) : R := snd v.
Definition vadd (a b : Vector2d) : Vector2d := (vx a + vx b, vy a + vy b).
Definition vsub (a b : Vector2d) : Vector2d := (vx a - vx b, vy a - vy b).
Definition vscale (v : Vector2d) (s : R) : Vector2d := (vx v * s, vy v * s).
Definition squaredNorm (v : Vector2d) : R := vx v * vx v + vy v * vy v.
Definition norm (v : Vector2d) : R := sqrt (squaredNorm v).

(** [MatrixBase::normalized()]: the vector divided by its norm; a vector of
    norm zero is returned as it is (Eigen 3.3). *)
Definition normalized (v : Vector2d) : Vector2d :=
  if Rlt_dec 0 (squaredNorm v) then (vx v / norm v, vy v / norm v) else v.

(** ** The bisection loop of [SelectPointOnRay] *)

(** The body of [for (int i = 0; i < 32; ++i)], run [n] times on the bracket
    [(l, r)]; [valid m] is the value of [m_valid] at the midpoint [m]. *)
Fixpoint bisect (valid : R -> bool) (n : nat) (l r : R) : R * R :=
  match n with
  | O => (l, r)
  | S k =>
      let m := (r + l) / 2 in
      if valid m then bisect valid k m r else bisect valid k l m
  end.

(** ** Eigen: 3-vectors, 3x3 and 4x4 matrices, rotations *)

Definition Vector3d : Type := (R * R * R)%type.
Definition Vector4d : Type := (R * R * R * R)%type.
(** A matrix is the tuple of its rows. *)
Definition Matrix3d : Type := (Vector3d * Vector3d * Vector3d)%type.
Definition Matrix4d : Type := (Vector4d * Vector4d * Vector4d * Vector4d)%type.

Definition dot3 (a b : Vector3d) : R :=
  let '(a0, a1, a2) := a in
  let '(b0, b1, b2) := b in
  a0 * b0 + a1 * b1 + a2 * b2.

Definition cross3 (a b : Vector3d) : Vector3d :=
  let '(a0, a1, a2) := a in
  let '(b0, b1, b2) := b in
  (a1 * b2 - a2 * b1, a2 * b0 - a0 * b2, a0 * b1 - a1 * b0).

Definition scale3 (s : R) (a : Vector3d) : Vector3d :=
  let '(a0, a1, a2) := a in (s * a0, s * a1, s * a2).

Definition norm3 (a : Vector3d) : R := sqrt (dot3 a a).

Definition normalized3 (a : Vector3d) : Vector3d :=
  if Rlt_dec 0 (dot3 a a) then scale3 (/ norm3 a) a else a.

Definition Identity3 : Matrix3d := ((1, 0, 0), (0, 1, 0), (0, 0, 1)).

Definition transpose3 (m : Matrix3d) : Matrix3d :=
  let '((a, b, c), (d, e, f), (g, h, i)) := m in
  ((a, d, g), (b, e, h), (c, f, i)).

Definition mat3_vec (m : Matrix3d) (v : Vector3d) : Vector3d :=
  let '(r0, r1, r2) := m in (dot3 r0 v, dot3 r1 v, dot3 r2 v).

Definition mat3_mul (m n : Matrix3d) : Matrix3d :=
  let '(r0, r1, r2) := m in
  let '(c0, c1, c2) := transpose3 n in
  ((dot3 r0 c0, dot3 r0 c1, dot3 r0 c2),
   (dot3 r1 c0, dot3 r1 c1, dot3 r1 c2),
   (dot3 r2 c0, dot3 r2 c1, dot3 r2 c2)).

Definition det3 (m : Matrix3d) : R :=
  let '((a, b, c), (d, e, f), (g, h, i)) := m in
  a * (e * i - f * h) - b * (d * i - f * g) + c * (d * h - e * g).

(** [inverse()] of a 3x3 matrix: the cofactors over the determinant. *)
Definition inverse3 (m : Matrix3d) : Matrix3d :=
  let '((a, b, c), (d, e, f), (g, h, i)) := m in
  let idet := / det3 m in
  (((e * i - f * h) * idet, (c * h - b * i) * idet, (b * f - c * e) * idet),
   ((f * g - d * i) * idet, (a * i - c * g) * idet, (c * d - a * f) * idet),
   ((d * h - e * g) * idet, (b * g - a * h) * idet, (a * e - b * d) * idet)).

Record AngleAxisd : Type := mkAngleAxis { angle : R; axis : Vector3d }.

(** [atan2(y, x)] for [0 < y]. *)
Definition atan2_pos (y x : R) : R := PI / 2 - atan (x / y).

(** [AngleAxisd(Quaterniond(w, x, y, z))] (Eigen 3.3): for a vector part of
    norm [n <> 0] the angle is [2 atan2(n, |w|)] and the axis the vector
    part over [n], negated when [w < 0]; for [n = 0] the angle is 0 and the
    axis is the x axis. *)
Definition AngleAxis_of_quaternion (q : Vector4d) : AngleAxisd :=
  let '(w, x, y, z) := q in
  let n := norm3 (x, y, z) in
  if Rlt_dec 0 n then
    let ang := 2 * atan2_pos n (Rabs w) in
    let n := if Rlt_dec w 0 then - n else n in
    mkAngleAxis ang (scale3 (/ n) (x, y, z))
  else mkAngleAxis 0 (1, 0, 0).

(** [AngleAxis::toRotationMatrix()]. *)
Definition toRotationMatrix (r : AngleAxisd) : Matrix3d :=
  let '(ax, ay, az) := axis r in
  let '(sx, sy, sz) := scale3 (sin (angle r)) (axis r) in
  let c := cos (angle r) in
  let '(cx, cy, cz) := scale3 (1 - c) (axis r) in
  ((cx * ax + c, cx * ay - sz, cx * az + sy),
   (cx * ay + sz, cy * ay + c, cy * az - sx),
   (cx * az - sy, cy * az + sx, cz * az + c)).

(** The row vector [v] times [Q]. *)
Definition row_times_mat4 (v : Vector4d) (Q : Matrix4d) : Vector4d :=
  let '(v0, v1, v2, v3) := v in
  let '((a0, a1, a2, a3), (b0, b1, b2, b3),
        (c0, c1, c2, c3), (d0, d1, d2, d3)) := Q in
  (v0 * a0 + v1 * b0 + v2 * c0 + v3 * d0,
   v0 * a1 + v1 * b1 + v2 * c1 + v3 * d1,
   v0 * a2 + v1 * b2 + v2 * c2 + v3 * d2,
   v0 * a3 + v1 * b3 + v2 * c3 + v3 * d3).

(** The entry [Q(r, c)]. *)
Definition coeff4 (v : Vector4d) (c : nat) : R :=
  let '(v0, v1, v2, v3) := v in
  match c with O => v0 | 1%nat => v1 | 2%nat => v2 | _ => v3 end.

Definition entry4 (Q : Matrix4d) (r c : nat) : R :=
  let '(r0, r1, r2, r3) := Q in
  coeff4 (match r with O => r0 | 1%nat => r1 | 2%nat => r2 | _ => r3 end) c.

(** ** Cameras and options *)

(** Modelled from the spec: the [Camera] class (base/camera.h), a kind, a
    width, a height and the intrinsic parameters.  The parameter vector is
    kept through the four intrinsics the code reads and writes by name and
    the remaining (distortion) parameters; a kind with a single focal length
    keeps it in [focal_x], which is what [FocalLength()] reads. *)
Record CameraParams : Type := mkParams {
  focal_x : R;
  focal_y : R;
  pp_x : R;
  pp_y : R;
  extra_params : list R
}.

Record Camera : Type := mkCamera {
  ModelId : Z;
  Width : Z;
  Height : Z;
  Params : CameraParams
}.

Definition FocalLength (c : Camera) : R := focal_x (Params c).
Definition FocalLengthX (c : Camera) : R := focal_x (Params c).
Definition FocalLengthY (c : Camera) : R := focal_y (Params c).
Definition PrincipalPointX (c : Camera) : R := pp_x (Params c).
Definition PrincipalPointY (c : Camera) : R := pp_y (Params c).

Definition SetModelId (id : Z) (c : Camera) : Camera :=
  mkCamera id (Width c) (Height c) (Params c).
Definition SetWidth (w : Z) (c : Camera) : Camera :=
  mkCamera (ModelId c) w (Height c) (Params c).
Definition SetHeight (h : Z) (c : Camera) : Camera :=
  mkCamera (ModelId c) (Width c) h (Params c).
Definition SetParams (p : CameraParams) (c : Camera) : Camera :=
  mkCamera (ModelId c) (Width c) (Height c) p.
Definition SetFocalLengthX (v : R) (c : Camera) : Camera :=
  let p := Params c in
  SetParams (mkParams v (focal_y p) (pp_x p) (pp_y p) (extra_params p)) c.
Definition SetFocalLengthY (v : R) (c : Camera) : Camera :=
  let p := Params c in
  SetParams (mkParams (focal_x p) v (pp_x p) (pp_y p) (extra_params p)) c.
Definition SetPrincipalPointX (v : R) (c : Camera) : Camera :=
  let p := Params c in
  SetParams (mkParams (focal_x p) (focal_y p) v (pp_y p) (extra_params p)) c.
Definition SetPrincipalPointY (v : R) (c : Camera) : Camera :=
  let p := Params c in
  SetParams (mkParams (focal_x p) (focal_y p) (pp_x p) v (extra_params p)) c.

(** A default-constructed [Camera]: no valid kind, no size, no parameters. *)
Definition default_Camera : Camera :=
  mkCamera (-1) 0 0 (mkParams 0 0 0 0 []).

(** [UndistortCameraOptions] (base/undistortion.h), with the fields
    [UndistortCamera] reads. *)
Record UndistortCameraOptions : Type := mkOptions {
  blank_pixels : R;
  min_scale : R;
  max_scale : R;
  max_image_size : Z;
  max_fov : R;
  max_horizontal_fov : R;
  max_vertical_fov : R;
  camera_model_override : string;
  camera_model_override_params : string;
  estimate_focal_length_from_fov : bool
}.

(** Modelled from the spec: [DegToRad] (util/math.h), degrees to radians. *)
Definition DegToRad (deg : R) : R := deg * PI / 180.

(** Modelled from the spec: [Clip] (util/math.h), the value clipped into
    [[low, high]]. *)
Definition Clip (value low high : R) : R := std_max low (std_min value high).

(** What the code takes from the camera-model layer (base/camera.h and
    base/camera_models.h), which is not part of this file: the two pinhole
    kinds, the name table, the per-kind index lists, the projection and the
    back-projection, the parameter parser and check, and [Rescale]. *)
Record CameraModels : Type := mkModels {
  SimplePinhole_model_id : Z;
  Pinhole_model_id : Z;
  CameraModelNameToId : string -> Z;
  FocalLengthIdxs : Z -> list nat;
  PrincipalPointIdxs : Z -> list nat;
  ImageToWorld : Camera -> Vector2d -> Vector2d;
  WorldToImage : Camera -> Vector2d -> Vector2d;
  ParamsFromString : Z -> string -> CameraParams;
  VerifyParams : Camera -> bool;
  Rescale : R -> Camera -> Camera
}.

Section Undistortion.

Variable M : CameraModels.

Definition SetParamsFromString (s : string) (c : Camera) : Camera :=
  SetParams (ParamsFromString M (ModelId c) s) c.

(** *** [SelectPointOnRay] (lines 120-147) *)

(** The three angle tests of lines 132-138 at the image point [p]. *)
Definition PointValid (camera : Camera)
    (max_angle max_horizontal_angle max_vertical_angle : R) (p : Vector2d)
    : bool :=
  let world_point := ImageToWorld M camera p in
  let vertical_angle := atan (vy world_point) in
  let horizontal_angle := atan (vx world_point) in
  let full_angle := atan (norm world_point) in
  Rltb vertical_angle max_vertical_angle
  && Rltb horizontal_angle max_horizontal_angle
  && Rltb full_angle max_angle.

(** [m_valid] of the loop body, as a function of the distance [m]. *)
Definition m_valid (camera : Camera) (origin dir : Vector2d)
    (max_angle max_horizontal_angle max_vertical_angle : R) (m : R) : bool :=
  PointValid camera max_angle max_horizontal_angle max_vertical_angle
    (vadd origin (vscale dir m)).

(** The bracket [(l, r)] when the loop ends. *)
Definition SelectBracket (camera : Camera) (origin target : Vector2d)
    (max_length max_angle max_horizontal_angle max_vertical_angle : R)
    : R * R :=
  let diff := vsub target origin in
  let dir := normalized diff in
  bisect (m_valid camera origin dir max_angle max_horizontal_angle
            max_vertical_angle)
         32 0 (std_min max_length (norm diff)).

Definition SelectPointOnRay (camera : Camera) (origin target : Vector2d)
    (max_length max_angle max_horizontal_angle max_vertical_angle : R)
    : Vector2d :=
  let diff := vsub target origin in
  let dir := normalized diff in
  let l := fst (SelectBracket camera origin target max_length max_angle
                  max_horizontal_angle max_vertical_angle) in
  vadd origin (vscale dir l).

(** *** [UndistortCamera] (lines 659-914) *)

(** The eleven [CHECK]s at the entry (lines 661-671). *)
Definition CheckOptions (options : UndistortCameraOptions) : bool :=
  Rleb 0 (blank_pixels options)
  && Rleb (blank_pixels options) 1
  && Rltb 0 (min_scale options)
  && Rleb (min_scale options) (max_scale options)
  && negb (max_image_size options =? 0)%Z
  && Rltb (max_fov options) 180
  && Rltb 0 (max_fov options)
  && Rleb (max_vertical_fov options) 180
  && Rltb 0 (max_vertical_fov options)
  && Rleb (max_horizontal_fov options) 180
  && Rltb 0 (max_horizontal_fov options).

(** The camera of lines 673-676. *)
Definition InitialCamera (camera : Camera) : Camera :=
  SetHeight (Height camera)
    (SetWidth (Width camera)
       (SetModelId (Pinhole_model_id M) default_Camera)).

(** The override branch (lines 678-686); [None] is the failed [CHECK]. *)
Definition OverrideCamera (options : UndistortCameraOptions)
    (undistorted_camera : Camera) : option Camera :=
  let camera_model_id :=
    CameraModelNameToId M (camera_model_override options) in
  let undistorted_camera := SetModelId camera_model_id undistorted_camera in
  let undistorted_camera :=
    SetParamsFromString (camera_model_override_params options)
      undistorted_camera in
  if VerifyParams M undistorted_camera then Some undistorted_camera
  else None.

Definition image_size (camera : Camera) : Vector2d :=
  (IZR (Width camera), IZR (Height camera)).

(** The array [corners] (lines 697-700). *)
Definition corners (camera : Camera) : list Vector2d :=
  [ (0, 0);
    (IZR (Width camera), 0);
    (IZR (Height camera), IZR (Width camera));
    (0, IZR (Height camera)) ].

Definition corner (camera : Camera) (i : nat) : Vector2d :=
  nth i (corners camera) (0, 0).

(** The loop of lines 707-714 on the state [(max_radius, corner_dir)];
    [corner_dir] is read only after it was assigned. *)
Definition farthest_step (principal_point : Vector2d)
    (st : R * Vector2d) (c : Vector2d) : R * Vector2d :=
  let diff := vsub c principal_point in
  let n := norm diff in
  if Rlt_dec (fst st) n then (n, normalized diff) else st.

Definition FarthestCorner (cs : list Vector2d) (principal_point : Vector2d)
    : R * Vector2d :=
  fold_left (farthest_step principal_point) cs (0, (0, 0)).

(** The loop of lines 717-724, from [i] on, on the state
    [(max_valid_fov_half, max_valid_radius)]; [fuel] bounds the number of
    rounds and [i < max_radius] is tested as the code tests it. *)
Fixpoint RadiusMarch (camera : Camera) (principal_point corner_dir : Vector2d)
    (max_radius max_fov : R) (fuel : nat) (i : Z)
    (max_valid_fov_half max_valid_radius : R) : R * R :=
  match fuel with
  | O => (max_valid_fov_half, max_valid_radius)
  | S k =>
      if Rlt_dec (IZR i) max_radius then
        let world_point :=
          ImageToWorld M camera
            (vadd (vscale corner_dir (IZR i)) principal_point) in
        let phi := atan (norm world_point) in
        if Rleb phi max_valid_fov_half || Rltb max_fov (2 * phi)
        then (max_valid_fov_half, max_valid_radius)
        else RadiusMarch camera principal_point corner_dir max_radius max_fov
               k (i + 1) phi (IZR i)
      else (max_valid_fov_half, max_valid_radius)
  end.

(** Rounds that [RadiusMarch] can need: [i] runs over 1, 2, ... below
    [max_radius]. *)
Definition march_fuel (max_radius : R) : nat := Z.to_nat (up max_radius).

(** The march as lines 716-724 run it: the pair of the half angle the block
    ends with and [max_valid_radius]. *)
Definition MarchFromCorner (camera : Camera) (principal_point : Vector2d)
    (max_fov : R) : R * R :=
  let far := FarthestCorner (corners camera) principal_point in
  RadiusMarch camera principal_point (snd far) (fst far) max_fov
    (march_fuel (fst far)) 1 0 (norm (image_size camera)).

(** Lines 689-725: [(principal_point, max_valid_fov_half, max_valid_radius)]
    as the rest of the function reads them.  The block of line 701 declares
    a [max_valid_fov_half] of its own (line 716), which is the one the march
    assigns; the variable of line 693 is assigned nowhere. *)
Definition ValidDomain (options : UndistortCameraOptions) (camera : Camera)
    : Vector2d * R * R :=
  let max_fov := DegToRad (max_fov options) in
  let max_valid_fov_half := max_fov / 2 in
  if (List.length (PrincipalPointIdxs M (ModelId camera)) =? 2)%nat then
    let principal_point :=
      (PrincipalPointX camera, PrincipalPointY camera) in
    let max_valid_radius :=
      snd (MarchFromCorner camera principal_point max_fov) in
    (principal_point, max_valid_fov_half, max_valid_radius)
  else ((0, 0), max_valid_fov_half, norm (image_size camera)).

(** Lines 734-743 of one round of the loop of lines 733-744: the focal
    length from the two probes toward [targetA] and [targetB]. *)
Definition CornerPairCandidate (camera : Camera) (principal_point : Vector2d)
    (max_valid_radius max_valid_fov_half max_horizontal_fov
       max_vertical_fov : R)
    (targetA targetB : Vector2d) : R :=
  let cornerA :=
    SelectPointOnRay camera principal_point targetA
      max_valid_radius max_valid_fov_half (max_horizontal_fov / 2)
      (max_vertical_fov / 2) in
  let cornerB :=
    SelectPointOnRay camera principal_point targetB
      max_valid_radius max_valid_fov_half (max_horizontal_fov / 2)
      (max_vertical_fov / 2) in
  let fov := atan (norm (ImageToWorld M camera cornerA))
             + atan (norm (ImageToWorld M camera cornerB)) in
  norm (image_size camera) / 2 / tan (fov / 2).

(** Round [i] of the loop, on [focal_diagonal_fov]: the probes go toward
    [corners[i]] and [corners[i + 2]]. *)
Definition CornerPairFocal (camera : Camera) (principal_point : Vector2d)
    (max_valid_radius max_valid_fov_half max_horizontal_fov
       max_vertical_fov : R)
    (focal_diagonal_fov : R) (i : nat) : R :=
  std_max focal_diagonal_fov
    (CornerPairCandidate camera principal_point max_valid_radius
       max_valid_fov_half max_horizontal_fov max_vertical_fov
       (corner camera i) (corner camera (i + 2))).

Definition FocalHorizontalFov (camera : Camera) (principal_point : Vector2d)
    (max_valid_radius max_horizontal_fov : R) : R :=
  let left :=
    (std_max 0 (vx principal_point - max_valid_radius),
     vy principal_point) in
  let right :=
    (std_min (vx (image_size camera)) (vx principal_point + max_valid_radius),
     vy principal_point) in
  let horizontal_fov :=
    atan (Rabs (vx (ImageToWorld M camera left)))
    + atan (Rabs (vx (ImageToWorld M camera right))) in
  vx (image_size camera) / 2
  / tan (std_min max_horizontal_fov horizontal_fov / 2).

Definition FocalVerticalFov (camera : Camera) (principal_point : Vector2d)
    (max_valid_radius max_vertical_fov : R) : R :=
  let top :=
    (vx principal_point,
     std_max 0 (vy principal_point - max_valid_radius)) in
  let bottom :=
    (vx principal_point,
     std_min (vy (image_size camera))
       (vy principal_point + max_valid_radius)) in
  let vertical_fov :=
    atan (Rabs (vy (ImageToWorld M camera top)))
    + atan (Rabs (vy (ImageToWorld M camera bottom))) in
  vy (image_size camera) / 2
  / tan (std_min max_vertical_fov vertical_fov / 2).

(** Lines 731-771: the value of [focal]. *)
Definition EstimateFocal (options : UndistortCameraOptions) (camera : Camera)
    (principal_point : Vector2d) (max_valid_fov_half max_valid_radius : R)
    : R :=
  let max_horizontal_fov := DegToRad (max_horizontal_fov options) in
  let max_vertical_fov := DegToRad (max_vertical_fov options) in
  let focal_diagonal_fov :=
    norm (image_size camera) / 2 / tan max_valid_fov_half in
  let focal_diagonal_fov :=
    fold_left
      (CornerPairFocal camera principal_point max_valid_radius
         max_valid_fov_half max_horizontal_fov max_vertical_fov)
      [0%nat; 1%nat] focal_diagonal_fov in
  let focal_horizontal_fov :=
    FocalHorizontalFov camera principal_point max_valid_radius
      max_horizontal_fov in
  let focal_vertical_fov :=
    FocalVerticalFov camera principal_point max_valid_radius
      max_vertical_fov in
  std_max focal_diagonal_fov
    (std_max focal_horizontal_fov focal_vertical_fov).

(** Lines 728-785; [None] is the failed [CHECK_LE] of line 776. *)
Definition SetFocalLengths (options : UndistortCameraOptions)
    (camera : Camera) (principal_point : Vector2d)
    (max_valid_fov_half max_valid_radius : R)
    (undistorted_camera : Camera) : option Camera :=
  if estimate_focal_length_from_fov options then
    let focal :=
      EstimateFocal options camera principal_point max_valid_fov_half
        max_valid_radius in
    Some (SetFocalLengthY focal (SetFocalLengthX focal undistorted_camera))
  else
    let focal_length_idxs := FocalLengthIdxs M (ModelId camera) in
    if (List.length focal_length_idxs <=? 2)%nat then
      if (List.length focal_length_idxs =? 1)%nat then
        Some (SetFocalLengthY (FocalLength camera)
                (SetFocalLengthX (FocalLength camera) undistorted_camera))
      else if (List.length focal_length_idxs =? 2)%nat then
        Some (SetFocalLengthY (FocalLengthY camera)
                (SetFocalLengthX (FocalLengthX camera) undistorted_camera))
      else Some undistorted_camera
    else None.

(** The three lines that take a border pixel to the undistorted image
    (804-810 and their three repetitions). *)
Definition UndistortBorderPoint (camera undistorted_camera : Camera)
    (principal_point : Vector2d)
    (max_valid_radius max_valid_fov_half max_horizontal_fov
       max_vertical_fov : R)
    (target : Vector2d) : Vector2d :=
  let border_point :=
    SelectPointOnRay camera principal_point target max_valid_radius
      max_valid_fov_half (max_horizontal_fov / 2) (max_vertical_fov / 2) in
  let world_point := ImageToWorld M camera border_point in
  WorldToImage M undistorted_camera world_point.

(** The values [0, 1, ..., n-1] of a loop counter. *)
Definition index_range (n : Z) : list Z :=
  map Z.of_nat (seq 0 (Z.to_nat n)).

(** The loop of lines 802-823 on
    [(left_min_x, left_max_x, right_min_x, right_max_x)]. *)
Definition RowBorders (camera undistorted_camera : Camera)
    (principal_point : Vector2d)
    (max_valid_radius max_valid_fov_half max_horizontal_fov
       max_vertical_fov : R) : R * R * R * R :=
  fold_left
    (fun (st : R * R * R * R) (y : Z) =>
       let '(left_min_x, left_max_x, right_min_x, right_max_x) := st in
       let undistorted_point1 :=
         UndistortBorderPoint camera undistorted_camera principal_point
           max_valid_radius max_valid_fov_half max_horizontal_fov
           max_vertical_fov (0.5, IZR y + 0.5) in
       let undistorted_point2 :=
         UndistortBorderPoint camera undistorted_camera principal_point
           max_valid_radius max_valid_fov_half max_horizontal_fov
           max_vertical_fov (IZR (Width camera) - 0.5, IZR y + 0.5) in
       (std_min left_min_x (vx undistorted_point1),
        std_max left_max_x (vx undistorted_point1),
        std_min right_min_x (vx undistorted_point2),
        std_max right_max_x (vx undistorted_point2)))
    (index_range (Height camera))
    (double_max, double_lowest, double_max, double_lowest).

(** The loop of lines 832-853 on
    [(top_min_y, top_max_y, bottom_min_y, bottom_max_y)]. *)
Definition ColumnBorders (camera undistorted_camera : Camera)
    (principal_point : Vector2d)
    (max_valid_radius max_valid_fov_half max_horizontal_fov
       max_vertical_fov : R) : R * R * R * R :=
  fold_left
    (fun (st : R * R * R * R) (x : Z) =>
       let '(top_min_y, top_max_y, bottom_min_y, bottom_max_y) := st in
       let undistorted_point1 :=
         UndistortBorderPoint camera undistorted_camera principal_point
           max_valid_radius max_valid_fov_half max_horizontal_fov
           max_vertical_fov (IZR x + 0.5, 0.5) in
       let undistorted_point2 :=
         UndistortBorderPoint camera undistorted_camera principal_point
           max_valid_radius max_valid_fov_half max_horizontal_fov
           max_vertical_fov (IZR x + 0.5, IZR (Height camera) - 0.5) in
       (std_min top_min_y (vy undistorted_point1),
        std_max top_max_y (vy undistorted_point1),
        std_min bottom_min_y (vy undistorted_point2),
        std_max bottom_max_y (vy undistorted_point2)))
    (index_range (Width camera))
    (double_max, double_lowest, double_max, double_lowest).

(** Lines 859-864, for one axis: [c] is the principal point coordinate,
    [size] the width or height, [near_min] and [far_max] the smallest
    coordinate along the near border and the largest along the far one. *)
Definition NoMissingPixelsScale (c : R) (size : Z) (near_min far_max : R)
    : R :=
  std_min (c / (c - near_min)) ((IZR size - 0.5 - c) / (far_max - c)).

(** Lines 867-872, for one axis. *)
Definition NoBlankPixelsScale (c : R) (size : Z) (near_max far_min : R)
    : R :=
  std_max (c / (c - near_max)) ((IZR size - 0.5 - c) / (far_min - c)).

(** Lines 875-878, for one axis. *)
Definition InterpolateScale (options : UndistortCameraOptions)
    (min_scale_a max_scale_a : R) : R :=
  1 / (min_scale_a * blank_pixels options
       + max_scale_a * (1 - blank_pixels options)).

(** Lines 859-882 for one axis: the scale that is applied, from the four
    extrema [(near_min, near_max, far_min, far_max)] of that axis. *)
Definition AppliedScale (options : UndistortCameraOptions) (c : R) (size : Z)
    (extrema : R * R * R * R) : R :=
  let '(near_min, near_max, far_min, far_max) := extrema in
  let min_scale_a := NoMissingPixelsScale c size near_min far_max in
  let max_scale_a := NoBlankPixelsScale c size near_max far_min in
  Clip (InterpolateScale options min_scale_a max_scale_a)
       (min_scale options) (max_scale options).

(** Lines 884-896: the new dimensions and principal point. *)
Definition ApplyScale (camera : Camera) (scale_x scale_y : R)
    (undistorted_camera : Camera) : Camera :=
  let undistorted_camera :=
    SetWidth
      (to_size_t (std_max 1 (scale_x * IZR (Width undistorted_camera))))
      undistorted_camera in
  let undistorted_camera :=
    SetHeight
      (to_size_t (std_max 1 (scale_y * IZR (Height undistorted_camera))))
      undistorted_camera in
  let undistorted_camera :=
    SetPrincipalPointX
      (PrincipalPointX undistorted_camera
       * IZR (Width undistorted_camera) / IZR (Width camera))
      undistorted_camera in
  SetPrincipalPointY
    (PrincipalPointY undistorted_camera
     * IZR (Height undistorted_camera) / IZR (Height camera))
    undistorted_camera.

(** The body of the [if] of line 792 (lines 795-896). *)
Definition ScaleToAvoidBlankPixels (options : UndistortCameraOptions)
    (camera : Camera) (principal_point : Vector2d)
    (max_valid_fov_half max_valid_radius : R)
    (undistorted_camera : Camera) : Camera :=
  let max_horizontal_fov := DegToRad (max_horizontal_fov options) in
  let max_vertical_fov := DegToRad (max_vertical_fov options) in
  let rows :=
    RowBorders camera undistorted_camera principal_point max_valid_radius
      max_valid_fov_half max_horizontal_fov max_vertical_fov in
  let cols :=
    ColumnBorders camera undistorted_camera principal_point max_valid_radius
      max_valid_fov_half max_horizontal_fov max_vertical_fov in
  let cx := PrincipalPointX undistorted_camera in
  let cy := PrincipalPointY undistorted_camera in
  let scale_x := AppliedScale options cx (Width camera) rows in
  let scale_y := AppliedScale options cy (Height camera) cols in
  ApplyScale camera scale_x scale_y undistorted_camera.

(** Lines 899-911. *)
Definition LimitImageSize (options : UndistortCameraOptions)
    (undistorted_camera : Camera) : Camera :=
  if (0 <? max_image_size options)%Z then
    let max_image_scale_x :=
      IZR (max_image_size options) / IZR (Width undistorted_camera) in
    let max_image_scale_y :=
      IZR (max_image_size options) / IZR (Height undistorted_camera) in
    let max_image_scale := std_min max_image_scale_x max_image_scale_y in
    if Rlt_dec max_image_scale 1
    then Rescale M max_image_scale undistorted_camera
    else undistorted_camera
  else undistorted_camera.

Definition IsPinholeFamily (camera : Camera) : bool :=
  (ModelId camera =? SimplePinhole_model_id M)%Z
  || (ModelId camera =? Pinhole_model_id M)%Z.

(** [UndistortCamera]; [None] is a failed [CHECK], which ends the program. *)
Definition UndistortCamera (options : UndistortCameraOptions)
    (camera : Camera) : option Camera :=
  if CheckOptions options then
    let undistorted_camera := InitialCamera camera in
    if (0 <? String.length (camera_model_override options))%nat then
      OverrideCamera options undistorted_camera
    else
      let '(principal_point, max_valid_fov_half, max_valid_radius) :=
        ValidDomain options camera in
      match SetFocalLengths options camera principal_point
              max_valid_fov_half max_valid_radius undistorted_camera with
      | None => None
      | Some undistorted_camera =>
          let undistorted_camera :=
            SetPrincipalPointY (PrincipalPointY camera)
              (SetPrincipalPointX (PrincipalPointX camera)
                 undistorted_camera) in
          let undistorted_camera :=
            if negb (IsPinholeFamily camera) then
              ScaleToAvoidBlankPixels options camera principal_point
                max_valid_fov_half max_valid_radius undistorted_camera
            else undistorted_camera in
          Some (LimitImageSize options undistorted_camera)
      end
  else None.

(** *** [RectifyStereoCameras] (lines 954-1014) *)

(** Modelled from the spec: [Camera::MeanFocalLength] (base/camera.h), the
    mean of the focal-length parameters of the camera. *)
Definition MeanFocalLength (c : Camera) : R :=
  if (List.length (FocalLengthIdxs M (ModelId c)) =? 1)%nat
  then FocalLength c
  else (FocalLengthX c + FocalLengthY c) / 2.

(** Modelled from the spec: [Camera::CalibrationMatrix] (base/camera.h), the
    matrix that [WriteProjectionMatrix] (lines 48-52) builds by hand, with
    the single focal length in both places for a kind that has one. *)
Definition CalibrationMatrix (c : Camera) : Matrix3d :=
  let fy :=
    if (List.length (FocalLengthIdxs M (ModelId c)) =? 1)%nat
    then FocalLength c else FocalLengthY c in
  ((FocalLengthX c, 0, PrincipalPointX c),
   (0, fy, PrincipalPointY c),
   (0, 0, 1)).

(** Lines 972-993: the correction [R_x] from [t = R2 * tvec]. *)
Definition XAxisCorrection (t : Vector3d) : Matrix3d :=
  let x_unit_vector : Vector3d := (1, 0, 0) in
  let x_unit_vector :=
    if Rlt_dec (dot3 t x_unit_vector) 0 then scale3 (-1) x_unit_vector
    else x_unit_vector in
  let rotation_axis := cross3 t x_unit_vector in
  if Rlt_dec (norm3 rotation_axis) double_epsilon then Identity3
  else
    let ang :=
      acos (Rabs (dot3 t x_unit_vector)
            / (norm3 t * norm3 x_unit_vector)) in
    toRotationMatrix (mkAngleAxis ang (normalized3 rotation_axis)).

(** Lines 996-1000: the shared calibration matrix [K]. *)
Definition SharedCalibration (camera1 camera2 : Camera) : Matrix3d :=
  let f := std_min (MeanFocalLength camera1) (MeanFocalLength camera2) in
  ((f, 0, PrincipalPointX camera1),
   (0, f, (PrincipalPointY camera1 + PrincipalPointY camera2) / 2),
   (0, 0, 1)).

(** Lines 1008-1013: [Q] from [K(0,0)], [K(0,2)], [K(1,2)] and [t(0)]. *)
Definition DisparityMatrix (K : Matrix3d) (t : Vector3d) : Matrix4d :=
  let '((k00, k01, k02), (k10, k11, k12), (k20, k21, k22)) := K in
  let '(t0, t1, t2) := t in
  ((1, 0, 0, 0),
   (0, 1, 0, 0),
   (0, 0, 1, - 1 / t0),
   (- k12, - k02, k00, 0)).

(** [RectifyStereoCameras]: [(H1, H2, Q)], or [None] for a failed [CHECK]. *)
Definition RectifyStereoCameras (camera1 camera2 : Camera)
    (qvec : Vector4d) (tvec : Vector3d)
    : option (Matrix3d * Matrix3d * Matrix4d) :=
  if IsPinholeFamily camera1 && IsPinholeFamily camera2 then
    let rvec := AngleAxis_of_quaternion qvec in
    let rvec := mkAngleAxis (angle rvec * -0.5) (axis rvec) in
    let R2 := toRotationMatrix rvec in
    let R1 := transpose3 R2 in
    let t := mat3_vec R2 tvec in
    let R_x := XAxisCorrection t in
    let R1 := mat3_mul R_x R1 in
    let R2 := mat3_mul R_x R2 in
    let t := mat3_vec R_x t in
    let K := SharedCalibration camera1 camera2 in
    let H1 := mat3_mul (mat3_mul K R1) (inverse3 (CalibrationMatrix camera1)) in
    let H2 := mat3_mul (mat3_mul K R2) (inverse3 (CalibrationMatrix camera2)) in
    Some (H1, H2, DisparityMatrix K t)
  else None.

End Undistortion.

(** The camera-model layer [M] with [rescale] for [Camera::Rescale]. *)
Definition WithRescale (rescale : R -> Camera -> Camera) (M : CameraModels)
    : CameraModels :=
  mkModels (SimplePinhole_model_id M) (Pinhole_model_id M)
    (CameraModelNameToId M) (FocalLengthIdxs M) (PrincipalPointIdxs M)
    (ImageToWorld M) (WorldToImage M) (ParamsFromString M) (VerifyParams M)
    rescale.

(** ** The steps of [RectifyStereoCameras] and of the march, by name *)

(** Lines 963-967: [R2], the relative rotation turned back by half its
    angle. *)
Definition HalfRotation (qvec : Vector4d) : Matrix3d :=
  let rvec := AngleAxis_of_quaternion qvec in
  let rvec := mkAngleAxis (angle rvec * -0.5) (axis rvec) in
  toRotationMatrix rvec.

(** Lines 963-993: [(R1, R2, t)] as lines 1002-1013 read them;
    [RectifyStereoCameras] above is these three under the calibration
    matrices. *)
Definition RectifyRotations (qvec : Vector4d) (tvec : Vector3d)
    : Matrix3d * Matrix3d * Vector3d :=
  let R2 := HalfRotation qvec in
  let R1 := transpose3 R2 in
  let t := mat3_vec R2 tvec in
  let R_x := XAxisCorrection t in
  (mat3_mul R_x R1, mat3_mul R_x R2, mat3_vec R_x t).

Section UndistortionSteps.

Variable M : CameraModels.

(** Lines 718-720: the angle [phi] of round [i] of the march. *)
Definition MarchAngle (camera : Camera) (principal_point corner_dir : Vector2d)
    (i : Z) : R :=
  atan (norm (ImageToWorld M camera
                (vadd (vscale corner_dir (IZR i)) principal_point))).

(** Round [k] of the march runs and does not break: [k] is below
    [max_radius], the angle grows over [prev], the angle the round before
    left in [max_valid_fov_half], and twice the angle is within
    [max_fov]. *)
Definition MarchAccepts (camera : Camera)
    (principal_point corner_dir : Vector2d) (max_radius max_fov : R)
    (prev : R) (k : Z) : Prop :=
  IZR k < max_radius
  /\ prev < MarchAngle camera principal_point corner_dir k
  /\ 2 * MarchAngle camera principal_point corner_dir k <= max_fov.

End UndistortionSteps.

(** [lo] and [hi] are the extrema of [values] over [0 .. n-1], started from
    the sentinels [double_max] and [double_lowest]. *)
Definition ExtremaOver (values : Z -> R) (n : Z) (lo hi : R) : Prop :=
  (forall y, (0 <= y < n)%Z -> lo <= values y <= hi)
  /\ (lo = double_max \/ exists y, (0 <= y < n)%Z /\ lo = values y)
  /\ (hi = double_lowest \/ exists y, (0 <= y < n)%Z /\ hi = values y).

(** ** Reconstructions (lines 933-952 and 363-400) *)

(** Modelled from the spec: the scene provider (base/reconstruction.h,
    base/image.h, base/point2d.h, base/track.h), camera records and image
    records keyed by identifiers, with what the code reads and writes: the
    position of a 2D point and the 3D point it belongs to, if any; the name,
    the camera and the 2D points of an image; the elements of the track of a
    3D point; the cameras, the images, the registered images and the tracks
    of a reconstruction. *)
Record Point2D : Type := mkPoint2D {
  XY : Vector2d;
  Point3DId : option Z
}.

Definition SetXY (xy : Vector2d) (p : Point2D) : Point2D :=
  mkPoint2D xy (Point3DId p).

Record Image : Type := mkImage {
  ImageName : string;
  CameraId : Z;
  Points2D : list Point2D
}.

Definition SetPoints2D (points : list Point2D) (image : Image) : Image :=
  mkImage (ImageName image) (CameraId image) points.

Record TrackElement : Type := mkTrackElement {
  image_id : Z;
  point2D_idx : Z
}.

Record Reconstruction : Type := mkReconstruction {
  Cameras : list (Z * Camera);
  Images : list (Z * Image);
  RegImageIds : list Z;
  Points3D : list (Z * list TrackElement)
}.

(** Modelled from the spec: the lookup by identifier
    ([std::unordered_map::at] behind [Reconstruction::Camera], [Image] and
    [Point3D]); [None] where the C++ throws. *)
Fixpoint at_key {A : Type} (key : Z) (m : list (Z * A)) : option A :=
  match m with
  | [] => None
  | (k, v) :: rest => if (k =? key)%Z then Some v else at_key key rest
  end.

Section Reconstructions.

Variable M : CameraModels.

(** The loop of lines 936-939; [None] when [UndistortCamera] fails. *)
Fixpoint UndistortCameras (options : UndistortCameraOptions)
    (cameras : list (Z * Camera)) : option (list (Z * Camera)) :=
  match cameras with
  | [] => Some []
  | (id, camera) :: rest =>
      match UndistortCamera M options camera with
      | None => None
      | Some undistorted =>
          match UndistortCameras options rest with
          | None => None
          | Some done => Some ((id, undistorted) :: done)
          end
      end
  end.

(** The loop of lines 945-950 over the 2D points of one image. *)
Definition UndistortPoints (distorted_camera undistorted_camera : Camera)
    (points : list Point2D) : list Point2D :=
  map (fun point2D =>
         SetXY (WorldToImage M undistorted_camera
                  (ImageToWorld M distorted_camera (XY point2D)))
               point2D)
      points.

(** The loop of lines 941-951; [None] when an image names a camera that
    the reconstruction does not have. *)
Fixpoint UndistortImages (distorted_cameras cameras : list (Z * Camera))
    (images : list (Z * Image)) : option (list (Z * Image)) :=
  match images with
  | [] => Some []
  | (id, image) :: rest =>
      match at_key (CameraId image) distorted_cameras,
            at_key (CameraId image) cameras with
      | Some distorted_camera, Some undistorted_camera =>
          match UndistortImages distorted_cameras cameras rest with
          | None => None
          | Some done =>
              Some ((id,
                     SetPoints2D
                       (UndistortPoints distorted_camera undistorted_camera
                          (Points2D image))
                       image) :: done)
          end
      | _, _ => None
      end
  end.

(** [UndistortReconstruction] (lines 933-952), the reconstruction after
    the call. *)
Definition UndistortReconstruction (options : UndistortCameraOptions)
    (reconstruction : Reconstruction) : option Reconstruction :=
  let distorted_cameras := Cameras reconstruction in
  match UndistortCameras options distorted_cameras with
  | None => None
  | Some cameras =>
      match UndistortImages distorted_cameras cameras
              (Images reconstruction) with
      | None => None
      | Some images =>
          Some (mkReconstruction cameras images
                  (RegImageIds reconstruction) (Points3D reconstruction))
      end
  end.

End Reconstructions.

(** [std::unordered_set::insert] on a set kept as a list without repeats;
    the order of the list is of no consequence, the set is read through
    [std::sort] only. *)
Definition set_insert (x : Z) (s : list Z) : list Z :=
  if existsb (Z.eqb x) s then s else x :: s.

(** Insertion into a sorted list. *)
Fixpoint sorted_insert (x : Z) (l : list Z) : list Z :=
  match l with
  | [] => [x]
  | y :: rest => if (x <=? y)%Z then x :: l else y :: sorted_insert x rest
  end.

(** [std::sort] on a vector of ids. *)
Definition std_sort (l : list Z) : list Z := fold_right sorted_insert [] l.

(** The loop of lines 382-386 over the elements of one track. *)
Definition VisitTrack (this_image : Z) (track : list TrackElement)
    (visible_image_ids : list Z) : list Z :=
  fold_left
    (fun visible track_el =>
       if negb (image_id track_el =? this_image)%Z
       then set_insert (image_id track_el) visible
       else visible)
    track visible_image_ids.

(** The loop of lines 377-388 over the points of the image; [None] when a
    point refers to a 3D point that the reconstruction does not have. *)
Fixpoint VisitPoints (points3D : list (Z * list TrackElement))
    (this_image : Z) (points : list Point2D) (visible_image_ids : list Z)
    : option (list Z) :=
  match points with
  | [] => Some visible_image_ids
  | point2D :: rest =>
      match Point3DId point2D with
      | None => VisitPoints points3D this_image rest visible_image_ids
      | Some id =>
          match at_key id points3D with
          | None => None
          | Some track =>
              VisitPoints points3D this_image rest
                (VisitTrack this_image track visible_image_ids)
          end
      end
  end.

(** Lines 374-392 of [PMVSUndistorter::WriteVisibilityData]: the sorted
    ids of the images that share a 3D point with the image [this_image], the
    list that lines 394-397 write after its length. *)
Definition SortedVisibleImageIds (reconstruction : Reconstruction)
    (this_image : Z) : option (list Z) :=
  match at_key this_image (Images reconstruction) with
  | None => None
  | Some image =>
      match VisitPoints (Points3D reconstruction) this_image
              (Points2D image) [] with
      | None => None
      | Some visible_image_ids => Some (std_sort visible_image_ids)
      end
  end.

(** ** Bitmaps (lines 916-931 and 1016-1050) *)

(** What the code takes from the bitmap and warp layer (util/bitmap.h and
    base/warp.h), which is not part of this file: the size and the colour
    flag of a bitmap, [Allocate], [CloneMetadata] and the two warps, each as
    the function from what it reads to the bitmap it leaves behind. *)
Record BitmapLayer : Type := mkBitmapLayer {
  Bitmap : Type;
  BitmapWidth : Bitmap -> Z;
  BitmapHeight : Bitmap -> Z;
  IsRGB : Bitmap -> bool;
  Allocate : Z -> Z -> bool -> Bitmap -> Bitmap;
  CloneMetadata : Bitmap -> Bitmap -> Bitmap;
  WarpImageBetweenCameras : Camera -> Camera -> Bitmap -> Bitmap -> Bitmap;
  WarpImageWithHomographyBetweenCameras :
    Matrix3d -> Camera -> Camera -> Bitmap -> Bitmap -> Bitmap
}.

Section Images.

Variable M : CameraModels.
Variable L : BitmapLayer.

(** [UndistortImage] (lines 916-931): the bitmap and the camera it leaves
    behind, or [None] for a failed [CHECK]. *)
Definition UndistortImage (options : UndistortCameraOptions)
    (distorted_bitmap : Bitmap L) (distorted_camera : Camera)
    (undistorted_bitmap : Bitmap L) : option (Bitmap L * Camera) :=
  if (Width distorted_camera =? BitmapWidth L distorted_bitmap)%Z
     && (Height distorted_camera =? BitmapHeight L distorted_bitmap)%Z
  then
    match UndistortCamera M options distorted_camera with
    | None => None
    | Some undistorted_camera =>
        let undistorted_bitmap :=
          Allocate L (Width undistorted_camera) (Height undistorted_camera)
            (IsRGB L distorted_bitmap) undistorted_bitmap in
        let undistorted_bitmap :=
          CloneMetadata L distorted_bitmap undistorted_bitmap in
        Some (WarpImageBetweenCameras L distorted_camera undistorted_camera
                distorted_bitmap undistorted_bitmap,
              undistorted_camera)
    end
  else None.

(** [RectifyAndUndistortStereoImages] (lines 1016-1050): the two bitmaps,
    the camera and [Q], or [None] for a failed [CHECK]. *)
Definition RectifyAndUndistortStereoImages (options : UndistortCameraOptions)
    (distorted_image1 distorted_image2 : Bitmap L)
    (distorted_camera1 distorted_camera2 : Camera)
    (qvec : Vector4d) (tvec : Vector3d)
    (undistorted_image1 undistorted_image2 : Bitmap L)
    : option (Bitmap L * Bitmap L * Camera * Matrix4d) :=
  if (Width distorted_camera1 =? BitmapWidth L distorted_image1)%Z
     && (Height distorted_camera1 =? BitmapHeight L distorted_image1)%Z
     && (Width distorted_camera2 =? BitmapWidth L distorted_image2)%Z
     && (Height distorted_camera2 =? BitmapHeight L distorted_image2)%Z
  then
    match UndistortCamera M options distorted_camera1 with
    | None => None
    | Some undistorted_camera =>
        let undistorted_image1 :=
          CloneMetadata L distorted_image1
            (Allocate L (Width undistorted_camera)
               (Height undistorted_camera) (IsRGB L distorted_image1)
               undistorted_image1) in
        let undistorted_image2 :=
          CloneMetadata L distorted_image2
            (Allocate L (Width undistorted_camera)
               (Height undistorted_camera) (IsRGB L distorted_image2)
               undistorted_image2) in
        match RectifyStereoCameras M undistorted_camera undistorted_camera
                qvec tvec with
        | None => None
        | Some (H1, H2, Q) =>
            Some (WarpImageWithHomographyBetweenCameras L (inverse3 H1)
                    distorted_camera1 undistorted_camera distorted_image1
                    undistorted_image1,
                  WarpImageWithHomographyBetweenCameras L (inverse3 H2)
                    distorted_camera2 undistorted_camera distorted_image2
                    undistorted_image2,
                  undistorted_camera, Q)
        end
    end
  else None.

(** The pair of [CHECK_EQ]s on a camera and its bitmap (lines 920-921 and
    1023-1026). *)
Definition SizesMatch (camera : Camera) (bitmap : Bitmap L) : bool :=
  (Width camera =? BitmapWidth L bitmap)%Z
  && (Height camera =? BitmapHeight L bitmap)%Z.

End Images.

(** ** [WriteProjectionMatrix] (lines 28-61) *)

Definition Matrix3x4d : Type := (Vector4d * Vector4d * Vector4d)%type.

Definition scale4 (s : R) (v : Vector4d) : Vector4d :=
  let '(a, b, c, d) := v in (s * a, s * b, s * c, s * d).

Definition add4 (v w : Vector4d) : Vector4d :=
  let '(a, b, c, d) := v in
  let '(a', b', c', d') := w in (a + a', b + b', c + c', d + d').

(** The product of a 3x3 and a 3x4 matrix. *)
Definition mat3_mul_3x4 (m : Matrix3d) (p : Matrix3x4d) : Matrix3x4d :=
  let '(p0, p1, p2) := p in
  let row := fun r : Vector3d =>
    let '(a, b, c) := r in
    add4 (add4 (scale4 a p0) (scale4 b p1)) (scale4 c p2) in
  let '(m0, m1, m2) := m in (row m0, row m1, row m2).

Definition rows3x4 (m : Matrix3x4d) : list (list R) :=
  let row := fun v : Vector4d => let '(a, b, c, d) := v in [a; b; c; d] in
  let '(r0, r1, r2) := m in [row r0; row r1; row r2].

(** [std::endl]. *)
Definition endl : string := String (ascii_of_nat 10) EmptyString.

Section ProjectionFile.

Variable M : CameraModels.

(** How the stream prints a [double]. *)
Variable show : R -> string.

(** One pass of the outer loop of [WriteMatrix] (lines 33-36): the entries
    of a row, a blank after each but the last, then the end of the line.  A
    matrix that is written has at least one column. *)
Fixpoint WriteRow (row : list R) : string :=
  match row with
  | [] => endl
  | x :: rest =>
      match rest with
      | [] => (show x ++ endl)%string
      | _ :: _ => (show x ++ " " ++ WriteRow rest)%string
      end
  end.

(** [WriteMatrix] (lines 28-38), the matrix given by its rows. *)
Definition WriteMatrix (rows : list (list R)) : string :=
  String.concat EmptyString (map WriteRow rows).

(** [WriteProjectionMatrix] (lines 41-61): the text written to the file, or
    [None] for a failed [CHECK].  [is_open] tells whether the file could be
    opened, [proj_matrix] is [image.ProjectionMatrix()]. *)
Definition WriteProjectionMatrix (is_open : bool) (camera : Camera)
    (proj_matrix : Matrix3x4d) (header : string) : option string :=
  if (ModelId camera =? Pinhole_model_id M)%Z then
    if is_open then
      let calib_matrix : Matrix3d :=
        ((FocalLengthX camera, 0, PrincipalPointX camera),
         (0, FocalLengthY camera, PrincipalPointY camera),
         (0, 0, 1)) in
      let proj_matrix := mat3_mul_3x4 calib_matrix proj_matrix in
      Some ((if (0 <? String.length header)%nat
             then header ++ endl else EmptyString)
            ++ WriteMatrix (rows3x4 proj_matrix))%string
    else None
  else None.

End ProjectionFile.

(** ** The contract of the ray probe in the words of the specification *)

(** [p] lies on the segment from [origin] toward [target], at a distance of
    at most [max_length] from [origin]. *)
Definition OnClippedSegment (origin target : Vector2d) (max_length : R)
    (p : Vector2d) : Prop :=
  exists m : R,
    0 <= m <= std_min max_length (norm (vsub target origin))
    /\ p = vadd origin (vscale (normalized (vsub target origin)) m).

(** [p] is the point of the clipped segment farthest from [origin] among
    those that pass the three angle tests. *)
Definition Spec_FarthestValidPoint (M : CameraModels) (camera : Camera)
    (origin target : Vector2d)
    (max_length max_angle max_horizontal_angle max_vertical_angle : R)
    (p : Vector2d) : Prop :=
  OnClippedSegment origin target max_length p
  /\ PointValid M camera max_angle max_horizontal_angle max_vertical_angle p
     = true
  /\ forall q : Vector2d,
       OnClippedSegment origin target max_length q ->
       PointValid M camera max_angle max_horizontal_angle
         max_vertical_angle q = true ->
       norm (vsub q origin) <= norm (vsub p origin).

(** The distance of the returned point from [origin]. *)
Definition SelectedDistance (M : CameraModels) (camera : Camera)
    (origin target : Vector2d)
    (max_length max_angle max_horizontal_angle max_vertical_angle : R) : R :=
  norm (vsub (SelectPointOnRay M camera origin target max_length max_angle
                max_horizontal_angle max_vertical_angle) origin).

(** ** A small camera-model layer to run the definitions on *)

(** The two pinhole kinds as camera_models.h numbers and lays them out
    (SIMPLE_PINHOLE: f, cx, cy; PINHOLE: fx, fy, cx, cy), a third name for a
    kind with distortion, and the pinhole projection for every kind. *)
Definition sample_name_to_id (name : string) : Z :=
  if String.eqb name "SIMPLE_PINHOLE" then 0
  else if String.eqb name "PINHOLE" then 1
  else if String.eqb name "OPENCV" then 4
  else (-1).

Definition sample_focal_y (c : Camera) : R :=
  if (ModelId c =? 0)%Z then focal_x (Params c) else focal_y (Params c).

Definition sample_ImageToWorld (c : Camera) (p : Vector2d) : Vector2d :=
  ((vx p - PrincipalPointX c) / FocalLengthX c,
   (vy p - PrincipalPointY c) / sample_focal_y c).

Definition sample_WorldToImage (c : Camera) (w : Vector2d) : Vector2d :=
  (FocalLengthX c * vx w + PrincipalPointX c,
   sample_focal_y c * vy w + PrincipalPointY c).

Definition sample_Rescale (scale : R) (c : Camera) : Camera :=
  let p := Params c in
  mkCamera (ModelId c)
    (to_size_t (scale * IZR (Width c) + 0.5))
    (to_size_t (scale * IZR (Height c) + 0.5))
    (mkParams (scale * focal_x p) (scale * focal_y p)
       (scale * pp_x p) (scale * pp_y p) (extra_params p)).

(** The parameter strings that occur below, parsed by hand. *)
Definition sample_ParamsFromString (id : Z) (params : string)
    : CameraParams :=
  if String.eqb params "1,1,0,0" then mkParams 1 1 0 0 []
  else if String.eqb params "500,500,320,240,0.1,0,0,0"
  then mkParams 500 500 320 240 [0.1; 0; 0; 0]
  else mkParams 0 0 0 0 [].

(** The parameter count of the kind: none beside the intrinsics for the two
    pinhole kinds, four distortion parameters for OPENCV. *)
Definition sample_VerifyParams (c : Camera) : bool :=
  if (ModelId c =? 0)%Z || (ModelId c =? 1)%Z
  then (List.length (extra_params (Params c)) =? 0)%nat
  else if (ModelId c =? 4)%Z
  then (List.length (extra_params (Params c)) =? 4)%nat
  else false.

Definition sample_models : CameraModels :=
  mkModels 0 1 sample_name_to_id
    (fun id => if (id =? 0)%Z then [0%nat] else [0%nat; 1%nat])
    (fun id => if (id =? 0)%Z then [1%nat; 2%nat] else [2%nat; 3%nat])
    sample_ImageToWorld sample_WorldToImage
    sample_ParamsFromString sample_VerifyParams sample_Rescale.

(** A PINHOLE camera of the sample layer. *)
Definition pinhole_camera (w h : Z) (fx fy cx cy : R) : Camera :=
  mkCamera 1 w h (mkParams fx fy cx cy []).

(** The configuration of the end-to-end scenario of the specification
    (maxFov 100, blankPixels 0.5, minScale 0.5, maxScale 2.0), with the
    size cap, the override (kind and parameter string) and the focal-length
    flag left open. *)
Definition sample_options_with (max_size : Z) (override params : string)
    (estimate : bool) : UndistortCameraOptions :=
  mkOptions 0.5 0.5 2 max_size 100 100 100 override params estimate.

(** The same without override. *)
Definition sample_options (max_size : Z) (estimate : bool)
    : UndistortCameraOptions :=
  sample_options_with max_size EmptyString EmptyString estimate.

(** A PINHOLE camera with focal length 1 and the principal point at the
    origin of the image: back-projection is the identity. *)
Definition unit_camera : Camera := pinhole_camera 4 4 1 1 0 0.

(** A 640x480 PINHOLE camera with focal length 500 and the principal point
    at the centre. *)
Definition vga_camera : Camera := pinhole_camera 640 480 500 500 320 240.

(** A 4x3 PINHOLE camera with focal length 4 and the principal point at the
    origin of the image. *)
Definition camera_4x3 : Camera := pinhole_camera 4 3 4 4 0 0.

(** A 4x3 PINHOLE camera with the focal lengths 5 and 6 and the principal
    point at the origin of the image. *)
Definition camera_4x3_f56 : Camera := pinhole_camera 4 3 5 6 0 0.

(** A 640x480 camera of the kind with distortion (OPENCV, id 4). *)
Definition opencv_camera : Camera :=
  mkCamera 4 640 480 (mkParams 500 500 320 240 [0.1; 0; 0; 0]).

(** A bitmap layer that keeps the size and the colour flag of a bitmap and
    nothing of its pixels. *)
Definition sample_bitmaps : BitmapLayer :=
  mkBitmapLayer (Z * Z * bool)%type
    (fun b => fst (fst b)) (fun b => snd (fst b)) snd
    (fun w h rgb _ => (w, h, rgb))
    (fun _ b => b)
    (fun _ _ _ b => b)
    (fun _ _ _ _ b => b).

(** A 640x480 colour bitmap. *)
Definition vga_bitmap : Bitmap sample_bitmaps := (640%Z, 480%Z, true).

(** Three images of one camera and two 3D points: point 3 is seen in the
    images 7, 9 and 8, point 4 in the images 9 and 7. *)
Definition sample_reconstruction : Reconstruction :=
  mkReconstruction
    [(1%Z, opencv_camera)]
    [(7%Z, mkImage "a.jpg" 1
             [mkPoint2D (320, 240) (Some 3%Z); mkPoint2D (0, 0) None;
              mkPoint2D (10, 20) (Some 4%Z)]);
     (8%Z, mkImage "b.jpg" 1 [mkPoint2D (300, 200) (Some 3%Z)]);
     (9%Z, mkImage "c.jpg" 1
             [mkPoint2D (1, 1) (Some 4%Z); mkPoint2D (2, 2) (Some 3%Z)])]
    [7%Z; 8%Z; 9%Z]
    [(3%Z, [mkTrackElement 7 0; mkTrackElement 9 1; mkTrackElement 8 0]);
     (4%Z, [mkTrackElement 9 0; mkTrackElement 7 2])].

(** The scale of the scale step in the words of the specification: the
    linear interpolation between the two scales, weighted by the blank-pixel
    fraction, then clipped. *)
Definition Spec_AppliedScale (options : UndistortCameraOptions)
    (no_missing_scale no_blank_scale : R) : R :=
  Clip (no_missing_scale * blank_pixels options
        + no_blank_scale * (1 - blank_pixels options))
       (min_scale options) (max_scale options).

(** The four corners of the image, in the order of [corners]. *)
Definition Spec_corners (camera : Camera) : list Vector2d :=
  [ (0, 0);
    (IZR (Width camera), 0);
    (IZR (Width camera), IZR (Height camera));
    (0, IZR (Height camera)) ].

Definition Spec_corner (camera : Camera) (i : nat) : Vector2d :=
  nth i (Spec_corners camera) (0, 0).

(** The focal length of the flag in the words of the specification: the
    largest of the diagonal candidate, the candidates of the two pairs of
    opposite image corners, and the horizontal and vertical candidates. *)
Definition Spec_EstimateFocal (M : CameraModels)
    (options : UndistortCameraOptions) (camera : Camera)
    (principal_point : Vector2d) (max_valid_fov_half max_valid_radius : R)
    : R :=
  let max_horizontal_fov := DegToRad (max_horizontal_fov options) in
  let max_vertical_fov := DegToRad (max_vertical_fov options) in
  let candidate :=
    CornerPairCandidate M camera principal_point max_valid_radius
      max_valid_fov_half max_horizontal_fov max_vertical_fov in
  std_max
    (std_max
       (std_max (norm (image_size camera) / 2 / tan max_valid_fov_half)
          (candidate (Spec_corner camera 0) (Spec_corner camera 2)))
       (candidate (Spec_corner camera 1) (Spec_corner camera 3)))
    (std_max
       (FocalHorizontalFov M camera principal_point max_valid_radius
          max_horizontal_fov)
       (FocalVerticalFov M camera principal_point max_valid_radius
          max_vertical_fov)).

(** ** Proof steps *)

(** Equality of tuples, entry by entry. *)
Ltac tuple_eq :=
  repeat match goal with
         | |- (_, _) = (_, _) => apply (f_equal2 (@pair _ _))
         end.

Ltac mat_eq := cbv beta iota zeta; tuple_eq; try ring.

(** * Properties *)

(** ** The C++ helpers *)

Lemma std_min_Rmin a b : std_min a b = Rmin a b.
Proof.
  unfold std_min, Rmin.
  destruct (Rlt_dec b a), (Rle_dec a b); lra.
Qed.

Lemma std_max_Rmax a b : std_max a b = Rmax a b.
Proof.
  unfold std_max, Rmax.
  destruct (Rlt_dec a b), (Rle_dec a b); lra.
Qed.

Lemma std_min_l a b : std_min a b <= a.
Proof. unfold std_min; destruct (Rlt_dec b a); lra. Qed.

Lemma std_min_r a b : std_min a b <= b.
Proof. unfold std_min; destruct (Rlt_dec b a); lra. Qed.

Lemma std_min_glb a b c : c <= a -> c <= b -> c <= std_min a b.
Proof. unfold std_min; destruct (Rlt_dec b a); lra. Qed.

Lemma std_max_l a b : a <= std_max a b.
Proof. unfold std_max; destruct (Rlt_dec a b); lra. Qed.

Lemma std_max_r a b : b <= std_max a b.
Proof. unfold std_max; destruct (Rlt_dec a b); lra. Qed.

Lemma std_max_lub_lt a b c : a < c -> b < c -> std_max a b < c.
Proof. intros Ha Hb. unfold std_max. destruct (Rlt_dec a b); assumption. Qed.

Lemma Rltb_true x y : Rltb x y = true <-> x < y.
Proof. unfold Rltb; destruct (Rlt_dec x y); split; intros; congruence || lra. Qed.

Lemma Rltb_false x y : Rltb x y = false <-> y <= x.
Proof. unfold Rltb; destruct (Rlt_dec x y); split; intros; congruence || lra. Qed.

Lemma Rleb_true x y : Rleb x y = true <-> x <= y.
Proof. unfold Rleb; destruct (Rle_dec x y); split; intros; congruence || lra. Qed.

Lemma Rleb_false x y : Rleb x y = false <-> y < x.
Proof. unfold Rleb; destruct (Rle_dec x y); split; intros; congruence || lra. Qed.

(** ** The bisection loop *)

Lemma pow2_pos n : 0 < 2 ^ n.
Proof. apply pow_lt; lra. Qed.

(** Every round halves the bracket. *)
Lemma bisect_width valid n : forall l r,
  snd (bisect valid n l r) - fst (bisect valid n l r) = (r - l) / 2 ^ n.
Proof.
  induction n as [|k IH]; intros l r; simpl.
  - field.
  - pose proof (pow2_pos k).
    destruct (valid ((r + l) / 2)); rewrite IH; field; lra.
Qed.

(** The bracket stays inside the one it started from. *)
Lemma bisect_bounds valid n : forall l r,
  l <= r ->
  l <= fst (bisect valid n l r)
  /\ fst (bisect valid n l r) <= snd (bisect valid n l r)
  /\ snd (bisect valid n l r) <= r.
Proof.
  induction n as [|k IH]; intros l r Hlr; simpl.
  - lra.
  - destruct (valid ((r + l) / 2)).
    + destruct (IH ((r + l) / 2) r) as (A & B & C); lra.
    + destruct (IH l ((r + l) / 2)) as (A & B & C); lra.
Qed.

(** The lower end is the one it started from or a midpoint that was valid. *)
Lemma bisect_lower valid n : forall l r,
  fst (bisect valid n l r) = l \/ valid (fst (bisect valid n l r)) = true.
Proof.
  induction n as [|k IH]; intros l r; simpl.
  - now left.
  - destruct (valid ((r + l) / 2)) eqn:E.
    + destruct (IH ((r + l) / 2) r) as [-> | H]; right; assumption.
    + apply IH.
Qed.

(** The upper end is the one it started from or a midpoint that was not. *)
Lemma bisect_upper valid n : forall l r,
  snd (bisect valid n l r) = r \/ valid (snd (bisect valid n l r)) = false.
Proof.
  induction n as [|k IH]; intros l r; simpl.
  - now left.
  - destruct (valid ((r + l) / 2)) eqn:E.
    + apply IH.
    + destruct (IH l ((r + l) / 2)) as [-> | H]; right; assumption.
Qed.

(** With no valid distance in the bracket the lower end never moves. *)
Lemma bisect_none_valid valid n : forall l r,
  l <= r ->
  (forall m, l <= m <= r -> valid m = false) ->
  fst (bisect valid n l r) = l.
Proof.
  induction n as [|k IH]; intros l r Hlr Hv; simpl.
  - reflexivity.
  - rewrite Hv by lra.
    apply IH; [lra | intros m Hm; apply Hv; lra].
Qed.

(** The midpoints from 0 are [r/2], [r/4], ..., [r/2^n]: when all of that
    size are refused the lower end stays at 0. *)
Lemma bisect_from_0_refused valid n : forall r,
  0 <= r ->
  (forall m, r / 2 ^ n <= m -> valid m = false) ->
  fst (bisect valid n 0 r) = 0.
Proof.
  induction n as [|k IH]; intros r Hr Hv; [reflexivity|].
  pose proof (pow2_pos k) as Hp.
  assert (Hhalf : r / 2 ^ S k = (r + 0) / 2 / 2 ^ k)
    by (cbn [pow]; field; lra).
  assert (Hle : r / 2 ^ S k <= (r + 0) / 2).
  { rewrite Hhalf. apply (Rmult_le_reg_r (2 ^ k)); [exact Hp|].
    replace ((r + 0) / 2 / 2 ^ k * 2 ^ k) with ((r + 0) / 2) by (field; lra).
    assert (1 <= 2 ^ k) by (apply pow_R1_Rle; lra). nra. }
  cbn [bisect]. rewrite (Hv _ Hle).
  apply IH; [lra|]. intros m Hm. apply Hv. now rewrite Hhalf.
Qed.

(** With every midpoint that the loop can take from [(0, r)] refused (they
    all lie between [r / 2 ^ n] and [r / 2]) the lower end stays at 0,
    whatever holds beyond [r / 2]. *)
Lemma bisect_lower_half_refused valid n : forall r,
  0 <= r ->
  (forall m, r / 2 ^ n <= m <= r / 2 -> valid m = false) ->
  fst (bisect valid n 0 r) = 0.
Proof.
  induction n as [|k IH]; intros r Hr Hv; [reflexivity|].
  pose proof (pow2_pos k) as Hp.
  assert (Hhalf : r / 2 ^ S k = (r + 0) / 2 / 2 ^ k)
    by (cbn [pow]; field; lra).
  assert (Hle : r / 2 ^ S k <= (r + 0) / 2).
  { rewrite Hhalf. apply (Rmult_le_reg_r (2 ^ k)); [exact Hp|].
    replace ((r + 0) / 2 / 2 ^ k * 2 ^ k) with ((r + 0) / 2) by (field; lra).
    assert (1 <= 2 ^ k) by (apply pow_R1_Rle; lra). nra. }
  cbn [bisect]. rewrite (Hv ((r + 0) / 2)) by (split; [exact Hle | lra]).
  apply IH; [lra|]. intros m [Hm1 Hm2]. apply Hv.
  rewrite Hhalf. split; [exact Hm1 | lra].
Qed.

(** With every distance inside the bracket valid the upper end never moves,
    and the lower end closes half of the gap in every round. *)
Lemma bisect_all_valid valid n : forall l r,
  l < r ->
  (forall m, l < m < r -> valid m = true) ->
  bisect valid n l r = (r - (r - l) / 2 ^ n, r).
Proof.
  induction n as [|k IH]; intros l r Hlr Hv; simpl.
  - f_equal; field.
  - pose proof (pow2_pos k).
    rewrite Hv by lra.
    rewrite IH; [f_equal; field; lra | lra | intros m Hm; apply Hv; lra].
Qed.

(** When validity is downward closed, a longer starting bracket loses at most
    its own final width. *)
Lemma bisect_monotone_up_to_width valid n a b :
  0 <= a <= b ->
  (forall m m', 0 <= m' <= m -> valid m = true -> valid m' = true) ->
  fst (bisect valid n 0 a) <= fst (bisect valid n 0 b) + b / 2 ^ n.
Proof.
  intros Hab Hdown.
  pose proof (bisect_width valid n 0 b) as Hw.
  replace ((b - 0) / 2 ^ n) with (b / 2 ^ n) in Hw by (unfold Rdiv; ring).
  destruct (bisect_bounds valid n 0 a) as (A1 & A2 & A3); [lra|].
  destruct (bisect_bounds valid n 0 b) as (B1 & B2 & B3); [lra|].
  destruct (bisect_upper valid n 0 b) as [Hr | Hr].
  - lra.
  - destruct (bisect_lower valid n 0 a) as [Hl | Hl].
    + pose proof (pow2_pos n).
      assert (0 <= b / 2 ^ n) by (apply Rmult_le_pos; [lra | left; now apply Rinv_0_lt_compat]).
      lra.
    + destruct (Rle_dec (snd (bisect valid n 0 b)) (fst (bisect valid n 0 a)))
        as [Hle | Hgt].
      * rewrite (Hdown _ _ (conj (Rle_trans _ _ _ B1 B2) Hle) Hl) in Hr.
        discriminate.
      * lra.
Qed.

(** ** Vectors *)

Lemma squaredNorm_nonneg v : 0 <= squaredNorm v.
Proof. unfold squaredNorm; nra. Qed.

Lemma norm_nonneg v : 0 <= norm v.
Proof. apply sqrt_pos. Qed.

Lemma norm_x_axis x : norm (x, 0) = Rabs x.
Proof.
  unfold norm, squaredNorm, vx, vy; cbn [fst snd].
  replace (x * x + 0 * 0) with (Rsqr x) by (unfold Rsqr; ring).
  apply sqrt_Rsqr_abs.
Qed.

Lemma norm_vscale v s : norm (vscale v s) = norm v * Rabs s.
Proof.
  destruct v as [x y].
  unfold norm, vscale, squaredNorm, vx, vy; cbn [fst snd].
  replace (x * s * (x * s) + y * s * (y * s))
    with ((x * x + y * y) * Rsqr s) by (unfold Rsqr; ring).
  rewrite sqrt_mult_alt by nra.
  now rewrite sqrt_Rsqr_abs.
Qed.

Lemma norm_normalized v : 0 < squaredNorm v -> norm (normalized v) = 1.
Proof.
  intros Hpos. unfold normalized.
  destruct (Rlt_dec 0 (squaredNorm v)) as [_ | C]; [|contradiction].
  assert (Hn : 0 < norm v) by now apply sqrt_lt_R0.
  assert (Hs : norm v * norm v = squaredNorm v)
    by (apply sqrt_sqrt; lra).
  unfold norm at 1, squaredNorm at 1, vx, vy; cbn [fst snd].
  replace (fst v / norm v * (fst v / norm v) + snd v / norm v * (snd v / norm v))
    with (squaredNorm v / (norm v * norm v))
    by (unfold squaredNorm, vx, vy; field; lra).
  rewrite Hs. replace (squaredNorm v / squaredNorm v) with 1 by (field; lra).
  apply sqrt_1.
Qed.

Lemma vsub_vadd o d : vsub (vadd o d) o = d.
Proof.
  destruct o as [ox oy], d as [dx dy]; unfold vsub, vadd, vx, vy.
  cbn [fst snd]. f_equal; ring.
Qed.

Lemma vadd_vscale_0 o d : vadd o (vscale d 0) = o.
Proof.
  destruct o as [ox oy], d as [dx dy]; unfold vadd, vscale, vx, vy.
  cbn [fst snd]. f_equal; ring.
Qed.

Section ProbeProperties.

Variable M : CameraModels.
Variables (camera : Camera) (origin target : Vector2d).
Variables (max_angle max_horizontal_angle max_vertical_angle : R).

Lemma bracket_bounds max_length :
  0 <= max_length ->
  let b := SelectBracket M camera origin target max_length max_angle
             max_horizontal_angle max_vertical_angle in
  0 <= fst b /\ fst b <= snd b
  /\ snd b <= std_min max_length (norm (vsub target origin)).
Proof.
  intros H. unfold SelectBracket.
  apply (bisect_bounds _ 32 0 (std_min max_length (norm (vsub target origin)))).
  apply std_min_glb; [assumption | apply norm_nonneg].
Qed.

(** The returned point is at the distance the loop ends with. *)
Lemma SelectedDistance_bracket max_length :
  0 <= max_length ->
  SelectedDistance M camera origin target max_length max_angle
    max_horizontal_angle max_vertical_angle
  = fst (SelectBracket M camera origin target max_length max_angle
           max_horizontal_angle max_vertical_angle).
Proof.
  intros H.
  pose proof (bracket_bounds max_length H) as HB. cbv zeta in HB.
  unfold SelectedDistance, SelectPointOnRay.
  revert HB.
  generalize (SelectBracket M camera origin target max_length max_angle
                max_horizontal_angle max_vertical_angle).
  intros b (B1 & B2 & B3).
  rewrite vsub_vadd, norm_vscale, (Rabs_pos_eq _ B1).
  destruct (Rlt_dec 0 (squaredNorm (vsub target origin))) as [Hpos | Hz].
  - rewrite norm_normalized by assumption. ring.
  - assert (Hn : norm (vsub target origin) = 0).
    { unfold norm.
      replace (squaredNorm (vsub target origin)) with 0
        by (pose proof (squaredNorm_nonneg (vsub target origin)); lra).
      apply sqrt_0. }
    pose proof (std_min_r max_length (norm (vsub target origin))) as Hr.
    replace (fst b) with 0 by lra. ring.
Qed.

(** The returned point lies on the clipped segment. *)
Lemma SelectPointOnRay_on_segment max_length :
  0 <= max_length ->
  OnClippedSegment origin target max_length
    (SelectPointOnRay M camera origin target max_length max_angle
       max_horizontal_angle max_vertical_angle).
Proof.
  intros H.
  pose proof (bracket_bounds max_length H) as HB. cbv zeta in HB.
  unfold OnClippedSegment, SelectPointOnRay. revert HB.
  generalize (SelectBracket M camera origin target max_length max_angle
                max_horizontal_angle max_vertical_angle).
  intros b (B1 & B2 & B3).
  exists (fst b). split; [lra | reflexivity].
Qed.

(** C2 (as amended): what the 32 rounds of [SelectPointOnRay] guarantee.  For
    [0 <= max_length] the function returns [origin + dir * l] for the bracket
    [(l, r)] the loop ends with: [0 <= l <= r <= min(max_length,
    |target - origin|)], the bracket has 1/2^32 of the width of the range, [l]
    is 0 or the returned point passes the three angle tests, [r] is the end
    of the range or a distance that fails them, and the origin is returned
    when no distance of the range passes. *)
Theorem SelectPointOnRay_bisection_contract max_length :
  0 <= max_length ->
  let range := std_min max_length (norm (vsub target origin)) in
  let dir := normalized (vsub target origin) in
  let b := SelectBracket M camera origin target max_length max_angle
             max_horizontal_angle max_vertical_angle in
  let p := SelectPointOnRay M camera origin target max_length max_angle
             max_horizontal_angle max_vertical_angle in
  p = vadd origin (vscale dir (fst b))
  /\ (0 <= fst b /\ fst b <= snd b /\ snd b <= range)
  /\ snd b - fst b = range / 2 ^ 32
  /\ (fst b = 0
      \/ PointValid M camera max_angle max_horizontal_angle
           max_vertical_angle p = true)
  /\ (snd b = range
      \/ m_valid M camera origin dir max_angle max_horizontal_angle
           max_vertical_angle (snd b) = false)
  /\ ((forall m, 0 <= m <= range ->
         m_valid M camera origin dir max_angle max_horizontal_angle
           max_vertical_angle m = false) ->
      p = origin).
Proof.
  intros H range dir b p.
  assert (Hrange : 0 <= range)
    by (apply std_min_glb; [assumption | apply norm_nonneg]).
  set (valid := m_valid M camera origin dir max_angle max_horizontal_angle
                  max_vertical_angle).
  assert (Hb : b = bisect valid 32 0 range) by reflexivity.
  assert (Hp : p = vadd origin (vscale dir (fst b))) by reflexivity.
  clearbody b p. subst b.
  pose proof (bisect_bounds valid 32 0 range Hrange) as HB.
  pose proof (bisect_width valid 32 0 range) as HW.
  pose proof (bisect_lower valid 32 0 range) as HL.
  pose proof (bisect_upper valid 32 0 range) as HU.
  pose proof (bisect_none_valid valid 32 0 range Hrange) as HN.
  revert Hp HB HW HL HU HN.
  generalize (bisect valid 32 0 range). intros b Hp HB HW HL HU HN.
  repeat split; try tauto.
  - rewrite HW. unfold Rdiv. ring.
  - destruct HL as [HL | HL]; [now left | right].
    rewrite Hp. exact HL.
  - intros Hnone. rewrite Hp, (HN Hnone). apply vadd_vscale_0.
Qed.

(** C10 (as amended): for [0 <= max_length] the returned point lies on the
    segment from [origin] to [target] clipped to [max_length], no farther
    from [origin] than [max_length]; and when the angle tests are downward
    closed along the ray, a larger [max_length] makes the returned distance
    smaller by at most 1/2^32 of the larger range. *)
Theorem SelectPointOnRay_segment_and_resolution max_length1 max_length2 :
  0 <= max_length1 <= max_length2 ->
  OnClippedSegment origin target max_length2
    (SelectPointOnRay M camera origin target max_length2 max_angle
       max_horizontal_angle max_vertical_angle)
  /\ SelectedDistance M camera origin target max_length2 max_angle
       max_horizontal_angle max_vertical_angle <= max_length2
  /\ ((forall m m', 0 <= m' <= m ->
         m_valid M camera origin (normalized (vsub target origin)) max_angle
           max_horizontal_angle max_vertical_angle m = true ->
         m_valid M camera origin (normalized (vsub target origin)) max_angle
           max_horizontal_angle max_vertical_angle m' = true) ->
      SelectedDistance M camera origin target max_length1 max_angle
        max_horizontal_angle max_vertical_angle
      <= SelectedDistance M camera origin target max_length2 max_angle
           max_horizontal_angle max_vertical_angle
         + std_min max_length2 (norm (vsub target origin)) / 2 ^ 32).
Proof.
  intros [H1 H12].
  assert (H2 : 0 <= max_length2) by lra.
  split; [now apply SelectPointOnRay_on_segment|].
  rewrite !SelectedDistance_bracket by assumption.
  pose proof (bracket_bounds max_length2 H2) as HB. cbv zeta in HB.
  pose proof (std_min_l max_length2 (norm (vsub target origin))) as Hl.
  split; [lra|].
  intros Hdown. unfold SelectBracket.
  set (valid := m_valid M camera origin (normalized (vsub target origin))
                  max_angle max_horizontal_angle max_vertical_angle) in *.
  set (n := norm (vsub target origin)) in *.
  assert (Hn : 0 <= n) by apply norm_nonneg.
  apply (bisect_monotone_up_to_width valid 32 (std_min max_length1 n)
           (std_min max_length2 n)); [|exact Hdown].
  split.
  - apply std_min_glb; lra.
  - apply std_min_glb; [|apply std_min_r].
    pose proof (std_min_l max_length1 n). lra.
Qed.

End ProbeProperties.

(** ** The probe on the sample layer, along the x axis *)

Lemma bisect_S valid k l r :
  bisect valid (S k) l r
  = if valid ((r + l) / 2) then bisect valid k ((r + l) / 2) r
    else bisect valid k l ((r + l) / 2).
Proof. reflexivity. Qed.

Lemma atan_lt_2 x : atan x < 2.
Proof.
  pose proof (atan_bound x) as [_ H]. pose proof PI_4. lra.
Qed.

Lemma x_axis_norm t : 0 <= t -> norm (vsub (t, 0) (0, 0)) = t.
Proof.
  intros Ht. unfold vsub, vx, vy; cbn [fst snd].
  replace (t - 0) with t by ring. replace (0 - 0) with 0 by ring.
  rewrite norm_x_axis. now apply Rabs_pos_eq.
Qed.

Lemma x_axis_dir t : 0 < t -> normalized (vsub (t, 0) (0, 0)) = (1, 0).
Proof.
  intros Ht. unfold normalized.
  rewrite (x_axis_norm t) by lra.
  unfold vsub, squaredNorm, vx, vy; cbn [fst snd].
  destruct (Rlt_dec 0 ((t - 0) * (t - 0) + (0 - 0) * (0 - 0))) as [_ | C].
  - f_equal; field; lra.
  - exfalso; apply C; nra.
Qed.

(** Along the x axis the unit camera sees the distance itself. *)
Lemma unit_camera_valid_x_axis a h v m :
  m_valid sample_models unit_camera (0, 0) (1, 0) a h v m
  = Rltb 0 v && Rltb (atan m) h && Rltb (atan (Rabs m)) a.
Proof.
  unfold m_valid, PointValid, sample_models, ImageToWorld,
    sample_ImageToWorld, sample_focal_y, unit_camera, pinhole_camera,
    PrincipalPointX, PrincipalPointY, FocalLengthX, vadd, vscale, vx, vy.
  cbn [fst snd ModelId Params focal_x focal_y pp_x pp_y Z.eqb].
  replace ((0 + 1 * m - 0) / 1) with m by field.
  replace ((0 + 0 * m - 0) / 1) with 0 by field.
  now rewrite norm_x_axis, atan_0.
Qed.

(** With the three bounds at 2 (more than a right angle) every point passes. *)
Lemma sample_valid_wide c p : PointValid sample_models c 2 2 2 p = true.
Proof.
  unfold PointValid.
  rewrite !andb_true_iff, !Rltb_true.
  repeat split; apply atan_lt_2.
Qed.

(** With the horizontal bound at 45 degrees the unit camera accepts exactly
    the distances below 1. *)
Lemma unit_camera_valid_below_1 m :
  0 <= m ->
  m_valid sample_models unit_camera (0, 0) (1, 0) 2 (PI / 4) 2 m
  = Rltb m 1.
Proof.
  intros Hm. rewrite unit_camera_valid_x_axis.
  assert (H0 : Rltb 0 2 = true) by (apply Rltb_true; lra).
  assert (H2 : Rltb (atan (Rabs m)) 2 = true)
    by (apply Rltb_true, atan_lt_2).
  rewrite H0, H2, andb_true_r, andb_true_l. rewrite <- atan_1.
  unfold Rltb.
  destruct (Rlt_dec (atan m) (atan 1)) as [A | A],
           (Rlt_dec m 1) as [B | B]; try reflexivity; exfalso.
  - destruct (Req_dec m 1) as [-> | Hne]; [lra|].
    assert (1 < m) by lra.
    pose proof (atan_increasing 1 m). lra.
  - apply A. now apply atan_increasing.
Qed.

(** The run of the loop toward [(t, 0)] with every bound wide: the lower end
    stops short of the range by 1/2^32 of it. *)
Lemma unit_camera_wide_bracket t max_length :
  0 < t -> 0 < max_length ->
  SelectBracket sample_models unit_camera (0, 0) (t, 0) max_length 2 2 2
  = (std_min max_length t - (std_min max_length t - 0) / 2 ^ 32,
     std_min max_length t).
Proof.
  intros Ht Hl. unfold SelectBracket.
  rewrite x_axis_norm, x_axis_dir by lra.
  apply bisect_all_valid.
  - unfold std_min; destruct (Rlt_dec t max_length); lra.
  - intros m _. apply sample_valid_wide.
Qed.

(** The contract of C2 at a concrete input. *)
Lemma SelectPointOnRay_bisection_contract_witness :
  let range := std_min 1 (norm (vsub (1, 0) (0, 0))) in
  let dir := normalized (vsub (1, 0) (0, 0)) in
  let b := SelectBracket sample_models unit_camera (0, 0) (1, 0) 1 2 2 2 in
  let p := SelectPointOnRay sample_models unit_camera (0, 0) (1, 0) 1 2 2 2 in
  p = vadd (0, 0) (vscale dir (fst b))
  /\ (0 <= fst b /\ fst b <= snd b /\ snd b <= range)
  /\ snd b - fst b = range / 2 ^ 32
  /\ (fst b = 0 \/ PointValid sample_models unit_camera 2 2 2 p = true)
  /\ (snd b = range
      \/ m_valid sample_models unit_camera (0, 0) dir 2 2 2 (snd b) = false)
  /\ ((forall m, 0 <= m <= range ->
         m_valid sample_models unit_camera (0, 0) dir 2 2 2 m = false) ->
      p = (0, 0)).
Proof.
  apply (SelectPointOnRay_bisection_contract sample_models unit_camera
           (0, 0) (1, 0) 2 2 2 1).
  lra.
Defined.

Lemma norm_back_along_x_axis t : 0 <= t -> norm (vsub (0, 0) (t, 0)) = t.
Proof.
  intros Ht. unfold vsub, vx, vy; cbn [fst snd].
  replace (0 - 0) with 0 by ring.
  rewrite norm_x_axis. replace (0 - t) with (- t) by ring.
  rewrite Rabs_Ropp. now apply Rabs_pos_eq.
Qed.

Lemma dir_back_along_x_axis t :
  0 < t -> normalized (vsub (0, 0) (t, 0)) = (-1, 0).
Proof.
  intros Ht. unfold normalized.
  rewrite (norm_back_along_x_axis t) by lra.
  unfold vsub, squaredNorm, vx, vy; cbn [fst snd].
  destruct (Rlt_dec 0 ((0 - t) * (0 - t) + (0 - 0) * (0 - 0))) as [_ | C].
  - f_equal; field; lra.
  - exfalso; apply C; nra.
Qed.

(** From (2, 0) back toward the origin of the image, with the horizontal
    bound at 45 degrees, the unit camera accepts exactly the distances
    above 1. *)
Lemma unit_camera_valid_above_1 m :
  m_valid sample_models unit_camera (2, 0) (-1, 0) 2 (PI / 4) 2 m
  = Rltb 1 m.
Proof.
  unfold m_valid, PointValid, sample_models, ImageToWorld,
    sample_ImageToWorld, sample_focal_y, unit_camera, pinhole_camera,
    PrincipalPointX, PrincipalPointY, FocalLengthX, vadd, vscale, vx, vy.
  cbn [fst snd ModelId Params focal_x focal_y pp_x pp_y Z.eqb].
  replace ((2 + -1 * m - 0) / 1) with (2 - m) by field.
  replace ((0 + 0 * m - 0) / 1) with 0 by field.
  rewrite atan_0.
  assert (H0 : Rltb 0 2 = true) by (apply Rltb_true; lra).
  assert (H2 : Rltb (atan (norm (2 - m, 0))) 2 = true)
    by (apply Rltb_true, atan_lt_2).
  rewrite H0, H2, andb_true_r, andb_true_l. rewrite <- atan_1.
  unfold Rltb.
  destruct (Rlt_dec (atan (2 - m)) (atan 1)) as [A | A],
           (Rlt_dec 1 m) as [B | B]; try reflexivity; exfalso.
  - destruct (Req_dec (2 - m) 1) as [E | Hne]; [rewrite E in A; lra|].
    assert (1 < 2 - m) by lra.
    pose proof (atan_increasing 1 (2 - m)). lra.
  - apply A. apply atan_increasing. lra.
Qed.

(** C2 as stated fails, and by more than the resolution of the search.
    The unit camera, from (2, 0) toward the target (0, 0) with
    [max_length = 2] and the horizontal bound at 45 degrees: the target is
    on the segment, within [max_length], and passes the three tests, as does
    every point nearer to it than 1; the first midpoint (1, 0) is refused,
    so are all the later ones, and the origin (2, 0) is returned, which does
    not pass the tests itself and is at the distance 2, the whole range,
    from the farthest valid point. *)
Lemma SelectPointOnRay_misses_valid_target :
  SelectPointOnRay sample_models unit_camera (2, 0) (0, 0) 2 2 (PI / 4) 2
  = (2, 0)
  /\ PointValid sample_models unit_camera 2 (PI / 4) 2 (2, 0) = false
  /\ Spec_FarthestValidPoint sample_models unit_camera (2, 0) (0, 0) 2
       2 (PI / 4) 2 (0, 0)
  /\ ~ Spec_FarthestValidPoint sample_models unit_camera (2, 0) (0, 0) 2
         2 (PI / 4) 2
         (SelectPointOnRay sample_models unit_camera (2, 0) (0, 0) 2
            2 (PI / 4) 2).
Proof.
  assert (Hret : SelectPointOnRay sample_models unit_camera (2, 0) (0, 0) 2
                   2 (PI / 4) 2 = (2, 0)).
  { unfold SelectPointOnRay, SelectBracket.
    rewrite norm_back_along_x_axis, dir_back_along_x_axis by lra.
    replace (std_min 2 2) with 2
      by (unfold std_min; destruct (Rlt_dec 2 2); lra).
    rewrite (bisect_lower_half_refused _ 32 2).
    - unfold vadd, vscale, vx, vy; cbn [fst snd]. f_equal; ring.
    - lra.
    - intros m [_ Hm]. rewrite unit_camera_valid_above_1.
      apply Rltb_false. lra. }
  assert (Hat : forall m,
            PointValid sample_models unit_camera 2 (PI / 4) 2
              (vadd (2, 0) (vscale (-1, 0) m)) = Rltb 1 m)
    by (intros m; apply (unit_camera_valid_above_1 m)).
  assert (Horigin : PointValid sample_models unit_camera 2 (PI / 4) 2 (2, 0)
                    = false).
  { replace ((2, 0) : Vector2d) with (vadd (2, 0) (vscale (-1, 0) 0))
      by (unfold vadd, vscale, vx, vy; cbn [fst snd]; f_equal; ring).
    rewrite Hat. apply Rltb_false. lra. }
  assert (Htarget : PointValid sample_models unit_camera 2 (PI / 4) 2 (0, 0)
                    = true).
  { replace ((0, 0) : Vector2d) with (vadd (2, 0) (vscale (-1, 0) 2))
      by (unfold vadd, vscale, vx, vy; cbn [fst snd]; f_equal; ring).
    rewrite Hat. apply Rltb_true. lra. }
  assert (Hseg : OnClippedSegment (2, 0) (0, 0) 2 (0, 0)).
  { exists 2.
    rewrite norm_back_along_x_axis, dir_back_along_x_axis by lra. split.
    - unfold std_min. destruct (Rlt_dec 2 2); lra.
    - unfold vadd, vscale, vx, vy; cbn [fst snd]. f_equal; ring. }
  split; [exact Hret|]. split; [exact Horigin|]. split.
  - split; [exact Hseg|]. split; [exact Htarget|].
    intros q (m & [Hm0 Hm2] & ->) _.
    rewrite (norm_back_along_x_axis 2) in Hm2 by lra.
    assert (Hm : m <= 2).
    { revert Hm2. unfold std_min. destruct (Rlt_dec 2 2); lra. }
    rewrite (dir_back_along_x_axis 2) by lra.
    rewrite vsub_vadd, norm_vscale, (norm_back_along_x_axis 2) by lra.
    replace (norm (-1, 0)) with 1.
    2:{ rewrite norm_x_axis. replace (-1) with (- (1)) by ring.
        rewrite Rabs_Ropp, Rabs_pos_eq; lra. }
    rewrite Rabs_pos_eq by lra. lra.
  - rewrite Hret. intros (_ & Hvalid & _). congruence.
Qed.

(** The guarantee of C10 at a concrete input, with the three bounds wide
    (the angle tests pass everywhere, so they are downward closed). *)
Lemma SelectPointOnRay_segment_and_resolution_witness :
  OnClippedSegment (0, 0) (2, 0) 2
    (SelectPointOnRay sample_models unit_camera (0, 0) (2, 0) 2 2 2 2)
  /\ SelectedDistance sample_models unit_camera (0, 0) (2, 0) 2 2 2 2 <= 2
  /\ SelectedDistance sample_models unit_camera (0, 0) (2, 0) 1 2 2 2
     <= SelectedDistance sample_models unit_camera (0, 0) (2, 0) 2 2 2 2
        + std_min 2 (norm (vsub (2, 0) (0, 0))) / 2 ^ 32.
Proof.
  destruct (SelectPointOnRay_segment_and_resolution sample_models
              unit_camera (0, 0) (2, 0) 2 2 2 1 2) as (A & B & C).
  - lra.
  - split; [exact A | split; [exact B | apply C]].
    intros m m' _ _. apply sample_valid_wide.
Defined.

(** C10 as stated fails.  With the horizontal bound at 45 degrees the unit
    camera accepts the distances below 1: for [max_length = 1] the loop ends
    at 1 - 1/2^32, for [max_length = 2] its first midpoint 1 is refused and
    it ends at 1 - 1/2^31, which is smaller.  And for a negative
    [max_length] no point of the ray is within [max_length] of the origin. *)
Lemma SelectPointOnRay_not_monotone :
  SelectedDistance sample_models unit_camera (0, 0) (2, 0) 2 2 (PI / 4) 2
  < SelectedDistance sample_models unit_camera (0, 0) (2, 0) 1 2 (PI / 4) 2
  /\ ~ OnClippedSegment (0, 0) (2, 0) (-1)
         (SelectPointOnRay sample_models unit_camera (0, 0) (2, 0) (-1)
            2 (PI / 4) 2).
Proof.
  split.
  - rewrite !SelectedDistance_bracket by lra. unfold SelectBracket.
    rewrite x_axis_norm, x_axis_dir by lra.
    set (valid := m_valid sample_models unit_camera (0, 0) (1, 0)
                    2 (PI / 4) 2).
    assert (Hv : forall m, 0 <= m -> valid m = Rltb m 1)
      by (intros m Hm; now apply unit_camera_valid_below_1).
    assert (Hbelow : forall m, 0 < m < 1 -> valid m = true)
      by (intros m Hm; rewrite Hv by lra; apply Rltb_true; lra).
    replace (std_min 1 2) with 1
      by (unfold std_min; destruct (Rlt_dec 2 1); lra).
    replace (std_min 2 2) with 2
      by (unfold std_min; destruct (Rlt_dec 2 2); lra).
    rewrite (bisect_all_valid valid 32 0 1) by (lra || exact Hbelow).
    rewrite (bisect_S valid 31 0 2).
    replace ((2 + 0) / 2) with 1 by field.
    rewrite (Hv 1) by lra.
    replace (Rltb 1 1) with false by (symmetry; apply Rltb_false; lra).
    rewrite (bisect_all_valid valid 31 0 1) by (lra || exact Hbelow).
    cbn [fst].
    change (2 ^ 32) with (2 * 2 ^ 31).
    pose proof (pow2_pos 31) as Hp.
    assert (Hq : (1 - 0) / (2 * 2 ^ 31) = (1 - 0) / 2 ^ 31 / 2)
      by (field; lra).
    assert (0 < (1 - 0) / 2 ^ 31) by (apply Rdiv_lt_0_compat; lra).
    rewrite Hq. lra.
  - intros (m & [H0 Hm] & _).
    pose proof (std_min_l (-1) (norm (vsub (2, 0) (0, 0)))). lra.
Qed.

(** The loss is not one of rounding only: with the same tests (the distances
    below 1 pass) and the target at 2^33, [max_length = 2^33] makes every
    midpoint at least 2 and the origin is returned, where [max_length = 1]
    gives the distance 1 - 1/2^32. *)
Lemma SelectPointOnRay_long_range_returns_origin :
  SelectedDistance sample_models unit_camera (0, 0) (2 ^ 33, 0) (2 ^ 33)
    2 (PI / 4) 2 = 0
  /\ SelectedDistance sample_models unit_camera (0, 0) (2 ^ 33, 0) 1
       2 (PI / 4) 2 = 1 - 1 / 2 ^ 32.
Proof.
  pose proof (pow2_pos 33) as Hp. pose proof (pow2_pos 32) as Hq.
  assert (H1 : 1 <= 2 ^ 33) by (apply pow_R1_Rle; lra).
  rewrite !SelectedDistance_bracket by lra. unfold SelectBracket.
  rewrite x_axis_norm, x_axis_dir by lra.
  set (valid := m_valid sample_models unit_camera (0, 0) (1, 0)
                  2 (PI / 4) 2).
  assert (Hv : forall m, 0 <= m -> valid m = Rltb m 1)
    by (intros m Hm; now apply unit_camera_valid_below_1).
  replace (std_min (2 ^ 33) (2 ^ 33)) with (2 ^ 33)
    by (unfold std_min; destruct (Rlt_dec (2 ^ 33) (2 ^ 33)); lra).
  replace (std_min 1 (2 ^ 33)) with 1
    by (unfold std_min; destruct (Rlt_dec (2 ^ 33) 1); lra).
  split.
  - apply bisect_from_0_refused; [lra|].
    replace (2 ^ 33 / 2 ^ 32) with 2
      by (change (2 ^ 33) with (2 * 2 ^ 32); field; lra).
    intros m Hm. rewrite Hv by lra. apply Rltb_false. lra.
  - rewrite (bisect_all_valid valid 32 0 1); [cbn [fst]; field; lra | lra |].
    intros m Hm. rewrite Hv by lra. apply Rltb_true. lra.
Qed.

(** ** [UndistortCamera]: options, kind and size of the result *)

Lemma to_size_t_ge_1 x : 1 <= x -> (1 <= to_size_t x)%Z.
Proof.
  intros Hx. unfold to_size_t.
  destruct (base_Int_part x) as [_ Hgt].
  assert (H0 : IZR 0 < IZR (Int_part x)) by lra.
  apply lt_IZR in H0. lia.
Qed.

Lemma CheckOptions_max_image_size_0 options :
  max_image_size options = 0%Z -> CheckOptions options = false.
Proof.
  intros H. unfold CheckOptions. rewrite H.
  change (negb (0 =? 0)%Z) with false.
  now rewrite andb_false_r.
Qed.

Lemma sample_options_with_ok max_size override params estimate :
  max_size <> 0%Z ->
  CheckOptions (sample_options_with max_size override params estimate)
  = true.
Proof.
  intros H. unfold CheckOptions, sample_options_with.
  cbn [blank_pixels min_scale max_scale max_image_size max_fov
       max_horizontal_fov max_vertical_fov].
  rewrite !andb_true_iff, negb_true_iff, Z.eqb_neq, !Rleb_true, !Rltb_true.
  repeat split; try lra; assumption.
Qed.

Lemma sample_options_ok max_size estimate :
  max_size <> 0%Z -> CheckOptions (sample_options max_size estimate) = true.
Proof. apply sample_options_with_ok. Qed.

(** With a negative size the entry checks are those of the other fields. *)
Lemma CheckOptions_negative_size options :
  (max_image_size options < 0)%Z ->
  CheckOptions options = true
  <-> (0 <= blank_pixels options <= 1
       /\ 0 < min_scale options <= max_scale options
       /\ 0 < max_fov options < 180
       /\ 0 < max_vertical_fov options <= 180
       /\ 0 < max_horizontal_fov options <= 180).
Proof.
  intros Hneg. unfold CheckOptions.
  replace (max_image_size options =? 0)%Z with false
    by (symmetry; apply Z.eqb_neq; lia).
  cbn [negb]. rewrite !andb_true_iff, !Rleb_true, !Rltb_true.
  split.
  - intros H. decompose [and] H. repeat split; assumption.
  - intros H. decompose [and] H. repeat split; assumption.
Qed.

(** With a negative size the cap of lines 899-911 is the identity. *)
Lemma LimitImageSize_unbounded_fun M options :
  (max_image_size options < 0)%Z ->
  LimitImageSize M options = fun uc => uc.
Proof.
  intros H. unfold LimitImageSize.
  now replace (0 <? max_image_size options)%Z with false
    by (symmetry; apply Z.ltb_ge; lia).
Qed.

(** With a negative size [UndistortCamera] does not depend on
    [Camera::Rescale]: it is not called. *)
Lemma UndistortCamera_without_Rescale M options camera rescale :
  (max_image_size options < 0)%Z ->
  UndistortCamera (WithRescale rescale M) options camera
  = UndistortCamera M options camera.
Proof.
  intros Hneg. unfold UndistortCamera.
  rewrite !LimitImageSize_unbounded_fun by assumption.
  destruct M as [sp ph names fidx pidx i2w w2i parse verify resc].
  cbv beta iota delta
    [WithRescale SimplePinhole_model_id Pinhole_model_id CameraModelNameToId
     FocalLengthIdxs PrincipalPointIdxs ImageToWorld WorldToImage
     ParamsFromString VerifyParams Rescale
     SetParamsFromString PointValid m_valid SelectBracket SelectPointOnRay
     InitialCamera OverrideCamera ValidDomain RadiusMarch MarchFromCorner
     CornerPairCandidate CornerPairFocal FocalHorizontalFov FocalVerticalFov
     EstimateFocal SetFocalLengths UndistortBorderPoint RowBorders
     ColumnBorders ScaleToAvoidBlankPixels IsPinholeFamily].
  lazymatch goal with |- ?a = ?b => constr_eq a b end.
  reflexivity.
Qed.

Section UndistortProperties.

Variable M : CameraModels.

Lemma LimitImageSize_unbounded options uc :
  (max_image_size options < 0)%Z -> LimitImageSize M options uc = uc.
Proof.
  intros H. unfold LimitImageSize.
  now replace (0 <? max_image_size options)%Z with false
    by (symmetry; apply Z.ltb_ge; lia).
Qed.

Lemma LimitImageSize_fits options uc :
  (0 < Width uc <= max_image_size options)%Z ->
  (0 < Height uc <= max_image_size options)%Z ->
  LimitImageSize M options uc = uc.
Proof.
  intros [Hw0 Hw] [Hh0 Hh]. unfold LimitImageSize.
  destruct (0 <? max_image_size options)%Z; [|reflexivity].
  apply IZR_lt in Hw0, Hh0. apply IZR_le in Hw, Hh.
  assert (Hdiv : forall a b, 0 < b -> b <= a -> 1 <= a / b).
  { intros a b Hb Hab.
    apply (Rmult_le_reg_r b); [assumption|].
    replace (a / b * b) with a by (field; lra). lra. }
  assert (Hx : 1 <= IZR (max_image_size options) / IZR (Width uc))
    by (now apply Hdiv).
  assert (Hy : 1 <= IZR (max_image_size options) / IZR (Height uc))
    by (now apply Hdiv).
  pose proof (std_min_glb _ _ 1 Hx Hy) as Hmin.
  destruct (Rlt_dec _ 1); [lra | reflexivity].
Qed.

(** The kind and the size after the scale step. *)
Lemma ApplyScale_shape camera scale_x scale_y uc :
  ModelId (ApplyScale camera scale_x scale_y uc) = ModelId uc
  /\ Width (ApplyScale camera scale_x scale_y uc)
     = to_size_t (std_max 1 (scale_x * IZR (Width uc)))
  /\ Height (ApplyScale camera scale_x scale_y uc)
     = to_size_t (std_max 1 (scale_y * IZR (Height uc))).
Proof. repeat split. Qed.

(** C8 (as amended): with no override configured, the flag off and no size
    cap that applies, a camera of a pinhole kind (one or two focal lengths)
    comes back with its width, height, focal lengths and principal point,
    as a PINHOLE camera. *)
Theorem UndistortCamera_pinhole_unchanged options camera :
  CheckOptions options = true ->
  camera_model_override options = EmptyString ->
  estimate_focal_length_from_fov options = false ->
  IsPinholeFamily M camera = true ->
  (List.length (FocalLengthIdxs M (ModelId camera)) = 1
   \/ List.length (FocalLengthIdxs M (ModelId camera)) = 2)%nat ->
  ((max_image_size options < 0)%Z
   \/ (0 < Width camera <= max_image_size options)%Z
      /\ (0 < Height camera <= max_image_size options)%Z) ->
  exists uc,
    UndistortCamera M options camera = Some uc
    /\ ModelId uc = Pinhole_model_id M
    /\ Width uc = Width camera /\ Height uc = Height camera
    /\ FocalLengthX uc = FocalLengthX camera
    /\ FocalLengthY uc
       = (if (List.length (FocalLengthIdxs M (ModelId camera)) =? 1)%nat
          then FocalLength camera else FocalLengthY camera)
    /\ PrincipalPointX uc = PrincipalPointX camera
    /\ PrincipalPointY uc = PrincipalPointY camera.
Proof.
  intros Hcheck Hover Hest Hpin Hidx Hcap.
  unfold UndistortCamera. rewrite Hcheck, Hover.
  change (0 <? String.length EmptyString)%nat with false. cbv iota.
  destruct (ValidDomain M options camera) as [[pp half] radius].
  unfold SetFocalLengths. rewrite Hest, Hpin. cbn [negb].
  set (out := fun fy : R =>
         SetPrincipalPointY (PrincipalPointY camera)
           (SetPrincipalPointX (PrincipalPointX camera)
              (SetFocalLengthY fy
                 (SetFocalLengthX (FocalLengthX camera)
                    (InitialCamera M camera))))).
  assert (Hlim : forall fy, LimitImageSize M options (out fy) = out fy).
  { intros fy. destruct Hcap as [Hneg | [Hw Hh]].
    - now apply LimitImageSize_unbounded.
    - now apply LimitImageSize_fits. }
  destruct Hidx as [H1 | H2].
  - rewrite H1. cbn [Nat.leb Nat.eqb].
    exists (out (FocalLength camera)). split.
    + unfold FocalLength at 2. fold (FocalLengthX camera).
      fold (out (FocalLength camera)). now rewrite Hlim.
    + repeat split.
  - rewrite H2. cbn [Nat.leb Nat.eqb].
    exists (out (FocalLengthY camera)). split.
    + fold (out (FocalLengthY camera)). now rewrite Hlim.
    + repeat split.
Qed.

(** C6 (as amended).  With an override configured the result has the kind
    the override names and the width and height of the source.  With none,
    the result is a PINHOLE camera ([Rescale] keeping the kind), and it is
    what the size cap makes of a camera whose width and height are at least
    1 (the source's being at least 1); so they are at least 1 in the result
    when the size is unbounded. *)
Theorem UndistortCamera_kind_and_size options camera uc :
  UndistortCamera M options camera = Some uc ->
  (forall s c, ModelId (Rescale M s c) = ModelId c) ->
  (1 <= Width camera)%Z -> (1 <= Height camera)%Z ->
  (camera_model_override options <> EmptyString ->
   ModelId uc = CameraModelNameToId M (camera_model_override options)
   /\ Width uc = Width camera /\ Height uc = Height camera)
  /\ (camera_model_override options = EmptyString ->
      ModelId uc = Pinhole_model_id M
      /\ (exists uc0,
            uc = LimitImageSize M options uc0
            /\ (1 <= Width uc0)%Z /\ (1 <= Height uc0)%Z)
      /\ ((max_image_size options < 0)%Z ->
          (1 <= Width uc)%Z /\ (1 <= Height uc)%Z)).
Proof.
  intros Hrun Hkind Hw Hh. unfold UndistortCamera in Hrun.
  destruct (CheckOptions options); [|discriminate].
  split.
  - intros Hover.
    destruct (camera_model_override options) as [|ch rest] eqn:E;
      [contradiction|].
    change (0 <? String.length (String ch rest))%nat with true in Hrun.
    cbv iota in Hrun. unfold OverrideCamera in Hrun.
    destruct (VerifyParams M _); [|discriminate].
    injection Hrun as <-. rewrite E. repeat split.
  - intros Hover. rewrite Hover in Hrun.
    change (0 <? String.length EmptyString)%nat with false in Hrun.
    cbv iota in Hrun.
    destruct (ValidDomain M options camera) as [[pp half] radius].
    destruct (SetFocalLengths M options camera pp half radius
                (InitialCamera M camera)) as [uc1|] eqn:Efocal;
      [|discriminate].
    assert (Hshape : ModelId uc1 = Pinhole_model_id M
                     /\ Width uc1 = Width camera
                     /\ Height uc1 = Height camera).
    { unfold SetFocalLengths in Efocal.
      destruct (estimate_focal_length_from_fov options).
      - injection Efocal as <-. repeat split.
      - destruct (List.length _ <=? 2)%nat; [|discriminate].
        destruct (List.length _ =? 1)%nat;
          [|destruct (List.length _ =? 2)%nat];
          injection Efocal as <-; repeat split. }
    destruct Hshape as (Hid & Hw1 & Hh1).
    injection Hrun as Hrun.
    match type of Hrun with LimitImageSize M options ?c = _ =>
      set (uc0 := c) in * end.
    assert (H0 : ModelId uc0 = Pinhole_model_id M
                 /\ (1 <= Width uc0)%Z /\ (1 <= Height uc0)%Z).
    { unfold uc0. destruct (negb (IsPinholeFamily M camera)).
      - unfold ScaleToAvoidBlankPixels.
        repeat split.
        + exact Hid.
        + apply to_size_t_ge_1, std_max_l.
        + apply to_size_t_ge_1, std_max_l.
      - repeat split; [exact Hid | cbn; lia | cbn; lia]. }
    clearbody uc0. destruct H0 as (Hid0 & Hw0 & Hh0).
    split; [|split].
    + rewrite <- Hrun. unfold LimitImageSize.
      destruct (0 <? max_image_size options)%Z; [|exact Hid0].
      destruct (Rlt_dec _ 1); [now rewrite Hkind | exact Hid0].
    + exists uc0. now rewrite Hrun.
    + intros Hneg. rewrite <- Hrun, LimitImageSize_unbounded by assumption.
      now split.
Qed.

(** With valid options, no override, and at most two focal lengths when
    they are copied, [UndistortCamera] returns a camera. *)
Lemma UndistortCamera_returns options camera :
  CheckOptions options = true ->
  camera_model_override options = EmptyString ->
  (estimate_focal_length_from_fov options = true
   \/ (List.length (FocalLengthIdxs M (ModelId camera)) <= 2)%nat) ->
  exists uc, UndistortCamera M options camera = Some uc.
Proof.
  intros Hcheck Hover Hfocal. unfold UndistortCamera.
  rewrite Hcheck, Hover.
  change (0 <? String.length EmptyString)%nat with false. cbv iota.
  destruct (ValidDomain M options camera) as [[pp half] radius].
  unfold SetFocalLengths.
  destruct (estimate_focal_length_from_fov options).
  - eexists; reflexivity.
  - destruct Hfocal as [Hf | Hf]; [discriminate|].
    apply Nat.leb_le in Hf. rewrite Hf.
    destruct (List.length _ =? 1)%nat;
      [|destruct (List.length _ =? 2)%nat]; eexists; reflexivity.
Qed.

(** C7 (as amended): a maximum output dimension of 0 is refused by the
    [CHECK_NE] at the entry, for every camera.  A negative one is accepted:
    the entry checks pass exactly when the other fields pass theirs, and the
    function returns a camera whenever no later [CHECK] fails (no override
    and the focal lengths estimated or at most two).  And it is the
    unbounded setting: the result does not depend on [Camera::Rescale],
    which the size cap alone calls, and the cap leaves every camera as it
    is. *)
Theorem UndistortCamera_max_image_size options camera :
  (max_image_size options = 0%Z -> UndistortCamera M options camera = None)
  /\ ((max_image_size options < 0)%Z ->
      (CheckOptions options = true
       <-> (0 <= blank_pixels options <= 1
            /\ 0 < min_scale options <= max_scale options
            /\ 0 < max_fov options < 180
            /\ 0 < max_vertical_fov options <= 180
            /\ 0 < max_horizontal_fov options <= 180))
      /\ (CheckOptions options = true ->
          camera_model_override options = EmptyString ->
          (estimate_focal_length_from_fov options = true
           \/ (List.length (FocalLengthIdxs M (ModelId camera)) <= 2)%nat) ->
          exists uc, UndistortCamera M options camera = Some uc)
      /\ (forall rescale,
            UndistortCamera (WithRescale rescale M) options camera
            = UndistortCamera M options camera)
      /\ (forall uc, LimitImageSize M options uc = uc)).
Proof.
  split.
  - intros H. unfold UndistortCamera.
    now rewrite (CheckOptions_max_image_size_0 options H).
  - intros H. split; [now apply CheckOptions_negative_size|].
    split; [apply UndistortCamera_returns|].
    split.
    + intros rescale. now apply UndistortCamera_without_Rescale.
    + intros uc. now apply LimitImageSize_unbounded.
Qed.

Lemma Clip_bounds value low high :
  low <= high -> low <= Clip value low high <= high.
Proof.
  intros H. unfold Clip, std_max, std_min.
  destruct (Rlt_dec high value); destruct (Rlt_dec low _); lra.
Qed.

Lemma AppliedScale_bounds options c size extrema :
  min_scale options <= max_scale options ->
  min_scale options <= AppliedScale options c size extrema
                    <= max_scale options.
Proof.
  intros H. destruct extrema as [[[a b] d] e]. unfold AppliedScale.
  now apply Clip_bounds.
Qed.

(** C9 (as amended): the scale step sets the width and the height to the
    floor of the old ones times a per-axis scale (at least 1 pixel); that
    scale is the reciprocal of the interpolation, weighted by the blank-pixel
    fraction, between the "no missing pixels" and the "no blank pixels"
    scales of the four extrema of the axis, clipped; and it lies between
    [min_scale] and [max_scale]. *)
Theorem ScaleToAvoidBlankPixels_applied_scale options camera
    principal_point max_valid_fov_half max_valid_radius uc :
  min_scale options <= max_scale options ->
  let rows :=
    RowBorders M camera uc principal_point max_valid_radius
      max_valid_fov_half (DegToRad (max_horizontal_fov options))
      (DegToRad (max_vertical_fov options)) in
  let cols :=
    ColumnBorders M camera uc principal_point max_valid_radius
      max_valid_fov_half (DegToRad (max_horizontal_fov options))
      (DegToRad (max_vertical_fov options)) in
  let scale_x :=
    AppliedScale options (PrincipalPointX uc) (Width camera) rows in
  let scale_y :=
    AppliedScale options (PrincipalPointY uc) (Height camera) cols in
  let out :=
    ScaleToAvoidBlankPixels M options camera principal_point
      max_valid_fov_half max_valid_radius uc in
  Width out = to_size_t (std_max 1 (scale_x * IZR (Width uc)))
  /\ Height out = to_size_t (std_max 1 (scale_y * IZR (Height uc)))
  /\ (forall c size near_min near_max far_min far_max,
        AppliedScale options c size (near_min, near_max, far_min, far_max)
        = Clip (1 / (NoMissingPixelsScale c size near_min far_max
                       * blank_pixels options
                     + NoBlankPixelsScale c size near_max far_min
                       * (1 - blank_pixels options)))
               (min_scale options) (max_scale options))
  /\ min_scale options <= scale_x <= max_scale options
  /\ min_scale options <= scale_y <= max_scale options.
Proof.
  intros H rows cols scale_x scale_y out.
  split; [reflexivity|]. split; [reflexivity|]. split.
  - intros c size a b d e. reflexivity.
  - split; now apply AppliedScale_bounds.
Qed.

End UndistortProperties.

(** ** [UndistortCamera] on the sample layer *)

Lemma sample_Rescale_kind s c : ModelId (Rescale sample_models s c) = ModelId c.
Proof. reflexivity. Qed.

(** C7 as stated fails: the scenario's configuration with a maximum output
    dimension of 0 ends in the failed [CHECK]. *)
Lemma UndistortCamera_rejects_max_image_size_0 :
  UndistortCamera sample_models (sample_options 0 false)
    vga_camera = None.
Proof.
  unfold UndistortCamera.
  rewrite (CheckOptions_max_image_size_0 (sample_options 0 false));
    reflexivity.
Qed.

(** The statement of C7 at the size -1, for the 640x480 camera with
    distortion. *)
Lemma UndistortCamera_max_image_size_witness :
  exists uc,
    UndistortCamera sample_models (sample_options (-1) false) opencv_camera
    = Some uc
    /\ forall rescale,
         UndistortCamera (WithRescale rescale sample_models)
           (sample_options (-1) false) opencv_camera
         = Some uc.
Proof.
  destruct (UndistortCamera_max_image_size sample_models
              (sample_options (-1) false) opencv_camera)
    as (_ & Hneg).
  destruct Hneg as (Hcheck & Hreturns & Hrescale & _); [cbn; lia|].
  destruct Hreturns as [uc Hrun].
  - apply Hcheck. cbn. repeat split; lra.
  - reflexivity.
  - right. cbn. lia.
  - exists uc. split; [exact Hrun|].
    intros rescale. rewrite Hrescale. exact Hrun.
Defined.

(** The statement of C8 at the 640x480 pinhole camera. *)
Lemma UndistortCamera_pinhole_unchanged_witness :
  exists uc,
    UndistortCamera sample_models (sample_options (-1) false)
      vga_camera = Some uc
    /\ ModelId uc = 1%Z
    /\ Width uc = 640%Z /\ Height uc = 480%Z
    /\ FocalLengthX uc = 500
    /\ FocalLengthY uc = 500
    /\ PrincipalPointX uc = 320
    /\ PrincipalPointY uc = 240.
Proof.
  apply (UndistortCamera_pinhole_unchanged sample_models
           (sample_options (-1) false) vga_camera).
  - apply sample_options_ok; lia.
  - reflexivity.
  - reflexivity.
  - reflexivity.
  - right; reflexivity.
  - left; reflexivity.
Defined.

(** C8 as stated fails: the configuration is valid, the flag is off, the
    size is unbounded and the camera is a PINHOLE camera with focal length
    500, but an override is configured and the result has the focal length
    of the override's parameters. *)
Lemma UndistortCamera_override_changes_pinhole :
  CheckOptions (sample_options_with (-1) "PINHOLE" "1,1,0,0" false) = true
  /\ IsPinholeFamily sample_models vga_camera = true
  /\ exists uc,
       UndistortCamera sample_models
         (sample_options_with (-1) "PINHOLE" "1,1,0,0" false) vga_camera
       = Some uc
       /\ FocalLengthX vga_camera = 500
       /\ FocalLengthX uc = 1.
Proof.
  split; [apply sample_options_with_ok; lia|].
  split; [reflexivity|].
  unfold UndistortCamera. rewrite sample_options_with_ok by lia.
  eexists. split; [reflexivity|]. split; reflexivity.
Qed.

(** C6 as stated fails: with the override OPENCV the result is of the kind
    OPENCV, which is none of the two pinhole kinds. *)
Lemma UndistortCamera_override_not_pinhole :
  exists uc,
    UndistortCamera sample_models
      (sample_options_with (-1) "OPENCV" "500,500,320,240,0.1,0,0,0" false)
      vga_camera = Some uc
    /\ ModelId uc = 4%Z
    /\ IsPinholeFamily sample_models uc = false.
Proof.
  unfold UndistortCamera. rewrite sample_options_with_ok by lia.
  eexists. split; [reflexivity|]. split; reflexivity.
Qed.

(** The statement of C6 at a camera with distortion, without override. *)
Lemma UndistortCamera_kind_and_size_witness :
  exists uc,
    UndistortCamera sample_models (sample_options (-1) false)
      opencv_camera = Some uc
    /\ ModelId uc = 1%Z /\ (1 <= Width uc)%Z /\ (1 <= Height uc)%Z.
Proof.
  destruct (UndistortCamera_returns sample_models
              (sample_options (-1) false) opencv_camera)
    as [uc Hrun].
  - apply sample_options_ok; lia.
  - reflexivity.
  - right. cbn. lia.
  - exists uc. split; [exact Hrun|].
    destruct (UndistortCamera_kind_and_size sample_models
                (sample_options (-1) false) opencv_camera uc
                Hrun sample_Rescale_kind)
      as [_ Hnone]; [cbn; lia | cbn; lia |].
    destruct (Hnone eq_refl) as (Hid & _ & Hsize).
    split; [exact Hid | apply Hsize; reflexivity].
Defined.

(** The statement of C9 at the scenario's configuration. *)
Lemma ScaleToAvoidBlankPixels_applied_scale_witness :
  let options := sample_options (-1) false in
  let uc := vga_camera in
  let rows :=
    RowBorders sample_models opencv_camera uc (320, 240) 800 (PI / 4)
      (DegToRad 100) (DegToRad 100) in
  let scale_x := AppliedScale options 320 640 rows in
  0.5 <= scale_x <= 2.
Proof.
  intros options uc rows scale_x.
  destruct (ScaleToAvoidBlankPixels_applied_scale sample_models options
              opencv_camera (320, 240) (PI / 4) 800 uc)
    as (_ & _ & _ & Hx & _).
  - cbn. lra.
  - exact Hx.
Defined.

(** C9 as stated fails: with both scales of an axis at 1.25 the
    interpolation is 1.25, inside the clipping bounds, and the scale that is
    applied is its reciprocal 0.8. *)
Lemma AppliedScale_is_not_the_interpolation :
  let options := sample_options (-1) false in
  Spec_AppliedScale options
    (NoMissingPixelsScale 5 10 1 8.6) (NoBlankPixelsScale 5 10 1 8.6)
  = 1.25
  /\ AppliedScale options 5 10 (1, 1, 8.6, 8.6) = 0.8
  /\ AppliedScale options 5 10 (1, 1, 8.6, 8.6)
     <> Spec_AppliedScale options
          (NoMissingPixelsScale 5 10 1 8.6) (NoBlankPixelsScale 5 10 1 8.6).
Proof.
  assert (A : 5 / (5 - 1) = 1.25) by lra.
  assert (B : (10 - 0.5 - 5) / (8.6 - 5) = 1.25) by lra.
  assert (Hmin : NoMissingPixelsScale 5 10 1 8.6 = 1.25).
  { unfold NoMissingPixelsScale. rewrite A, B.
    unfold std_min. destruct (Rlt_dec 1.25 1.25); lra. }
  assert (Hmax : NoBlankPixelsScale 5 10 1 8.6 = 1.25).
  { unfold NoBlankPixelsScale. rewrite A, B.
    unfold std_max. destruct (Rlt_dec 1.25 1.25); lra. }
  cbv zeta.
  assert (Hspec : Spec_AppliedScale (sample_options (-1) false)
                    (NoMissingPixelsScale 5 10 1 8.6)
                    (NoBlankPixelsScale 5 10 1 8.6) = 1.25).
  { rewrite Hmin, Hmax. unfold Spec_AppliedScale, Clip, sample_options, sample_options_with.
    cbn [blank_pixels min_scale max_scale].
    unfold std_min, std_max.
    destruct (Rlt_dec 2 _); destruct (Rlt_dec 0.5 _); lra. }
  assert (Hcode : AppliedScale (sample_options (-1) false) 5 10
                    (1, 1, 8.6, 8.6) = 0.8).
  { unfold AppliedScale. rewrite Hmin, Hmax.
    unfold InterpolateScale, Clip, sample_options, sample_options_with.
    cbn [blank_pixels min_scale max_scale].
    replace (1 / (1.25 * 0.5 + 1.25 * (1 - 0.5))) with 0.8 by lra.
    unfold std_min, std_max.
    destruct (Rlt_dec 2 0.8); destruct (Rlt_dec 0.5 _); lra. }
  split; [exact Hspec|]. split; [exact Hcode|].
  rewrite Hspec, Hcode. lra.
Qed.

(** ** The valid domain and the focal length from the field of view *)

Lemma RadiusMarch_S M camera pp corner_dir max_radius max_fov k i half radius :
  RadiusMarch M camera pp corner_dir max_radius max_fov (S k) i half radius
  = if Rlt_dec (IZR i) max_radius then
      let phi :=
        atan (norm (ImageToWorld M camera
                      (vadd (vscale corner_dir (IZR i)) pp))) in
      if Rleb phi half || Rltb max_fov (2 * phi) then (half, radius)
      else RadiusMarch M camera pp corner_dir max_radius max_fov k (i + 1)
             phi (IZR i)
    else (half, radius).
Proof. reflexivity. Qed.

(** The march ends by its own tests: once [i + fuel] has reached
    [max_radius], more fuel changes nothing. *)
Lemma RadiusMarch_fuel_enough M camera pp corner_dir max_radius max_fov extra :
  forall fuel i half radius,
    max_radius <= IZR (i + Z.of_nat fuel) ->
    RadiusMarch M camera pp corner_dir max_radius max_fov (fuel + extra) i
      half radius
    = RadiusMarch M camera pp corner_dir max_radius max_fov fuel i
        half radius.
Proof.
  induction fuel as [|k IH]; intros i half radius Hi.
  - rewrite Z.add_0_r in Hi. destruct extra as [|e]; [reflexivity|].
    cbn [Nat.add]. rewrite RadiusMarch_S.
    destruct (Rlt_dec (IZR i) max_radius); [lra | reflexivity].
  - cbn [Nat.add]. rewrite !RadiusMarch_S.
    destruct (Rlt_dec (IZR i) max_radius); [|reflexivity].
    cbv zeta. destruct (_ || _); [reflexivity|].
    apply IH. replace (i + 1 + Z.of_nat k)%Z with (i + Z.of_nat (S k))%Z by lia.
    exact Hi.
Qed.

(** [march_fuel] is enough for the march from [i = 1]. *)
Lemma march_fuel_enough max_radius :
  max_radius <= IZR (1 + Z.of_nat (march_fuel max_radius)).
Proof.
  unfold march_fuel. destruct (archimed max_radius) as [Hup _].
  destruct (Z.le_gt_cases 0 (up max_radius)) as [Hpos | Hneg].
  - rewrite Z2Nat.id by assumption. rewrite plus_IZR. lra.
  - replace (Z.to_nat (up max_radius)) with 0%nat by lia.
    apply IZR_lt in Hneg. cbn. lra.
Qed.

(** So the march of [MarchFromCorner] is the loop of the code: no amount of
    further fuel changes its result. *)
Lemma MarchFromCorner_fuel M camera principal_point max_fov extra :
  let far := FarthestCorner (corners camera) principal_point in
  RadiusMarch M camera principal_point (snd far) (fst far) max_fov
    (march_fuel (fst far) + extra) 1 0 (norm (image_size camera))
  = MarchFromCorner M camera principal_point max_fov.
Proof.
  intros far. unfold MarchFromCorner. fold far.
  apply RadiusMarch_fuel_enough, march_fuel_enough.
Qed.

Lemma norm_3_4 : norm (vsub (3, 4) (0, 0)) = 5.
Proof.
  unfold norm, squaredNorm, vsub, vx, vy; cbn [fst snd].
  replace ((3 - 0) * (3 - 0) + (4 - 0) * (4 - 0)) with (5 * 5) by ring.
  apply sqrt_square; lra.
Qed.

Lemma norm_0_3 : norm (vsub (0, 3) (0, 0)) = 3.
Proof.
  unfold norm, squaredNorm, vsub, vx, vy; cbn [fst snd].
  replace ((0 - 0) * (0 - 0) + (3 - 0) * (3 - 0)) with (3 * 3) by ring.
  apply sqrt_square; lra.
Qed.

Lemma norm_0_0 : norm (vsub (0, 0) (0, 0)) = 0.
Proof.
  unfold norm, squaredNorm, vsub, vx, vy; cbn [fst snd].
  replace ((0 - 0) * (0 - 0) + (0 - 0) * (0 - 0)) with 0 by ring.
  apply sqrt_0.
Qed.

(** Of the four entries of [corners] of the 4x3 camera the third, (3, 4), is
    the farthest from the origin of the image. *)
Lemma camera_4x3_farthest :
  FarthestCorner (corners camera_4x3) (0, 0) = (5, (3 / 5, 4 / 5)).
Proof.
  unfold FarthestCorner, corners, camera_4x3, pinhole_camera.
  cbn [Width Height fold_left]. unfold farthest_step at 4. cbn [fst].
  rewrite norm_0_0. destruct (Rlt_dec 0 0) as [C | _]; [lra|].
  unfold farthest_step at 3. cbn [fst].
  rewrite (x_axis_norm 4), (x_axis_dir 4) by lra.
  destruct (Rlt_dec 0 4) as [_ | C]; [|lra].
  unfold farthest_step at 2. cbn [fst].
  rewrite norm_3_4. destruct (Rlt_dec 4 5) as [_ | C]; [|lra].
  unfold farthest_step. cbn [fst].
  rewrite norm_0_3. destruct (Rlt_dec 5 3) as [C | _]; [lra|].
  f_equal. unfold normalized.
  assert (Hsq : squaredNorm (vsub (3, 4) (0, 0)) = 25)
    by (unfold squaredNorm, vsub, vx, vy; cbn [fst snd]; ring).
  rewrite Hsq, norm_3_4. destruct (Rlt_dec 0 25) as [_ | C]; [|lra].
  unfold vsub, vx, vy; cbn [fst snd]. f_equal; lra.
Qed.

(** Along that direction the 4x3 camera (focal length 4) sees the distance
    over 4. *)
Lemma camera_4x3_ray x :
  0 <= x ->
  norm (ImageToWorld sample_models camera_4x3
          (vadd (vscale (3 / 5, 4 / 5) x) (0, 0))) = x / 4.
Proof.
  intros Hx.
  unfold sample_models, ImageToWorld, sample_ImageToWorld, sample_focal_y,
    camera_4x3, pinhole_camera, PrincipalPointX, PrincipalPointY,
    FocalLengthX, vadd, vscale, norm, squaredNorm, vx, vy.
  cbn [fst snd ModelId Params focal_x focal_y pp_x pp_y Z.eqb].
  replace ((3 / 5 * x + 0 - 0) / 4 * ((3 / 5 * x + 0 - 0) / 4)
           + (4 / 5 * x + 0 - 0) / 4 * ((4 / 5 * x + 0 - 0) / 4))
    with (x / 4 * (x / 4)) by field.
  apply sqrt_square; lra.
Qed.

Lemma atan_le x y : x <= y -> atan x <= atan y.
Proof.
  intros [H | ->]; [left; now apply atan_increasing | right; reflexivity].
Qed.

(** One accepted round of the march of the 4x3 camera. *)
Lemma camera_4x3_round k i half radius :
  (1 <= i <= 4)%Z ->
  half < atan (IZR i / 4) ->
  RadiusMarch sample_models camera_4x3 (0, 0) (3 / 5, 4 / 5) 5
    (DegToRad 100) (S k) i half radius
  = RadiusMarch sample_models camera_4x3 (0, 0) (3 / 5, 4 / 5) 5
      (DegToRad 100) k (i + 1) (atan (IZR i / 4)) (IZR i).
Proof.
  intros [Hi1 Hi4] Hhalf. apply IZR_le in Hi1, Hi4.
  rewrite RadiusMarch_S.
  destruct (Rlt_dec (IZR i) 5) as [_ | C]; [|lra].
  cbv zeta. rewrite camera_4x3_ray by lra.
  replace (Rleb (atan (IZR i / 4)) half) with false
    by (symmetry; apply Rleb_false; exact Hhalf).
  assert (Hphi : atan (IZR i / 4) <= PI / 4)
    by (rewrite <- atan_1; apply atan_le; lra).
  replace (Rltb (DegToRad 100) (2 * atan (IZR i / 4))) with false.
  - reflexivity.
  - symmetry. apply Rltb_false. unfold DegToRad.
    pose proof PI_RGT_0. lra.
Qed.

Lemma camera_4x3_march :
  MarchFromCorner sample_models camera_4x3 (0, 0) (DegToRad 100)
  = (PI / 4, 4).
Proof.
  unfold MarchFromCorner. rewrite camera_4x3_farthest. cbn [fst snd].
  replace (march_fuel 5) with 6%nat.
  2:{ unfold march_fuel. replace (up 5) with 6%Z; [reflexivity|].
      apply tech_up; lra. }
  assert (Hinc : forall a b, a < b -> atan (a / 4) < atan (b / 4))
    by (intros a b Hab; apply atan_increasing; lra).
  rewrite camera_4x3_round
    by (try lia; rewrite <- atan_0; apply atan_increasing; lra).
  change (1 + 1)%Z with 2%Z.
  rewrite camera_4x3_round by (try lia; apply Hinc; lra).
  change (2 + 1)%Z with 3%Z.
  rewrite camera_4x3_round by (try lia; apply Hinc; lra).
  change (3 + 1)%Z with 4%Z.
  rewrite camera_4x3_round by (try lia; apply Hinc; lra).
  change (4 + 1)%Z with 5%Z.
  rewrite RadiusMarch_S.
  destruct (Rlt_dec 5 5) as [C | _]; [lra|].
  f_equal. replace (4 / 4) with 1 by lra. apply atan_1.
Qed.

(** C5, the code at a failing input.  For every camera and configuration the
    half angle that [UndistortCamera] goes on with is [max_fov / 2]: the
    march does not determine it.  The radius is the one the march ends with
    when the kind has the principal-point pair, and the image diagonal,
    with the origin for principal point, when it has not.  For the 4x3
    pinhole camera with focal length 4 and [max_fov] 100 degrees: the march
    runs toward (3, 4), the third entry of [corners], which is not a corner
    of the 4x3 image; it ends with the half angle 45 degrees and the radius
    4; and the function goes on with 50 degrees and the radius 4. *)
Theorem ValidDomain_half_angle_not_from_march :
  (forall M options camera,
     snd (fst (ValidDomain M options camera))
     = DegToRad (max_fov options) / 2)
  /\ (forall M options camera,
        List.length (PrincipalPointIdxs M (ModelId camera)) = 2%nat ->
        ValidDomain M options camera
        = ((PrincipalPointX camera, PrincipalPointY camera),
           DegToRad (max_fov options) / 2,
           snd (MarchFromCorner M camera
                  (PrincipalPointX camera, PrincipalPointY camera)
                  (DegToRad (max_fov options)))))
  /\ (forall M options camera,
        List.length (PrincipalPointIdxs M (ModelId camera)) <> 2%nat ->
        ValidDomain M options camera
        = ((0, 0), DegToRad (max_fov options) / 2,
           norm (image_size camera)))
  /\ FarthestCorner (corners camera_4x3) (0, 0) = (5, (3 / 5, 4 / 5))
  /\ MarchFromCorner sample_models camera_4x3 (0, 0) (DegToRad 100)
     = (PI / 4, 4)
  /\ ValidDomain sample_models (sample_options (-1) true) camera_4x3
     = ((0, 0), DegToRad 100 / 2, 4)
  /\ PI / 4 < DegToRad 100 / 2.
Proof.
  assert (Hpair : forall M options camera,
             List.length (PrincipalPointIdxs M (ModelId camera)) = 2%nat ->
             ValidDomain M options camera
             = ((PrincipalPointX camera, PrincipalPointY camera),
                DegToRad (max_fov options) / 2,
                snd (MarchFromCorner M camera
                       (PrincipalPointX camera, PrincipalPointY camera)
                       (DegToRad (max_fov options))))).
  { intros M options camera H. unfold ValidDomain. now rewrite H. }
  split; [|split; [exact Hpair|split; [|split; [|split; [|split]]]]].
  - intros M options camera. unfold ValidDomain.
    destruct (List.length _ =? 2)%nat; reflexivity.
  - intros M options camera H. unfold ValidDomain.
    apply Nat.eqb_neq in H. now rewrite H.
  - exact camera_4x3_farthest.
  - exact camera_4x3_march.
  - rewrite Hpair by reflexivity.
    change (PrincipalPointX camera_4x3, PrincipalPointY camera_4x3)
      with ((0, 0) : Vector2d).
    change (max_fov (sample_options (-1) true)) with 100.
    now rewrite camera_4x3_march.
  - unfold DegToRad. pose proof PI_RGT_0. lra.
Qed.

(** The focal lengths that the flag asks for, for every camera: both are the
    largest of the diagonal candidate, the candidates of the two rounds of
    the corner loop, and the horizontal and vertical candidates.  The rounds
    probe toward [corners[0]] and [corners[2]], then [corners[1]] and
    [corners[3]]; [corners[2]] is (height, width). *)
Lemma SetFocalLengths_from_fov M options camera principal_point
    max_valid_fov_half max_valid_radius uc :
  estimate_focal_length_from_fov options = true ->
  let max_h := DegToRad (max_horizontal_fov options) in
  let max_v := DegToRad (max_vertical_fov options) in
  let candidate :=
    CornerPairCandidate M camera principal_point max_valid_radius
      max_valid_fov_half max_h max_v in
  let focal :=
    std_max
      (std_max
         (std_max
            (norm (image_size camera) / 2 / tan max_valid_fov_half)
            (candidate (0, 0) (IZR (Height camera), IZR (Width camera))))
         (candidate (IZR (Width camera), 0) (0, IZR (Height camera))))
      (std_max
         (FocalHorizontalFov M camera principal_point max_valid_radius max_h)
         (FocalVerticalFov M camera principal_point max_valid_radius max_v))
  in
  exists uc',
    SetFocalLengths M options camera principal_point max_valid_fov_half
      max_valid_radius uc = Some uc'
    /\ FocalLengthX uc' = focal /\ FocalLengthY uc' = focal.
Proof.
  intros Hest max_h max_v candidate focal.
  unfold SetFocalLengths. rewrite Hest.
  eexists. split; [reflexivity|]. split; reflexivity.
Qed.

(** The probe of the 4x3 camera toward (3, 4) with the radius 4 and the
    three bounds at 50 degrees: every distance below 4 passes, and the loop
    ends at 4 - 4/2^32. *)
Lemma camera_4x3_probe :
  SelectPointOnRay sample_models camera_4x3 (0, 0) (3, 4) 4
    (DegToRad 100 / 2) (DegToRad 100 / 2) (DegToRad 100 / 2)
  = vadd (0, 0) (vscale (3 / 5, 4 / 5) (4 - (4 - 0) / 2 ^ 32)).
Proof.
  assert (Hdir : normalized (vsub (3, 4) (0, 0)) = (3 / 5, 4 / 5)).
  { unfold normalized.
    assert (Hsq : squaredNorm (vsub (3, 4) (0, 0)) = 25)
      by (unfold squaredNorm, vsub, vx, vy; cbn [fst snd]; ring).
    rewrite Hsq, norm_3_4. destruct (Rlt_dec 0 25) as [_ | C]; [|lra].
    unfold vsub, vx, vy; cbn [fst snd]. f_equal; lra. }
  unfold SelectPointOnRay, SelectBracket. rewrite Hdir, norm_3_4.
  replace (std_min 4 5) with 4
    by (unfold std_min; destruct (Rlt_dec 5 4); lra).
  rewrite bisect_all_valid; [reflexivity | lra |].
  intros m [Hm0 Hm4].
  assert (Hbound : PI / 4 < DegToRad 100 / 2)
    by (unfold DegToRad; pose proof PI_RGT_0; lra).
  unfold m_valid, PointValid.
  replace (vadd (0, 0) (vscale (3 / 5, 4 / 5) m))
    with (vadd (vscale (3 / 5, 4 / 5) m) (0, 0))
    by (unfold vadd, vscale, vx, vy; cbn [fst snd]; f_equal; ring).
  rewrite camera_4x3_ray by lra.
  unfold sample_models, ImageToWorld, sample_ImageToWorld, sample_focal_y,
    camera_4x3, pinhole_camera, PrincipalPointX, PrincipalPointY,
    FocalLengthX, vadd, vscale, vx, vy.
  cbn [fst snd ModelId Params focal_x focal_y pp_x pp_y Z.eqb].
  rewrite !andb_true_iff, !Rltb_true.
  assert (Hle : forall x, x <= 1 -> atan x < DegToRad 100 / 2).
  { intros x Hx. apply Rle_lt_trans with (PI / 4); [|exact Hbound].
    rewrite <- atan_1. now apply atan_le. }
  repeat split; apply Hle; lra.
Qed.

(** The 4x3 pinhole camera with focal length 4, [max_fov] 100 degrees and
    the flag set.  The third entry of [corners] is (3, 4), not the image
    corner (4, 3).  Both focal lengths are set to the largest of the five
    candidates, the first corner pair being (0, 0) and (3, 4); and the point
    that the probe toward (3, 4) returns, with the radius and the half angle
    of the valid domain, has y > 3: it lies outside the image.  With equal
    focal lengths the candidate is the one of the corner (4, 3) all the
    same; the camera below has them different. *)
Theorem EstimateFocal_probes_outside_image :
  let options := sample_options (-1) true in
  let half := DegToRad 100 / 2 in
  let candidate :=
    CornerPairCandidate sample_models camera_4x3 (0, 0) 4 half
      (DegToRad 100) (DegToRad 100) in
  let focal :=
    std_max
      (std_max
         (std_max (norm (image_size camera_4x3) / 2 / tan half)
            (candidate (0, 0) (3, 4)))
         (candidate (4, 0) (0, 3)))
      (std_max
         (FocalHorizontalFov sample_models camera_4x3 (0, 0) 4 (DegToRad 100))
         (FocalVerticalFov sample_models camera_4x3 (0, 0) 4 (DegToRad 100)))
  in
  corner camera_4x3 2 = (3, 4)
  /\ corner camera_4x3 2
     <> (IZR (Width camera_4x3), IZR (Height camera_4x3))
  /\ ValidDomain sample_models options camera_4x3 = ((0, 0), half, 4)
  /\ (exists uc,
        SetFocalLengths sample_models options camera_4x3 (0, 0) half 4
          (InitialCamera sample_models camera_4x3) = Some uc
        /\ FocalLengthX uc = focal /\ FocalLengthY uc = focal)
  /\ IZR (Height camera_4x3)
     < vy (SelectPointOnRay sample_models camera_4x3 (0, 0)
             (corner camera_4x3 2) 4 half (DegToRad 100 / 2)
             (DegToRad 100 / 2)).
Proof.
  cbv zeta.
  assert (Hc : corner camera_4x3 2 = (3, 4)) by reflexivity.
  split; [exact Hc|]. split; [|split; [|split]].
  - rewrite Hc. cbn [camera_4x3 pinhole_camera Width Height].
    intros E. injection E as E1 E2. lra.
  - unfold ValidDomain.
    change (List.length (PrincipalPointIdxs sample_models (ModelId camera_4x3))
            =? 2)%nat with true.
    cbv iota.
    change (PrincipalPointX camera_4x3, PrincipalPointY camera_4x3)
      with ((0, 0) : Vector2d).
    change (max_fov (sample_options (-1) true)) with 100.
    now rewrite camera_4x3_march.
  - eexists. split; [reflexivity|]. split; reflexivity.
  - rewrite Hc, camera_4x3_probe.
    unfold vadd, vscale, vx, vy; cbn [fst snd camera_4x3 pinhole_camera Height].
    pose proof (pow2_pos 32) as Hp.
    assert (Hsmall : (4 - 0) / 2 ^ 32 < 1 / 4).
    { apply (Rmult_lt_reg_r (2 ^ 32)); [exact Hp|].
      replace ((4 - 0) / 2 ^ 32 * 2 ^ 32) with 4 by (field; lra).
      change (2 ^ 32) with (2 * (2 * (2 * (2 * (2 * 2 ^ 27))))).
      pose proof (pow2_pos 27) as Hp27.
      assert (1 <= 2 ^ 27) by (apply pow_R1_Rle; lra). lra. }
    lra.
Qed.

(** *** The swapped corner changes the focal length *)

Lemma div_lt_cross a b x y :
  0 < x -> 0 < y -> a * y < b * x -> a / x < b / y.
Proof.
  intros Hx Hy H.
  apply (Rmult_lt_reg_r (x * y)); [nra|].
  replace (a / x * (x * y)) with (a * y) by (field; lra).
  replace (b / y * (x * y)) with (b * x) by (field; lra).
  exact H.
Qed.

(** The tangent of half the angle whose tangent is [x]. *)
Lemma half_angle_tangent x :
  0 < x ->
  0 < tan (atan x / 2) < 1
  /\ x * (1 - tan (atan x / 2) * tan (atan x / 2)) = 2 * tan (atan x / 2).
Proof.
  intros Hx.
  pose proof (atan_bound x) as [_ Hup].
  assert (H0 : 0 < atan x)
    by (rewrite <- atan_0; now apply atan_increasing).
  pose proof PI_RGT_0 as HPI.
  assert (Ht0 : 0 < tan (atan x / 2)) by (apply tan_gt_0; lra).
  assert (Ht1 : tan (atan x / 2) < 1).
  { rewrite <- tan_PI4. apply tan_increasing; lra. }
  split; [split; assumption|].
  assert (Hc : cos (atan x / 2) <> 0).
  { apply Rgt_not_eq. apply cos_gt_0; lra. }
  assert (Hc2 : cos (2 * (atan x / 2)) <> 0).
  { replace (2 * (atan x / 2)) with (atan x) by field.
    apply Rgt_not_eq. apply cos_gt_0; lra. }
  assert (Hd : 1 - tan (atan x / 2) * tan (atan x / 2) <> 0) by nra.
  pose proof (tan_2a (atan x / 2) Hc Hc2 Hd) as H2.
  replace (2 * (atan x / 2)) with (atan x) in H2 by field.
  rewrite tan_atan in H2. rewrite H2 at 1. field. exact Hd.
Qed.

Lemma half_angle_tangent_bounds x :
  0 < x ->
  x / 2 * (1 - x * x / 4) <= tan (atan x / 2) <= x / 2
  /\ 0 < tan (atan x / 2).
Proof.
  intros Hx. destruct (half_angle_tangent x Hx) as [[Ht0 Ht1] He].
  set (t := tan (atan x / 2)) in *.
  assert (Hup : t <= x / 2) by nra.
  split; [split; [|exact Hup] | exact Ht0].
  assert (Ht2 : t * t <= x * x / 4) by nra.
  nra.
Qed.

Lemma half_angle_tangent_increasing x y :
  0 < x -> x < y -> tan (atan x / 2) < tan (atan y / 2).
Proof.
  intros Hx Hxy.
  pose proof (atan_bound x) as [Hlx _].
  pose proof (atan_bound y) as [_ Huy].
  pose proof (atan_increasing x y Hxy).
  pose proof PI_RGT_0.
  apply tan_increasing; lra.
Qed.

(** The camera with the focal lengths 5 and 6 sees the image point
    [(x, y)] at [(x / 5, y / 6)]. *)
Lemma camera_4x3_f56_world p :
  ImageToWorld sample_models camera_4x3_f56 p = (vx p / 5, vy p / 6).
Proof.
  unfold sample_models, ImageToWorld, sample_ImageToWorld, sample_focal_y,
    camera_4x3_f56, pinhole_camera, PrincipalPointX, PrincipalPointY,
    FocalLengthX.
  cbn [ModelId Params focal_x focal_y pp_x pp_y Z.eqb].
  apply (f_equal2 (@pair _ _)); field.
Qed.

Lemma half_fov_above_PI4 : PI / 4 < DegToRad 100 / 2 < PI / 2.
Proof. unfold DegToRad. pose proof PI_RGT_0. lra. Qed.

Lemma atan_below_half_fov x : x <= 1 -> atan x < DegToRad 100 / 2.
Proof.
  intros Hx. apply Rle_lt_trans with (PI / 4).
  - rewrite <- atan_1. now apply atan_le.
  - apply half_fov_above_PI4.
Qed.

(** Within the distance 4 of the origin of the image every point passes the
    three tests at 50 degrees. *)
Lemma camera_4x3_f56_valid p :
  vx p * vx p + vy p * vy p <= 16 ->
  PointValid sample_models camera_4x3_f56 (DegToRad 100 / 2)
    (DegToRad 100 / 2) (DegToRad 100 / 2) p = true.
Proof.
  intros Hp. unfold PointValid. rewrite camera_4x3_f56_world.
  destruct p as [x y]. unfold vx, vy in *. cbn [fst snd] in *.
  rewrite !andb_true_iff, !Rltb_true.
  repeat split; apply atan_below_half_fov.
  - nra.
  - nra.
  - unfold norm, squaredNorm, vx, vy. cbn [fst snd].
    rewrite <- sqrt_1. apply sqrt_le_1_alt. nra.
Qed.

(** Along a direction [dir] the camera sees the distance [x] as [x] times
    the length of the world point of [dir]. *)
Lemma camera_4x3_f56_ray dir x :
  0 <= x ->
  norm (ImageToWorld sample_models camera_4x3_f56
          (vadd (0, 0) (vscale dir x)))
  = x * norm (vx dir / 5, vy dir / 6).
Proof.
  intros Hx. rewrite camera_4x3_f56_world. destruct dir as [dx dy].
  unfold vadd, vscale, vx, vy. cbn [fst snd].
  replace ((0 + dx * x) / 5, (0 + dy * x) / 6)
    with (vscale (dx / 5, dy / 6) x)
    by (unfold vscale, vx, vy; cbn [fst snd];
        apply (f_equal2 (@pair _ _)); field).
  rewrite norm_vscale, Rabs_pos_eq by assumption. ring.
Qed.

(** The probe toward a target at the distance [len] in the direction [dir],
    with the radius 4 and the three bounds at 50 degrees: every distance of
    the range passes, and the loop ends 1/2^32 of the range short of its
    end. *)
Lemma camera_4x3_f56_probe target dir len :
  norm (vsub target (0, 0)) = len ->
  normalized (vsub target (0, 0)) = dir ->
  vx dir * vx dir + vy dir * vy dir = 1 ->
  0 < len ->
  SelectPointOnRay sample_models camera_4x3_f56 (0, 0) target 4
    (DegToRad 100 / 2) (DegToRad 100 / 2) (DegToRad 100 / 2)
  = vadd (0, 0)
      (vscale dir (std_min 4 len - (std_min 4 len - 0) / 2 ^ 32)).
Proof.
  intros Hlen Hdir Hunit Hpos.
  unfold SelectPointOnRay, SelectBracket. rewrite Hdir, Hlen.
  assert (Hr : 0 < std_min 4 len <= 4).
  { unfold std_min. destruct (Rlt_dec len 4); lra. }
  rewrite (bisect_all_valid _ 32 0 (std_min 4 len)); [reflexivity | lra |].
  intros m [Hm0 Hm4]. unfold m_valid.
  apply camera_4x3_f56_valid. destruct dir as [dx dy].
  unfold vadd, vscale, vx, vy in *. cbn [fst snd] in *.
  replace ((0 + dx * m) * (0 + dx * m) + (0 + dy * m) * (0 + dy * m))
    with (m * m * (dx * dx + dy * dy)) by ring.
  rewrite Hunit. nra.
Qed.

(** The probe toward the origin itself returns it. *)
Lemma camera_4x3_f56_probe_origin :
  SelectPointOnRay sample_models camera_4x3_f56 (0, 0) (0, 0) 4
    (DegToRad 100 / 2) (DegToRad 100 / 2) (DegToRad 100 / 2)
  = (0, 0).
Proof.
  unfold SelectPointOnRay, SelectBracket. rewrite norm_0_0.
  replace (std_min 4 0) with 0
    by (unfold std_min; destruct (Rlt_dec 0 4); lra).
  generalize (m_valid sample_models camera_4x3_f56 (0, 0)
                (normalized (vsub (0, 0) (0, 0))) (DegToRad 100 / 2)
                (DegToRad 100 / 2) (DegToRad 100 / 2)).
  intros valid.
  destruct (bisect_bounds valid 32 0 0 (Rle_refl 0)) as (H0 & H1 & H2).
  assert (E : fst (bisect valid 32 0 0) = 0) by lra.
  rewrite E. apply vadd_vscale_0.
Qed.

Lemma norm_4_3 : norm (vsub (4, 3) (0, 0)) = 5.
Proof.
  unfold norm, squaredNorm, vsub, vx, vy; cbn [fst snd].
  replace ((4 - 0) * (4 - 0) + (3 - 0) * (3 - 0)) with (5 * 5) by ring.
  apply sqrt_square; lra.
Qed.

Lemma dir_3_4 : normalized (vsub (3, 4) (0, 0)) = (3 / 5, 4 / 5).
Proof.
  unfold normalized.
  assert (Hsq : squaredNorm (vsub (3, 4) (0, 0)) = 25)
    by (unfold squaredNorm, vsub, vx, vy; cbn [fst snd]; ring).
  rewrite Hsq, norm_3_4. destruct (Rlt_dec 0 25) as [_ | C]; [|lra].
  unfold vsub, vx, vy; cbn [fst snd]. f_equal; lra.
Qed.

Lemma dir_4_3 : normalized (vsub (4, 3) (0, 0)) = (4 / 5, 3 / 5).
Proof.
  unfold normalized.
  assert (Hsq : squaredNorm (vsub (4, 3) (0, 0)) = 25)
    by (unfold squaredNorm, vsub, vx, vy; cbn [fst snd]; ring).
  rewrite Hsq, norm_4_3. destruct (Rlt_dec 0 25) as [_ | C]; [|lra].
  unfold vsub, vx, vy; cbn [fst snd]. f_equal; lra.
Qed.

Lemma dir_0_3 : normalized (vsub (0, 3) (0, 0)) = (0, 1).
Proof.
  unfold normalized.
  assert (Hsq : squaredNorm (vsub (0, 3) (0, 0)) = 9)
    by (unfold squaredNorm, vsub, vx, vy; cbn [fst snd]; ring).
  rewrite Hsq, norm_0_3. destruct (Rlt_dec 0 9) as [_ | C]; [|lra].
  unfold vsub, vx, vy; cbn [fst snd]. f_equal; lra.
Qed.

Lemma norm_image_4x3 : norm (4, 3) = 5.
Proof.
  unfold norm, squaredNorm, vx, vy; cbn [fst snd].
  replace (4 * 4 + 3 * 3) with (5 * 5) by ring.
  apply sqrt_square; lra.
Qed.

(** The lengths of the world points of the four directions of the probes:
    toward (3, 4), toward (4, 3), along the row and along the column. *)
Lemma world_length_3_4 : 0 < norm (3 / 5 / 5, 4 / 5 / 6) <= 0.18.
Proof.
  unfold norm, squaredNorm, vx, vy; cbn [fst snd]. split.
  - apply sqrt_lt_R0. lra.
  - replace 0.18 with (sqrt (0.18 * 0.18)) by (apply sqrt_square; lra).
    apply sqrt_le_1_alt. lra.
Qed.

Lemma world_length_4_3 :
  norm (3 / 5 / 5, 4 / 5 / 6) < norm (4 / 5 / 5, 3 / 5 / 6).
Proof.
  unfold norm, squaredNorm, vx, vy; cbn [fst snd].
  apply sqrt_lt_1_alt. lra.
Qed.

Lemma world_length_row : norm (1 / 5, 0 / 6) = 1 / 5.
Proof.
  replace (0 / 6) with 0 by lra. rewrite norm_x_axis.
  apply Rabs_pos_eq. lra.
Qed.

Lemma world_length_column : norm (0 / 5, 1 / 6) = 1 / 6.
Proof.
  unfold norm, squaredNorm, vx, vy; cbn [fst snd].
  replace (0 / 5 * (0 / 5) + 1 / 6 * (1 / 6)) with (1 / 6 * (1 / 6)) by lra.
  apply sqrt_square; lra.
Qed.

Lemma world_length_4_3_bounds : 0 < norm (4 / 5 / 5, 3 / 5 / 6) <= 0.19.
Proof.
  unfold norm, squaredNorm, vx, vy; cbn [fst snd]. split.
  - apply sqrt_lt_R0. lra.
  - replace 0.19 with (sqrt (0.19 * 0.19)) by (apply sqrt_square; lra).
    apply sqrt_le_1_alt. lra.
Qed.

(** One round of the march of the camera with the focal lengths 5 and 6
    along a direction whose world point is no longer than 1/4: it is
    accepted when its angle is above the one before. *)
Lemma camera_4x3_f56_round dir k i half radius :
  0 < norm (vx dir / 5, vy dir / 6) <= 1 / 4 ->
  (1 <= i <= 4)%Z ->
  half < atan (IZR i * norm (vx dir / 5, vy dir / 6)) ->
  RadiusMarch sample_models camera_4x3_f56 (0, 0) dir 5
    (DegToRad 100) (S k) i half radius
  = RadiusMarch sample_models camera_4x3_f56 (0, 0) dir 5
      (DegToRad 100) k (i + 1)
      (atan (IZR i * norm (vx dir / 5, vy dir / 6))) (IZR i).
Proof.
  intros [HK0 HK1] [Hi1 Hi4] Hhalf. apply IZR_le in Hi1, Hi4.
  rewrite RadiusMarch_S.
  destruct (Rlt_dec (IZR i) 5) as [_ | C]; [|lra].
  cbv zeta.
  replace (vadd (vscale dir (IZR i)) (0, 0))
    with (vadd (0, 0) (vscale dir (IZR i)))
    by (destruct dir; unfold vadd, vscale, vx, vy; cbn [fst snd];
        apply (f_equal2 (@pair _ _)); ring).
  rewrite camera_4x3_f56_ray by lra.
  set (phi := atan (IZR i * norm (vx dir / 5, vy dir / 6))) in *.
  replace (Rleb phi half) with false
    by (symmetry; apply Rleb_false; exact Hhalf).
  assert (Hphi : phi <= PI / 4).
  { unfold phi. rewrite <- atan_1. apply atan_le. nra. }
  replace (Rltb (DegToRad 100) (2 * phi)) with false.
  - reflexivity.
  - symmetry. apply Rltb_false. unfold DegToRad.
    pose proof PI_RGT_0. lra.
Qed.

(** So the march over the radii below 5 ends with the radius 4, along
    either direction. *)
Lemma camera_4x3_f56_march_along dir radius :
  0 < norm (vx dir / 5, vy dir / 6) <= 1 / 4 ->
  snd (RadiusMarch sample_models camera_4x3_f56 (0, 0) dir 5
         (DegToRad 100) (march_fuel 5) 1 0 radius) = 4.
Proof.
  intros HK.
  replace (march_fuel 5) with 6%nat.
  2:{ unfold march_fuel. replace (up 5) with 6%Z; [reflexivity|].
      apply tech_up; lra. }
  assert (Hinc : forall a b,
            a < b ->
            atan (a * norm (vx dir / 5, vy dir / 6))
            < atan (b * norm (vx dir / 5, vy dir / 6)))
    by (intros a b Hab; apply atan_increasing; nra).
  rewrite (camera_4x3_f56_round dir _ _ _ _ HK)
    by (try lia; rewrite <- atan_0; apply atan_increasing; lra).
  change (1 + 1)%Z with 2%Z.
  rewrite (camera_4x3_f56_round dir _ _ _ _ HK)
    by (try lia; apply Hinc; lra).
  change (2 + 1)%Z with 3%Z.
  rewrite (camera_4x3_f56_round dir _ _ _ _ HK)
    by (try lia; apply Hinc; lra).
  change (3 + 1)%Z with 4%Z.
  rewrite (camera_4x3_f56_round dir _ _ _ _ HK)
    by (try lia; apply Hinc; lra).
  change (4 + 1)%Z with 5%Z.
  rewrite RadiusMarch_S.
  destruct (Rlt_dec 5 5) as [C | _]; [lra|].
  reflexivity.
Qed.

Lemma camera_4x3_f56_march :
  snd (MarchFromCorner sample_models camera_4x3_f56 (0, 0) (DegToRad 100))
  = 4.
Proof.
  unfold MarchFromCorner.
  change (corners camera_4x3_f56) with (corners camera_4x3).
  rewrite camera_4x3_farthest. cbn [fst snd].
  apply camera_4x3_f56_march_along. cbn [vx vy fst snd].
  pose proof world_length_3_4. lra.
Qed.

Lemma camera_4x3_f56_domain :
  ValidDomain sample_models (sample_options (-1) true) camera_4x3_f56
  = ((0, 0), DegToRad 100 / 2, 4).
Proof.
  unfold ValidDomain.
  change (List.length
            (PrincipalPointIdxs sample_models (ModelId camera_4x3_f56))
          =? 2)%nat with true.
  cbv iota zeta.
  change (PrincipalPointX camera_4x3_f56, PrincipalPointY camera_4x3_f56)
    with ((0, 0) : Vector2d).
  change (max_fov (sample_options (-1) true)) with 100.
  now rewrite camera_4x3_f56_march.
Qed.

(** The end of a probe over the range [r]. *)
Lemma probe_end_bounds r : 0 < r -> 0 < r - (r - 0) / 2 ^ 32 < r.
Proof.
  intros Hr. pose proof (pow2_pos 32) as Hp.
  assert (H1 : 1 < 2 ^ 32).
  { change (2 ^ 32) with (2 * 2 ^ 31).
    assert (1 <= 2 ^ 31) by (apply pow_R1_Rle; lra). lra. }
  assert (Hq : 0 < (r - 0) / 2 ^ 32 < r).
  { split.
    - apply Rdiv_lt_0_compat; lra.
    - apply (Rmult_lt_reg_r (2 ^ 32)); [exact Hp|].
      replace ((r - 0) / 2 ^ 32 * 2 ^ 32) with r by (field; lra). nra. }
  lra.
Qed.

(** A corner-pair candidate of the camera with the focal lengths 5 and 6,
    from the points that its two probes return. *)
Lemma camera_4x3_f56_candidate targetA targetB cornerA cornerB :
  SelectPointOnRay sample_models camera_4x3_f56 (0, 0) targetA 4
    (DegToRad 100 / 2) (DegToRad 100 / 2) (DegToRad 100 / 2) = cornerA ->
  SelectPointOnRay sample_models camera_4x3_f56 (0, 0) targetB 4
    (DegToRad 100 / 2) (DegToRad 100 / 2) (DegToRad 100 / 2) = cornerB ->
  CornerPairCandidate sample_models camera_4x3_f56 (0, 0) 4
    (DegToRad 100 / 2) (DegToRad 100) (DegToRad 100) targetA targetB
  = 5 / 2
    / tan ((atan (norm (ImageToWorld sample_models camera_4x3_f56 cornerA))
            + atan (norm (ImageToWorld sample_models camera_4x3_f56
                            cornerB))) / 2).
Proof.
  intros HA HB. unfold CornerPairCandidate. cbv zeta.
  rewrite HA, HB.
  change (image_size camera_4x3_f56) with ((4, 3) : Vector2d).
  now rewrite norm_image_4x3.
Qed.

Lemma world_origin_angle :
  atan (norm (ImageToWorld sample_models camera_4x3_f56 (0, 0))) = 0.
Proof.
  rewrite camera_4x3_f56_world. cbn [vx vy fst snd].
  replace (0 / 5) with 0 by lra. replace (0 / 6) with 0 by lra.
  rewrite norm_x_axis, Rabs_R0. apply atan_0.
Qed.

(** The candidate of the first round of the loop as the code computes it,
    toward (0, 0) and (3, 4). *)
Lemma camera_4x3_f56_candidate_3_4 :
  CornerPairCandidate sample_models camera_4x3_f56 (0, 0) 4
    (DegToRad 100 / 2) (DegToRad 100) (DegToRad 100) (0, 0) (3, 4)
  = 5 / 2
    / tan (atan ((4 - (4 - 0) / 2 ^ 32) * norm (3 / 5 / 5, 4 / 5 / 6)) / 2).
Proof.
  rewrite (camera_4x3_f56_candidate (0, 0) (3, 4) _ _
             camera_4x3_f56_probe_origin
             (camera_4x3_f56_probe (3, 4) (3 / 5, 4 / 5) 5 norm_3_4 dir_3_4
                ltac:(cbn [vx vy fst snd]; lra) ltac:(lra))).
  rewrite world_origin_angle.
  replace (std_min 4 5) with 4
    by (unfold std_min; destruct (Rlt_dec 5 4); lra).
  rewrite camera_4x3_f56_ray by (pose proof (probe_end_bounds 4); lra).
  cbn [vx vy fst snd]. now rewrite Rplus_0_l.
Qed.

(** The same toward the opposite image corner (4, 3). *)
Lemma camera_4x3_f56_candidate_4_3 :
  CornerPairCandidate sample_models camera_4x3_f56 (0, 0) 4
    (DegToRad 100 / 2) (DegToRad 100) (DegToRad 100) (0, 0) (4, 3)
  = 5 / 2
    / tan (atan ((4 - (4 - 0) / 2 ^ 32) * norm (4 / 5 / 5, 3 / 5 / 6)) / 2).
Proof.
  rewrite (camera_4x3_f56_candidate (0, 0) (4, 3) _ _
             camera_4x3_f56_probe_origin
             (camera_4x3_f56_probe (4, 3) (4 / 5, 3 / 5) 5 norm_4_3 dir_4_3
                ltac:(cbn [vx vy fst snd]; lra) ltac:(lra))).
  rewrite world_origin_angle.
  replace (std_min 4 5) with 4
    by (unfold std_min; destruct (Rlt_dec 5 4); lra).
  rewrite camera_4x3_f56_ray by (pose proof (probe_end_bounds 4); lra).
  cbn [vx vy fst snd]. now rewrite Rplus_0_l.
Qed.

(** The candidate of the second round, toward (4, 0) and (0, 3). *)
Lemma camera_4x3_f56_candidate_axes :
  CornerPairCandidate sample_models camera_4x3_f56 (0, 0) 4
    (DegToRad 100 / 2) (DegToRad 100) (DegToRad 100) (4, 0) (0, 3)
  = 5 / 2
    / tan ((atan ((4 - (4 - 0) / 2 ^ 32) * (1 / 5))
            + atan ((3 - (3 - 0) / 2 ^ 32) * (1 / 6))) / 2).
Proof.
  rewrite (camera_4x3_f56_candidate (4, 0) (0, 3) _ _
             (camera_4x3_f56_probe (4, 0) (1, 0) 4 (x_axis_norm 4 ltac:(lra))
                (x_axis_dir 4 ltac:(lra))
                ltac:(cbn [vx vy fst snd]; lra) ltac:(lra))
             (camera_4x3_f56_probe (0, 3) (0, 1) 3 norm_0_3 dir_0_3
                ltac:(cbn [vx vy fst snd]; lra) ltac:(lra))).
  replace (std_min 4 4) with 4
    by (unfold std_min; destruct (Rlt_dec 4 4); lra).
  replace (std_min 4 3) with 3
    by (unfold std_min; destruct (Rlt_dec 3 4); lra).
  rewrite !camera_4x3_f56_ray
    by (pose proof (probe_end_bounds 4); pose proof (probe_end_bounds 3);
        lra).
  cbn [vx vy fst snd].
  now rewrite world_length_row, world_length_column.
Qed.

(** The horizontal and the vertical candidate. *)
Lemma camera_4x3_f56_horizontal :
  FocalHorizontalFov sample_models camera_4x3_f56 (0, 0) 4 (DegToRad 100)
  = 4 / 2 / tan (atan (4 / 5) / 2).
Proof.
  unfold FocalHorizontalFov. cbv zeta.
  rewrite !camera_4x3_f56_world.
  change (image_size camera_4x3_f56) with ((4, 3) : Vector2d).
  cbn [vx vy fst snd].
  replace (std_max 0 (0 - 4)) with 0
    by (unfold std_max; destruct (Rlt_dec 0 (0 - 4)); lra).
  replace (std_min 4 (0 + 4)) with 4
    by (unfold std_min; destruct (Rlt_dec (0 + 4) 4); lra).
  replace (0 / 5) with 0 by lra.
  rewrite Rabs_R0, atan_0, Rplus_0_l, (Rabs_pos_eq (4 / 5)) by lra.
  replace (std_min (DegToRad 100) (atan (4 / 5))) with (atan (4 / 5));
    [reflexivity|].
  unfold std_min.
  destruct (Rlt_dec (atan (4 / 5)) (DegToRad 100)) as [_ | C];
    [reflexivity|].
  exfalso. apply C. pose proof (atan_bound (4 / 5)) as [_ H].
  pose proof half_fov_above_PI4. lra.
Qed.

Lemma camera_4x3_f56_vertical :
  FocalVerticalFov sample_models camera_4x3_f56 (0, 0) 4 (DegToRad 100)
  = 3 / 2 / tan (atan (3 / 6) / 2).
Proof.
  unfold FocalVerticalFov. cbv zeta.
  rewrite !camera_4x3_f56_world.
  change (image_size camera_4x3_f56) with ((4, 3) : Vector2d).
  cbn [vx vy fst snd].
  replace (std_max 0 (0 - 4)) with 0
    by (unfold std_max; destruct (Rlt_dec 0 (0 - 4)); lra).
  replace (std_min 3 (0 + 4)) with 3
    by (unfold std_min; destruct (Rlt_dec (0 + 4) 3); lra).
  replace (0 / 6) with 0 by lra.
  rewrite Rabs_R0, atan_0, Rplus_0_l, (Rabs_pos_eq (3 / 6)) by lra.
  replace (std_min (DegToRad 100) (atan (3 / 6))) with (atan (3 / 6));
    [reflexivity|].
  unfold std_min.
  destruct (Rlt_dec (atan (3 / 6)) (DegToRad 100)) as [_ | C];
    [reflexivity|].
  exfalso. apply C. pose proof (atan_bound (3 / 6)) as [_ H].
  pose proof half_fov_above_PI4. lra.
Qed.

(** With valid options, no override, the flag set and an unbounded size,
    [UndistortCamera] returns the camera whose two focal lengths are
    [EstimateFocal] at the valid domain. *)
Lemma UndistortCamera_focal_from_fov M options camera pp half radius :
  CheckOptions options = true ->
  camera_model_override options = EmptyString ->
  estimate_focal_length_from_fov options = true ->
  (max_image_size options < 0)%Z ->
  ValidDomain M options camera = (pp, half, radius) ->
  exists uc,
    UndistortCamera M options camera = Some uc
    /\ FocalLengthX uc = EstimateFocal M options camera pp half radius
    /\ FocalLengthY uc = EstimateFocal M options camera pp half radius.
Proof.
  intros Hcheck Hover Hest Hneg Hdomain.
  unfold UndistortCamera. rewrite Hcheck, Hover.
  change (0 <? String.length EmptyString)%nat with false. cbv iota.
  rewrite Hdomain. unfold SetFocalLengths. rewrite Hest.
  rewrite LimitImageSize_unbounded by assumption.
  eexists. split; [reflexivity|].
  destruct (negb (IsPinholeFamily M camera)); split; reflexivity.
Qed.

(** The two focal lengths in full: the code's, with the third entry of
    [corners], and the specification's, with the opposite image corner. *)
Lemma camera_4x3_f56_focal :
  EstimateFocal sample_models (sample_options (-1) true) camera_4x3_f56
    (0, 0) (DegToRad 100 / 2) 4
  = std_max
      (std_max
         (std_max (5 / 2 / tan (DegToRad 100 / 2))
            (CornerPairCandidate sample_models camera_4x3_f56 (0, 0) 4
               (DegToRad 100 / 2) (DegToRad 100) (DegToRad 100)
               (0, 0) (3, 4)))
         (CornerPairCandidate sample_models camera_4x3_f56 (0, 0) 4
            (DegToRad 100 / 2) (DegToRad 100) (DegToRad 100)
            (4, 0) (0, 3)))
      (std_max
         (FocalHorizontalFov sample_models camera_4x3_f56 (0, 0) 4
            (DegToRad 100))
         (FocalVerticalFov sample_models camera_4x3_f56 (0, 0) 4
            (DegToRad 100))).
Proof.
  unfold EstimateFocal. cbv zeta. cbn [fold_left]. unfold CornerPairFocal.
  change (image_size camera_4x3_f56) with ((4, 3) : Vector2d).
  rewrite norm_image_4x3. reflexivity.
Qed.

Lemma camera_4x3_f56_spec_focal :
  Spec_EstimateFocal sample_models (sample_options (-1) true) camera_4x3_f56
    (0, 0) (DegToRad 100 / 2) 4
  = std_max
      (std_max
         (std_max (5 / 2 / tan (DegToRad 100 / 2))
            (CornerPairCandidate sample_models camera_4x3_f56 (0, 0) 4
               (DegToRad 100 / 2) (DegToRad 100) (DegToRad 100)
               (0, 0) (4, 3)))
         (CornerPairCandidate sample_models camera_4x3_f56 (0, 0) 4
            (DegToRad 100 / 2) (DegToRad 100) (DegToRad 100)
            (4, 0) (0, 3)))
      (std_max
         (FocalHorizontalFov sample_models camera_4x3_f56 (0, 0) 4
            (DegToRad 100))
         (FocalVerticalFov sample_models camera_4x3_f56 (0, 0) 4
            (DegToRad 100))).
Proof.
  unfold Spec_EstimateFocal. cbv zeta.
  change (image_size camera_4x3_f56) with ((4, 3) : Vector2d).
  rewrite norm_image_4x3. reflexivity.
Qed.

(** Of the candidates of the camera with the focal lengths 5 and 6, the one
    toward (3, 4) is above every other, the one toward the image corner
    (4, 3) included. *)
Lemma camera_4x3_f56_candidates :
  let first :=
    CornerPairCandidate sample_models camera_4x3_f56 (0, 0) 4
      (DegToRad 100 / 2) (DegToRad 100) (DegToRad 100) (0, 0) (3, 4) in
  5 / 2 / tan (DegToRad 100 / 2) < first
  /\ CornerPairCandidate sample_models camera_4x3_f56 (0, 0) 4
       (DegToRad 100 / 2) (DegToRad 100) (DegToRad 100) (0, 0) (4, 3)
     < first
  /\ CornerPairCandidate sample_models camera_4x3_f56 (0, 0) 4
       (DegToRad 100 / 2) (DegToRad 100) (DegToRad 100) (4, 0) (0, 3)
     < first
  /\ FocalHorizontalFov sample_models camera_4x3_f56 (0, 0) 4 (DegToRad 100)
     < first
  /\ FocalVerticalFov sample_models camera_4x3_f56 (0, 0) 4 (DegToRad 100)
     < first.
Proof.
  cbv zeta.
  rewrite camera_4x3_f56_candidate_3_4, camera_4x3_f56_candidate_4_3,
    camera_4x3_f56_candidate_axes, camera_4x3_f56_horizontal,
    camera_4x3_f56_vertical.
  pose proof (probe_end_bounds 4 ltac:(lra)) as Hd4.
  pose proof (probe_end_bounds 3 ltac:(lra)) as Hd3.
  set (d4 := 4 - (4 - 0) / 2 ^ 32) in *.
  set (d3 := 3 - (3 - 0) / 2 ^ 32) in *.
  pose proof world_length_3_4 as [HK0 HK1].
  pose proof world_length_4_3 as HKs.
  set (Kc := norm (3 / 5 / 5, 4 / 5 / 6)) in *.
  set (Ks := norm (4 / 5 / 5, 3 / 5 / 6)) in *.
  assert (Hnc : 0 < d4 * Kc < 0.72) by nra.
  destruct (half_angle_tangent_bounds (d4 * Kc) (proj1 Hnc))
    as [[_ Hup] Hpos].
  set (tc := tan (atan (d4 * Kc) / 2)) in *.
  assert (Htc : tc < 0.36) by lra.
  pose proof half_fov_above_PI4 as [Hh1 Hh2].
  pose proof PI_RGT_0 as HPI.
  split; [|split; [|split; [|split]]].
  - (* the diagonal candidate *)
    assert (Htan : 1 < tan (DegToRad 100 / 2)).
    { rewrite <- tan_PI4. apply tan_increasing; lra. }
    apply div_lt_cross; lra.
  - (* toward the image corner *)
    assert (Hlt : tc < tan (atan (d4 * Ks) / 2)).
    { apply half_angle_tangent_increasing; nra. }
    apply div_lt_cross; lra.
  - (* toward (4, 0) and (0, 3) *)
    assert (Ha : atan (d4 * Kc) < atan (d4 * (1 / 5)))
      by (apply atan_increasing; nra).
    assert (Hb : 0 < atan (d3 * (1 / 6)))
      by (rewrite <- atan_0; apply atan_increasing; nra).
    pose proof (atan_bound (d4 * Kc)) as [Hc1 _].
    pose proof (atan_bound (d4 * (1 / 5))) as [_ Hc2].
    pose proof (atan_bound (d3 * (1 / 6))) as [_ Hc3].
    assert (Hlt : tc < tan ((atan (d4 * (1 / 5)) + atan (d3 * (1 / 6))) / 2)).
    { unfold tc. apply tan_increasing; lra. }
    apply div_lt_cross; lra.
  - (* the horizontal candidate *)
    destruct (half_angle_tangent_bounds (4 / 5) ltac:(lra))
      as [[Hlow _] Hp].
    apply div_lt_cross; lra.
  - (* the vertical candidate *)
    destruct (half_angle_tangent_bounds (3 / 6) ltac:(lra))
      as [[Hlow _] Hp].
    apply div_lt_cross; lra.
Qed.

(** C1, the code at a failing input: the 4x3 pinhole camera with the focal
    lengths 5 and 6 and the principal point at the origin of the image,
    [max_fov] 100 degrees, the flag set.  The third entry of [corners] is
    (3, 4), not the image corner (4, 3) opposite to (0, 0).  The valid
    domain has the radius 4 and the half angle 50 degrees, and a march
    toward (4, 3) ends with the radius 4 as well.  Both focal
    lengths of the camera that [UndistortCamera] returns are the largest of
    the five candidates as the code computes them, the first corner pair
    being (0, 0) and (3, 4); and that value is above the largest of the
    five candidates with the pairs of opposite image corners, (0, 0) with
    (4, 3) and (4, 0) with (0, 3), at the same valid domain. *)
Theorem EstimateFocal_swapped_corner_changes_focal :
  let options := sample_options (-1) true in
  let half := DegToRad 100 / 2 in
  corner camera_4x3_f56 2 = (3, 4)
  /\ Spec_corner camera_4x3_f56 2 = (4, 3)
  /\ ValidDomain sample_models options camera_4x3_f56 = ((0, 0), half, 4)
  /\ snd (RadiusMarch sample_models camera_4x3_f56 (0, 0) (4 / 5, 3 / 5) 5
            (DegToRad 100) (march_fuel 5) 1 0
            (norm (image_size camera_4x3_f56))) = 4
  /\ exists uc,
       UndistortCamera sample_models options camera_4x3_f56 = Some uc
       /\ FocalLengthX uc
          = EstimateFocal sample_models options camera_4x3_f56 (0, 0) half 4
       /\ FocalLengthY uc = FocalLengthX uc
       /\ Spec_EstimateFocal sample_models options camera_4x3_f56 (0, 0)
            half 4
          < FocalLengthX uc.
Proof.
  cbv zeta.
  split; [reflexivity|]. split; [reflexivity|].
  split; [exact camera_4x3_f56_domain|].
  split.
  { apply camera_4x3_f56_march_along. cbn [vx vy fst snd].
    pose proof world_length_4_3_bounds. lra. }
  destruct (UndistortCamera_focal_from_fov sample_models
              (sample_options (-1) true) camera_4x3_f56 (0, 0)
              (DegToRad 100 / 2) 4)
    as (uc & Hrun & Hx & Hy).
  - apply sample_options_ok; lia.
  - reflexivity.
  - reflexivity.
  - cbn; lia.
  - exact camera_4x3_f56_domain.
  - exists uc. split; [exact Hrun|]. split; [exact Hx|].
    split; [now rewrite Hx, Hy|].
    rewrite Hx, camera_4x3_f56_focal, camera_4x3_f56_spec_focal.
    destruct camera_4x3_f56_candidates as (H1 & H2 & H3 & H4 & H5).
    cbv zeta in *.
    eapply Rlt_le_trans.
    + apply std_max_lub_lt; [|apply std_max_lub_lt; [exact H4 | exact H5]].
      apply std_max_lub_lt; [|exact H3].
      apply std_max_lub_lt; [exact H1 | exact H2].
    + eapply Rle_trans; [|apply std_max_l].
      eapply Rle_trans; [|apply std_max_l]. apply std_max_r.
Qed.

(** ** [RectifyStereoCameras] *)

Lemma mat3_mul_Identity3_l m : mat3_mul Identity3 m = m.
Proof.
  destruct m as [[[[a b] c] [[d e] f]] [[g h] i]].
  unfold mat3_mul, transpose3, dot3, Identity3. mat_eq.
Qed.

Lemma mat3_mul_Identity3_r m : mat3_mul m Identity3 = m.
Proof.
  destruct m as [[[[a b] c] [[d e] f]] [[g h] i]].
  unfold mat3_mul, transpose3, dot3, Identity3. mat_eq.
Qed.

Lemma mat3_vec_Identity3 v : mat3_vec Identity3 v = v.
Proof.
  destruct v as [[a b] c].
  unfold mat3_vec, dot3, Identity3. mat_eq.
Qed.

Lemma transpose3_Identity3 : transpose3 Identity3 = Identity3.
Proof. reflexivity. Qed.

(** A calibration matrix times its inverse. *)
Lemma calibration_times_inverse f cx cy :
  f <> 0 ->
  let K : Matrix3d := ((f, 0, cx), (0, f, cy), (0, 0, 1)) in
  mat3_mul K (inverse3 K) = Identity3.
Proof.
  intros Hf K. unfold K, mat3_mul, inverse3, det3, transpose3, dot3, Identity3.
  cbv beta iota zeta. tuple_eq; field; exact Hf.
Qed.

(** The quaternion (1, 0, 0, 0) has no vector part: angle 0 about x. *)
Lemma AngleAxis_of_identity_quaternion :
  AngleAxis_of_quaternion (1, 0, 0, 0) = mkAngleAxis 0 (1, 0, 0).
Proof.
  unfold AngleAxis_of_quaternion, norm3, dot3.
  replace (0 * 0 + 0 * 0 + 0 * 0) with 0 by ring. rewrite sqrt_0.
  destruct (Rlt_dec 0 0) as [C | _]; [lra | reflexivity].
Qed.

(** A rotation by the angle 0 is the identity, whatever the axis. *)
Lemma toRotationMatrix_angle_0 ang ax :
  ang = 0 -> toRotationMatrix (mkAngleAxis ang ax) = Identity3.
Proof.
  intros ->. destruct ax as [[x y] z].
  unfold toRotationMatrix, scale3, Identity3. cbn [angle axis].
  rewrite sin_0, cos_0. mat_eq.
Qed.

(** A baseline along the x axis needs no correction: the rotation axis is
    the zero vector, whose norm is below [epsilon]. *)
Lemma XAxisCorrection_axis_aligned t0 :
  XAxisCorrection (t0, 0, 0) = Identity3.
Proof.
  unfold XAxisCorrection.
  assert (Hcross : forall s : R, norm3 (cross3 (t0, 0, 0) (s, 0, 0)) = 0).
  { intros s. unfold norm3, cross3, dot3.
    replace ((0 * 0 - 0 * 0) * (0 * 0 - 0 * 0)
             + (0 * s - t0 * 0) * (0 * s - t0 * 0)
             + (t0 * 0 - 0 * s) * (t0 * 0 - 0 * s)) with 0 by ring.
    apply sqrt_0. }
  assert (Heps : 0 < double_epsilon)
    by (unfold double_epsilon; apply Rinv_0_lt_compat, pow2_pos).
  assert (Hneg : scale3 (-1) (1, 0, 0) = (-1, 0, 0))
    by (unfold scale3; mat_eq).
  cbv zeta. rewrite Hneg.
  destruct (Rlt_dec (dot3 (t0, 0, 0) (1, 0, 0)) 0); rewrite Hcross;
    (destruct (Rlt_dec 0 double_epsilon); [reflexivity | lra]).
Qed.

Section RectifyProperties.

Variable M : CameraModels.

(** The disparity matrix as the code fills it, applied to a row vector. *)
Lemma DisparityMatrix_row K t x y d :
  let '((k00, k01, k02), (k10, k11, k12), (k20, k21, k22)) := K in
  let '(t0, t1, t2) := t in
  row_times_mat4 (x, y, d, 1) (DisparityMatrix K t)
  = (x - k12, y - k02, d + k00, d * (- 1 / t0)).
Proof.
  destruct K as [[[[a b] c] [[d' e] f]] [[g h] i]], t as [[t0 t1] t2].
  unfold row_times_mat4, DisparityMatrix. mat_eq.
Qed.

(** Two copies of a pinhole camera with focal length [f], no rotation and a
    baseline along the x axis: both homographies are the identity. *)
Lemma Rectify_identical_aligned camera f t0 :
  IsPinholeFamily M camera = true ->
  f <> 0 ->
  FocalLengthX camera = f ->
  (List.length (FocalLengthIdxs M (ModelId camera)) = 1%nat
   \/ FocalLengthY camera = f) ->
  RectifyStereoCameras M camera camera (1, 0, 0, 0) (t0, 0, 0)
  = Some (Identity3, Identity3,
          DisparityMatrix
            ((f, 0, PrincipalPointX camera),
             (0, f, PrincipalPointY camera),
             (0, 0, 1))
            (t0, 0, 0)).
Proof.
  intros Hpin Hf Hfx Hfy.
  unfold RectifyStereoCameras. rewrite Hpin. cbn [andb].
  rewrite AngleAxis_of_identity_quaternion. cbn [angle axis].
  rewrite toRotationMatrix_angle_0 by ring.
  rewrite transpose3_Identity3, mat3_vec_Identity3.
  rewrite XAxisCorrection_axis_aligned.
  rewrite !mat3_mul_Identity3_r, mat3_vec_Identity3.
  assert (HK : SharedCalibration M camera camera
               = ((f, 0, PrincipalPointX camera),
                  (0, f, PrincipalPointY camera),
                  (0, 0, 1))).
  { unfold SharedCalibration, MeanFocalLength, FocalLength.
    fold (FocalLengthX camera). rewrite Hfx.
    assert (Hmean : (if (List.length (FocalLengthIdxs M (ModelId camera))
                         =? 1)%nat
                     then f else (f + FocalLengthY camera) / 2) = f).
    { destruct Hfy as [H1 | H2].
      - now rewrite H1.
      - rewrite H2. destruct (_ =? _)%nat; lra. }
    rewrite Hmean.
    replace (std_min f f) with f
      by (unfold std_min; destruct (Rlt_dec f f); lra).
    tuple_eq; try reflexivity. field. }
  assert (HC : CalibrationMatrix M camera
               = ((f, 0, PrincipalPointX camera),
                  (0, f, PrincipalPointY camera),
                  (0, 0, 1))).
  { unfold CalibrationMatrix, FocalLength.
    fold (FocalLengthX camera). rewrite Hfx.
    destruct Hfy as [H1 | H2].
    - now rewrite H1.
    - rewrite H2. now destruct (_ =? _)%nat. }
  rewrite HK, HC.
  rewrite (calibration_times_inverse f _ _ Hf).
  reflexivity.
Qed.

(** C3: two identical pinhole cameras with focal length 500, no rotation
    (the quaternion (1, 0, 0, 0)) and the baseline (0.1, 0, 0): [H1] and
    [H2] are the identity and [Q(2, 3)] is -10. *)
Theorem RectifyStereoCameras_identical_cameras camera :
  IsPinholeFamily M camera = true ->
  FocalLengthX camera = 500 ->
  (List.length (FocalLengthIdxs M (ModelId camera)) = 1%nat
   \/ FocalLengthY camera = 500) ->
  exists Q,
    RectifyStereoCameras M camera camera (1, 0, 0, 0) (0.1, 0, 0)
    = Some (Identity3, Identity3, Q)
    /\ entry4 Q 2 3 = -10
    /\ XAxisCorrection (0.1, 0, 0) = Identity3.
Proof.
  intros Hpin Hfx Hfy.
  eexists. split; [|split].
  - apply (Rectify_identical_aligned camera 500 0.1); try assumption. lra.
  - unfold DisparityMatrix, entry4, coeff4. lra.
  - apply XAxisCorrection_axis_aligned.
Qed.

End RectifyProperties.

(** The statement of C3 at the 640x480 pinhole camera. *)
Lemma RectifyStereoCameras_identical_cameras_witness :
  exists Q,
    RectifyStereoCameras sample_models vga_camera vga_camera
      (1, 0, 0, 0) (0.1, 0, 0)
    = Some (Identity3, Identity3, Q)
    /\ entry4 Q 2 3 = -10
    /\ XAxisCorrection (0.1, 0, 0) = Identity3.
Proof.
  apply (RectifyStereoCameras_identical_cameras sample_models vga_camera).
  - reflexivity.
  - reflexivity.
  - right; reflexivity.
Defined.

(** C4, the code at a failing input: two copies of the 640x480 camera with
    the principal point (320, 240), no rotation and the baseline
    (0.1, 0, 0).  The row [x, y, d, 1] times [Q] is
    [x - 240, y - 320, d + 500, -10 d]: the vertical offset [K(1, 2)] is
    taken from x and the horizontal offset [K(0, 2)] from y, and the
    disparity enters the third component as well as the fourth. *)
Theorem DisparityMatrix_offsets_swapped :
  exists H1 H2 Q,
    RectifyStereoCameras sample_models vga_camera vga_camera
      (1, 0, 0, 0) (0.1, 0, 0) = Some (H1, H2, Q)
    /\ entry4 Q 3 0 = -240 /\ entry4 Q 3 1 = -320
    /\ entry4 Q 2 2 = 1
    /\ forall x y d,
         row_times_mat4 (x, y, d, 1) Q
         = (x - 240, y - 320, d + 500, -10 * d).
Proof.
  do 3 eexists. split.
  - apply (Rectify_identical_aligned sample_models vga_camera 500 0.1).
    + reflexivity.
    + lra.
    + reflexivity.
    + right; reflexivity.
  - unfold DisparityMatrix, entry4, coeff4.
    cbn [vga_camera pinhole_camera PrincipalPointX PrincipalPointY Params
         pp_x pp_y].
    repeat split; try lra.
    intros x y d. unfold row_times_mat4. tuple_eq; lra.
Qed.

(** ** Rotations about one axis and the correction of the baseline *)

(** The transpose of a rotation about an axis is the rotation by the
    opposite angle. *)
Lemma rot_transpose a n :
  transpose3 (toRotationMatrix (mkAngleAxis a n))
  = toRotationMatrix (mkAngleAxis (- a) n).
Proof.
  destruct n as [[x y] z].
  unfold toRotationMatrix, transpose3, scale3. cbn [angle axis].
  rewrite sin_neg, cos_neg. tuple_eq; ring.
Qed.

(** Two rotations about the same unit axis compose by adding the angles. *)
Lemma rot_compose a b n :
  dot3 n n = 1 ->
  mat3_mul (toRotationMatrix (mkAngleAxis a n))
           (toRotationMatrix (mkAngleAxis b n))
  = toRotationMatrix (mkAngleAxis (a + b) n).
Proof.
  destruct n as [[x y] z]. unfold dot3. intros Hn.
  unfold toRotationMatrix, mat3_mul, transpose3, dot3, scale3.
  cbn [angle axis]. rewrite sin_plus, cos_plus.
  generalize (sin a) (cos a) (sin b) (cos b). intros sa ca sb cb.
  cbv beta iota zeta. tuple_eq.
  all: nsatz.
Qed.

Lemma norm3_sq v : norm3 v * norm3 v = dot3 v v.
Proof.
  unfold norm3. apply sqrt_sqrt.
  destruct v as [[a b] c]. unfold dot3. nra.
Qed.

Lemma norm3_nonneg v : 0 <= norm3 v.
Proof. apply sqrt_pos. Qed.

(** With an off-axis part of at least [double_epsilon], the correction
    takes the baseline onto the x axis, on the side of its x component. *)
Lemma XAxisCorrection_nondegenerate a b c :
  double_epsilon <= sqrt (b * b + c * c) ->
  mat3_vec (XAxisCorrection (a, b, c)) (a, b, c)
  = ((if Rlt_dec a 0 then -1 else 1) * norm3 (a, b, c), 0, 0).
Proof.
  intros Hnd.
  assert (Heps : 0 < double_epsilon)
    by (unfold double_epsilon; apply Rinv_0_lt_compat, pow2_pos).
  set (rho := sqrt (b * b + c * c)) in *.
  assert (Hrho : rho * rho = b * b + c * c) by (apply sqrt_sqrt; nra).
  set (T := norm3 (a, b, c)).
  assert (HT : T * T = a * a + b * b + c * c)
    by (unfold T; rewrite norm3_sq; reflexivity).
  assert (HT0 : 0 <= T) by apply norm3_nonneg.
  assert (HTpos : 0 < T) by nra.
  assert (HaT : Rabs a <= T).
  { apply Rsqr_incr_0_var; [|lra]. rewrite <- Rsqr_abs. unfold Rsqr. nra. }
  unfold XAxisCorrection. cbv zeta. fold T.
  assert (Hdot : dot3 (a, b, c) (1, 0, 0) = a) by (unfold dot3; ring).
  rewrite Hdot.
  assert (Hneg : scale3 (-1) (1, 0, 0) = (-1, 0, 0))
    by (unfold scale3; tuple_eq; ring).
  rewrite Hneg.
  destruct (Rlt_dec a 0) as [Ha | Ha].
  - (* the unit vector is negated *)
    assert (Hcross : cross3 (a, b, c) (-1, 0, 0) = (0, - c, b))
      by (unfold cross3; tuple_eq; ring).
    assert (Hn : norm3 (0, - c, b) = rho).
    { unfold norm3, dot3, rho. f_equal. ring. }
    rewrite Hcross, Hn.
    destruct (Rlt_dec rho double_epsilon) as [C | _]; [lra|].
    assert (Hx : norm3 (-1, 0, 0) = 1).
    { unfold norm3, dot3. replace (-1 * -1 + 0 * 0 + 0 * 0) with 1 by ring.
      apply sqrt_1. }
    assert (Hd : dot3 (a, b, c) (-1, 0, 0) = - a) by (unfold dot3; ring).
    rewrite Hx, Hd, Rabs_Ropp.
    rewrite (Rabs_left a Ha) in *.
    set (u := - a / (T * 1)).
    assert (Hu : 0 <= u <= 1).
    { unfold u. replace (T * 1) with T by ring. split.
      - apply Rmult_le_pos; [lra | left; now apply Rinv_0_lt_compat].
      - apply (Rmult_le_reg_r T); [exact HTpos|].
        replace (- a / T * T) with (- a) by (field; lra). lra. }
    assert (Hcos : cos (acos u) = u) by (apply cos_acos; lra).
    assert (Hsin : sin (acos u) = rho / T).
    { rewrite sin_acos by lra.
      replace (1 - u²) with ((rho / T) * (rho / T)).
      - apply sqrt_square. apply Rmult_le_pos; [lra|].
        left; now apply Rinv_0_lt_compat.
      - unfold u, Rsqr.
        replace (rho / T * (rho / T)) with ((rho * rho) / (T * T))
          by (field; lra).
        replace (rho * rho) with (T * T - a * a) by lra.
        field; lra. }
    unfold normalized3.
    assert (Hdd : dot3 (0, - c, b) (0, - c, b) = rho * rho)
      by (unfold dot3; rewrite Hrho; ring).
    rewrite Hdd, Hn.
    destruct (Rlt_dec 0 (rho * rho)) as [_ | C]; [|nra].
    unfold toRotationMatrix, mat3_vec, scale3, dot3. cbn [angle axis].
    rewrite Hcos, Hsin. unfold u.
    assert (Hir : rho * / rho = 1) by (field; lra).
    assert (HiT : T * / T = 1) by (field; lra).
    unfold Rdiv. replace (/ (T * 1)) with (/ T) by (field; lra).
    generalize dependent (/ rho). generalize dependent (/ T).
    intros iT HiT ir Hir.
    tuple_eq; nsatz.
  - assert (Hcross : cross3 (a, b, c) (1, 0, 0) = (0, c, - b))
      by (unfold cross3; tuple_eq; ring).
    assert (Hn : norm3 (0, c, - b) = rho).
    { unfold norm3, dot3, rho. f_equal. ring. }
    rewrite Hcross, Hn.
    destruct (Rlt_dec rho double_epsilon) as [C | _]; [lra|].
    assert (Hx : norm3 (1, 0, 0) = 1).
    { unfold norm3, dot3. replace (1 * 1 + 0 * 0 + 0 * 0) with 1 by ring.
      apply sqrt_1. }
    rewrite Hx, Hdot.
    assert (Ha0 : 0 <= a) by lra.
    rewrite (Rabs_pos_eq a Ha0) in *.
    set (u := a / (T * 1)).
    assert (Hu : 0 <= u <= 1).
    { unfold u. replace (T * 1) with T by ring. split.
      - apply Rmult_le_pos; [lra | left; now apply Rinv_0_lt_compat].
      - apply (Rmult_le_reg_r T); [exact HTpos|].
        replace (a / T * T) with a by (field; lra). lra. }
    assert (Hcos : cos (acos u) = u) by (apply cos_acos; lra).
    assert (Hsin : sin (acos u) = rho / T).
    { rewrite sin_acos by lra.
      replace (1 - u²) with ((rho / T) * (rho / T)).
      - apply sqrt_square. apply Rmult_le_pos; [lra|].
        left; now apply Rinv_0_lt_compat.
      - unfold u, Rsqr.
        replace (rho / T * (rho / T)) with ((rho * rho) / (T * T))
          by (field; lra).
        replace (rho * rho) with (T * T - a * a) by lra.
        field; lra. }
    unfold normalized3.
    assert (Hdd : dot3 (0, c, - b) (0, c, - b) = rho * rho)
      by (unfold dot3; rewrite Hrho; ring).
    rewrite Hdd, Hn.
    destruct (Rlt_dec 0 (rho * rho)) as [_ | C]; [|nra].
    unfold toRotationMatrix, mat3_vec, scale3, dot3. cbn [angle axis].
    rewrite Hcos, Hsin. unfold u.
    assert (Hir : rho * / rho = 1) by (field; lra).
    assert (HiT : T * / T = 1) by (field; lra).
    unfold Rdiv. replace (/ (T * 1)) with (/ T) by (field; lra).
    generalize dependent (/ rho). generalize dependent (/ T).
    intros iT HiT ir Hir.
    tuple_eq; nsatz.
Qed.

(** ** The rotations of [RectifyStereoCameras] *)

(** [RectifyStereoCameras] is [RectifyRotations] under the calibration
    matrices. *)
Lemma RectifyStereoCameras_rotations M camera1 camera2 qvec tvec :
  RectifyStereoCameras M camera1 camera2 qvec tvec
  = if IsPinholeFamily M camera1 && IsPinholeFamily M camera2 then
      let '(R1, R2, t) := RectifyRotations qvec tvec in
      let K := SharedCalibration M camera1 camera2 in
      Some (mat3_mul (mat3_mul K R1) (inverse3 (CalibrationMatrix M camera1)),
            mat3_mul (mat3_mul K R2) (inverse3 (CalibrationMatrix M camera2)),
            DisparityMatrix K t)
    else None.
Proof. reflexivity. Qed.

Lemma mat3_mul_assoc A B C :
  mat3_mul (mat3_mul A B) C = mat3_mul A (mat3_mul B C).
Proof.
  destruct A as [[[[a1 a2] a3] [[a4 a5] a6]] [[a7 a8] a9]].
  destruct B as [[[[b1 b2] b3] [[b4 b5] b6]] [[b7 b8] b9]].
  destruct C as [[[[c1 c2] c3] [[c4 c5] c6]] [[c7 c8] c9]].
  unfold mat3_mul, transpose3, dot3. mat_eq.
Qed.

Lemma transpose3_mul A B :
  transpose3 (mat3_mul A B) = mat3_mul (transpose3 B) (transpose3 A).
Proof.
  destruct A as [[[[a1 a2] a3] [[a4 a5] a6]] [[a7 a8] a9]].
  destruct B as [[[[b1 b2] b3] [[b4 b5] b6]] [[b7 b8] b9]].
  unfold mat3_mul, transpose3, dot3. mat_eq.
Qed.

Lemma transpose3_involutive A : transpose3 (transpose3 A) = A.
Proof.
  destruct A as [[[[a1 a2] a3] [[a4 a5] a6]] [[a7 a8] a9]]. reflexivity.
Qed.

Lemma mat3_vec_mul A B v :
  mat3_vec (mat3_mul A B) v = mat3_vec A (mat3_vec B v).
Proof.
  destruct A as [[[[a1 a2] a3] [[a4 a5] a6]] [[a7 a8] a9]].
  destruct B as [[[[b1 b2] b3] [[b4 b5] b6]] [[b7 b8] b9]].
  destruct v as [[x y] z].
  unfold mat3_vec, mat3_mul, transpose3, dot3. mat_eq.
Qed.

(** A matrix whose transpose is its left inverse keeps lengths. *)
Lemma orthogonal_keeps_norm A v :
  mat3_mul (transpose3 A) A = Identity3 ->
  norm3 (mat3_vec A v) = norm3 v.
Proof.
  destruct A as [[[[a1 a2] a3] [[a4 a5] a6]] [[a7 a8] a9]].
  destruct v as [[x y] z].
  unfold mat3_mul, transpose3, dot3, Identity3. cbv beta iota zeta.
  intros H. injection H as H1 H2 H3 H4 H5 H6 H7 H8 H9.
  unfold norm3, mat3_vec, dot3. cbv beta iota zeta. f_equal. nsatz.
Qed.

Lemma normalized3_unit v :
  0 < dot3 v v -> dot3 (normalized3 v) (normalized3 v) = 1.
Proof.
  intros Hpos. unfold normalized3.
  destruct (Rlt_dec 0 (dot3 v v)) as [_ | C]; [|contradiction].
  assert (Hn : 0 < norm3 v) by (unfold norm3; now apply sqrt_lt_R0).
  pose proof (norm3_sq v) as Hs.
  destruct v as [[x y] z]. unfold scale3, dot3 in *.
  assert (Hi : norm3 (x, y, z) * / norm3 (x, y, z) = 1) by (field; lra).
  generalize dependent (/ norm3 (x, y, z)). intros i Hi.
  generalize dependent (norm3 (x, y, z)). intros n Hn Hs Hi.
  nsatz.
Qed.

Lemma rot_orthogonal a n :
  dot3 n n = 1 ->
  mat3_mul (toRotationMatrix (mkAngleAxis a n))
           (transpose3 (toRotationMatrix (mkAngleAxis a n))) = Identity3
  /\ mat3_mul (transpose3 (toRotationMatrix (mkAngleAxis a n)))
              (toRotationMatrix (mkAngleAxis a n)) = Identity3.
Proof.
  intros Hn. rewrite rot_transpose, !rot_compose by assumption.
  split; apply toRotationMatrix_angle_0; ring.
Qed.

Lemma AngleAxis_axis_unit q :
  dot3 (axis (AngleAxis_of_quaternion q)) (axis (AngleAxis_of_quaternion q))
  = 1.
Proof.
  destruct q as [[[w x] y] z]. unfold AngleAxis_of_quaternion.
  destruct (Rlt_dec 0 (norm3 (x, y, z))) as [Hn | Hn]; cbn [axis].
  - pose proof (norm3_sq (x, y, z)) as Hs. unfold dot3 in Hs.
    set (n := norm3 (x, y, z)) in *.
    destruct (Rlt_dec w 0).
    + assert (Hi : - n * / - n = 1) by (field; lra).
      unfold scale3, dot3. generalize dependent (/ - n). intros i Hi. nsatz.
    + assert (Hi : n * / n = 1) by (field; lra).
      unfold scale3, dot3. generalize dependent (/ n). intros i Hi. nsatz.
  - unfold dot3. ring.
Qed.

(** Below [double_epsilon] off the axis there is no correction. *)
Lemma XAxisCorrection_degenerate a b c :
  sqrt (b * b + c * c) < double_epsilon ->
  XAxisCorrection (a, b, c) = Identity3.
Proof.
  intros Hd. unfold XAxisCorrection. cbv zeta.
  assert (Hneg : scale3 (-1) (1, 0, 0) = (-1, 0, 0))
    by (unfold scale3; tuple_eq; ring).
  rewrite Hneg.
  assert (H1 : norm3 (cross3 (a, b, c) (-1, 0, 0)) = sqrt (b * b + c * c))
    by (unfold norm3, cross3, dot3; f_equal; ring).
  assert (H2 : norm3 (cross3 (a, b, c) (1, 0, 0)) = sqrt (b * b + c * c))
    by (unfold norm3, cross3, dot3; f_equal; ring).
  destruct (Rlt_dec (dot3 (a, b, c) (1, 0, 0)) 0).
  - rewrite H1. destruct (Rlt_dec _ double_epsilon); [reflexivity | lra].
  - rewrite H2. destruct (Rlt_dec _ double_epsilon); [reflexivity | lra].
Qed.

(** The correction is orthogonal in every case. *)
Lemma XAxisCorrection_is_rotation t :
  mat3_mul (XAxisCorrection t) (transpose3 (XAxisCorrection t)) = Identity3
  /\ mat3_mul (transpose3 (XAxisCorrection t)) (XAxisCorrection t)
     = Identity3.
Proof.
  destruct t as [[a b] c].
  destruct (Rlt_dec (sqrt (b * b + c * c)) double_epsilon) as [Hd | Hn].
  - rewrite (XAxisCorrection_degenerate a b c Hd).
    now rewrite transpose3_Identity3, mat3_mul_Identity3_l.
  - assert (Heps : 0 < double_epsilon)
      by (unfold double_epsilon; apply Rinv_0_lt_compat, pow2_pos).
    assert (Hrho : sqrt (b * b + c * c) * sqrt (b * b + c * c)
                   = b * b + c * c) by (apply sqrt_sqrt; nra).
    assert (Hpos : 0 < b * b + c * c) by nra.
    unfold XAxisCorrection. cbv zeta.
    assert (Hneg : scale3 (-1) (1, 0, 0) = (-1, 0, 0))
      by (unfold scale3; tuple_eq; ring).
    rewrite Hneg.
    assert (H1 : norm3 (cross3 (a, b, c) (-1, 0, 0)) = sqrt (b * b + c * c))
      by (unfold norm3, cross3, dot3; f_equal; ring).
    assert (H2 : norm3 (cross3 (a, b, c) (1, 0, 0)) = sqrt (b * b + c * c))
      by (unfold norm3, cross3, dot3; f_equal; ring).
    destruct (Rlt_dec (dot3 (a, b, c) (1, 0, 0)) 0).
    + rewrite H1. destruct (Rlt_dec _ double_epsilon); [lra|].
      apply rot_orthogonal, normalized3_unit.
      unfold cross3, dot3. nra.
    + rewrite H2. destruct (Rlt_dec _ double_epsilon); [lra|].
      apply rot_orthogonal, normalized3_unit.
      unfold cross3, dot3. nra.
Qed.

(** Two half rotations back undo the relative rotation. *)
Lemma HalfRotation_undoes_rotation q :
  mat3_mul (mat3_mul (HalfRotation q)
                     (toRotationMatrix (AngleAxis_of_quaternion q)))
           (HalfRotation q) = Identity3.
Proof.
  unfold HalfRotation. cbv zeta.
  pose proof (AngleAxis_axis_unit q) as Hu.
  destruct (AngleAxis_of_quaternion q) as [ang n]. cbn [angle axis] in *.
  rewrite !rot_compose by assumption.
  apply toRotationMatrix_angle_0. lra.
Qed.

(** X1: [RectifyStereoCameras] (lines 963-992) gives both cameras the same
    orientation.  With [R] the relative rotation of the quaternion (a point
    in the frame of camera 1 is at [R x] in the frame of camera 2) and
    [R1], [R2] the two rectifying rotations, [R2 R R1^T] is the identity:
    turning camera 1 by [R1] and camera 2 by [R2] leaves no rotation
    between them, for every quaternion and every baseline. *)
Theorem RectifyRotations_same_orientation qvec tvec :
  let '(R1, R2, t) := RectifyRotations qvec tvec in
  mat3_mul (mat3_mul R2 (toRotationMatrix (AngleAxis_of_quaternion qvec)))
           (transpose3 R1) = Identity3.
Proof.
  unfold RectifyRotations. cbv zeta.
  set (Rh := HalfRotation qvec).
  set (Rx := XAxisCorrection (mat3_vec Rh tvec)).
  rewrite transpose3_mul, transpose3_involutive.
  set (Rq := toRotationMatrix (AngleAxis_of_quaternion qvec)).
  rewrite !mat3_mul_assoc.
  assert (Hh : forall X, mat3_mul Rh (mat3_mul Rq (mat3_mul Rh X)) = X).
  { intros X. rewrite <- !mat3_mul_assoc.
    unfold Rh, Rq. rewrite HalfRotation_undoes_rotation.
    apply mat3_mul_Identity3_l. }
  rewrite Hh. apply XAxisCorrection_is_rotation.
Qed.

Lemma double_epsilon_pos : 0 < double_epsilon.
Proof. unfold double_epsilon. apply Rinv_0_lt_compat, pow2_pos. Qed.

Lemma double_epsilon_le_1 : double_epsilon <= 1.
Proof.
  unfold double_epsilon. rewrite <- Rinv_1.
  apply Rinv_le_contravar; [lra | apply pow_R1_Rle; lra].
Qed.

(** X2: the baseline after the correction of lines 971-993, in exact
    arithmetic.  For [t = (a, b, c)] with an off-axis part
    [sqrt (b^2 + c^2)] of at least [double_epsilon], [R_x t] is on the x
    axis: it is [(|t|, 0, 0)], or [(-|t|, 0, 0)] when [a] is negative, so a
    baseline that points backwards is not turned forwards.  Below
    [double_epsilon] the correction is skipped and [t] is left as it is,
    off-axis part included.  The rounding of the computation in doubles is
    not part of the statement. *)
Theorem XAxisCorrection_aligns_baseline a b c :
  (double_epsilon <= sqrt (b * b + c * c) ->
   mat3_vec (XAxisCorrection (a, b, c)) (a, b, c)
   = ((if Rlt_dec a 0 then -1 else 1) * norm3 (a, b, c), 0, 0))
  /\ (sqrt (b * b + c * c) < double_epsilon ->
      XAxisCorrection (a, b, c) = Identity3
      /\ mat3_vec (XAxisCorrection (a, b, c)) (a, b, c) = (a, b, c)).
Proof.
  split.
  - apply XAxisCorrection_nondegenerate.
  - intros Hd. rewrite (XAxisCorrection_degenerate a b c Hd).
    split; [reflexivity | apply mat3_vec_Identity3].
Qed.

(** The statement of X2 for the baseline (-3, 4, 0), of length 5. *)
Lemma XAxisCorrection_aligns_baseline_witness :
  mat3_vec (XAxisCorrection (-3, 4, 0)) (-3, 4, 0) = (-5, 0, 0).
Proof.
  destruct (XAxisCorrection_aligns_baseline (-3) 4 0) as [H _].
  rewrite H.
  - destruct (Rlt_dec (-3) 0) as [_ | C]; [|lra].
    assert (Hn : norm3 (-3, 4, 0) = 5).
    { unfold norm3, dot3.
      replace (-3 * -3 + 4 * 4 + 0 * 0) with (5 * 5) by ring.
      apply sqrt_square; lra. }
    rewrite Hn. apply (f_equal2 (@pair _ _)); [|reflexivity].
    apply (f_equal2 (@pair _ _)); [ring | reflexivity].
  - replace (4 * 4 + 0 * 0) with (4 * 4) by ring.
    rewrite sqrt_square by lra.
    pose proof double_epsilon_le_1. lra.
Defined.

(** The half rotation is orthogonal. *)
Lemma HalfRotation_is_rotation q :
  mat3_mul (transpose3 (HalfRotation q)) (HalfRotation q) = Identity3.
Proof.
  unfold HalfRotation. cbv zeta.
  apply rot_orthogonal. cbn [axis]. apply AngleAxis_axis_unit.
Qed.

(** X3: the disparity coefficient of [Q] (line 1013).  For two cameras of a
    pinhole kind and a half-rotated baseline [(a, b, c)] at least
    [double_epsilon] off the x axis, [RectifyStereoCameras] returns, and
    [Q(2, 3)] is one over the length of [tvec] in absolute value, negative
    exactly when [a] is not negative. *)
Theorem RectifyStereoCameras_disparity_coefficient M camera1 camera2
    qvec tvec a b c :
  IsPinholeFamily M camera1 = true ->
  IsPinholeFamily M camera2 = true ->
  mat3_vec (HalfRotation qvec) tvec = (a, b, c) ->
  double_epsilon <= sqrt (b * b + c * c) ->
  exists H1 H2 Q,
    RectifyStereoCameras M camera1 camera2 qvec tvec = Some (H1, H2, Q)
    /\ Rabs (entry4 Q 2 3) = 1 / norm3 tvec
    /\ (entry4 Q 2 3 < 0 <-> 0 <= a).
Proof.
  intros Hp1 Hp2 Ht Hnd.
  rewrite RectifyStereoCameras_rotations, Hp1, Hp2. cbn [andb].
  unfold RectifyRotations. cbv zeta. rewrite Ht.
  rewrite (XAxisCorrection_nondegenerate a b c Hnd).
  do 3 eexists. split; [reflexivity|].
  pose proof (orthogonal_keeps_norm (HalfRotation qvec) tvec
                (HalfRotation_is_rotation qvec)) as Hlen.
  rewrite Ht in Hlen. rewrite <- Hlen.
  set (T := norm3 (a, b, c)).
  assert (HT : 0 < T).
  { pose proof double_epsilon_pos.
    assert (Hs : sqrt (b * b + c * c) * sqrt (b * b + c * c)
                 = b * b + c * c) by (apply sqrt_sqrt; nra).
    pose proof (norm3_sq (a, b, c)) as Hq. unfold dot3 in Hq. fold T in Hq.
    pose proof (norm3_nonneg (a, b, c)) as H0. fold T in H0. nra. }
  assert (HiT : 0 < / T) by now apply Rinv_0_lt_compat.
  destruct (SharedCalibration M camera1 camera2)
    as [[[[k00 k01] k02] [[k10 k11] k12]] [[k20 k21] k22]].
  unfold DisparityMatrix, entry4, coeff4.
  destruct (Rlt_dec a 0) as [Ha | Ha].
  - replace (- 1 / (-1 * T)) with (/ T) by (field; lra).
    rewrite Rabs_pos_eq by lra. split; [unfold Rdiv; ring|].
    split; intros; lra.
  - replace (- 1 / (1 * T)) with (- / T) by (field; lra).
    rewrite Rabs_Ropp, Rabs_pos_eq by lra. split; [unfold Rdiv; ring|].
    split; intros; lra.
Qed.

(** The statement of X3 for two copies of the 640x480 camera, no rotation
    and the baseline (0, 1, 0). *)
Lemma RectifyStereoCameras_disparity_coefficient_witness :
  exists H1 H2 Q,
    RectifyStereoCameras sample_models vga_camera vga_camera
      (1, 0, 0, 0) (0, 1, 0) = Some (H1, H2, Q)
    /\ Rabs (entry4 Q 2 3) = 1 / norm3 (0, 1, 0)
    /\ (entry4 Q 2 3 < 0 <-> 0 <= 0).
Proof.
  apply (RectifyStereoCameras_disparity_coefficient sample_models
           vga_camera vga_camera (1, 0, 0, 0) (0, 1, 0) 0 1 0).
  - reflexivity.
  - reflexivity.
  - unfold HalfRotation. rewrite AngleAxis_of_identity_quaternion.
    cbn [angle axis]. rewrite toRotationMatrix_angle_0 by ring.
    apply mat3_vec_Identity3.
  - replace (1 * 1 + 0 * 0) with 1 by ring. rewrite sqrt_1.
    apply double_epsilon_le_1.
Defined.

Lemma HalfRotation_right_inverse q :
  mat3_mul (HalfRotation q) (transpose3 (HalfRotation q)) = Identity3.
Proof.
  unfold HalfRotation. cbv zeta.
  apply rot_orthogonal. cbn [axis]. apply AngleAxis_axis_unit.
Qed.

(** X4: the two rectifying rotations of [RectifyStereoCameras] (lines
    963-993) are orthogonal matrices, and the baseline [t] that enters [Q]
    has the length of [tvec], for every quaternion and every baseline. *)
Theorem RectifyRotations_orthogonal qvec tvec :
  let '(R1, R2, t) := RectifyRotations qvec tvec in
  mat3_mul (transpose3 R1) R1 = Identity3
  /\ mat3_mul (transpose3 R2) R2 = Identity3
  /\ norm3 t = norm3 tvec.
Proof.
  unfold RectifyRotations. cbv zeta.
  pose proof (HalfRotation_is_rotation qvec) as Hh.
  pose proof (HalfRotation_right_inverse qvec) as Hh'.
  set (Rh := HalfRotation qvec) in *.
  destruct (XAxisCorrection_is_rotation (mat3_vec Rh tvec)) as [Hx' Hx].
  set (Rx := XAxisCorrection (mat3_vec Rh tvec)) in *.
  assert (Hmid : forall A X, mat3_mul (transpose3 Rx) Rx = Identity3 ->
            mat3_mul A (mat3_mul (transpose3 Rx) (mat3_mul Rx X))
            = mat3_mul A X).
  { intros A X H. rewrite <- (mat3_mul_assoc (transpose3 Rx)), H.
    now rewrite mat3_mul_Identity3_l. }
  split; [|split].
  - rewrite transpose3_mul, transpose3_involutive, mat3_mul_assoc.
    rewrite Hmid by exact Hx. exact Hh'.
  - rewrite transpose3_mul, mat3_mul_assoc.
    rewrite Hmid by exact Hx. exact Hh.
  - rewrite (orthogonal_keeps_norm Rx _ Hx).
    apply orthogonal_keeps_norm. exact Hh.
Qed.

(** ** [UndistortCamera]: failures, focal lengths, the size cap, the march
       and the borders *)

Section UndistortCameraProperties.

Variable M : CameraModels.

(** X5: the inputs [UndistortCamera] (lines 659-914) fails on, exactly: a
    configuration that one of the [CHECK]s of lines 661-671 refuses; an
    override whose parameters [VerifyParams] refuses for the camera of the
    override's kind (line 684); or, with no override and the flag off, a
    source kind with more than two focal-length parameters (line 779). *)
Theorem UndistortCamera_fails_exactly options camera :
  UndistortCamera M options camera = None
  <-> CheckOptions options = false
      \/ (camera_model_override options <> EmptyString
          /\ VerifyParams M
               (SetParamsFromString M (camera_model_override_params options)
                  (SetModelId
                     (CameraModelNameToId M (camera_model_override options))
                     (InitialCamera M camera))) = false)
      \/ (camera_model_override options = EmptyString
          /\ estimate_focal_length_from_fov options = false
          /\ (2 < List.length (FocalLengthIdxs M (ModelId camera)))%nat).
Proof.
  unfold UndistortCamera, OverrideCamera. cbv zeta.
  destruct (CheckOptions options); [|split; [now left | reflexivity]].
  destruct (camera_model_override options) as [|ch rest] eqn:E.
  - change (0 <? String.length EmptyString)%nat with false. cbv iota.
    destruct (ValidDomain M options camera) as [[pp half] radius].
    unfold SetFocalLengths.
    destruct (estimate_focal_length_from_fov options).
    + split; [discriminate|].
      intros [H | [[H _] | (_ & H & _)]]; try discriminate. now elim H.
    + destruct (List.length (FocalLengthIdxs M (ModelId camera)) <=? 2)%nat
        eqn:El.
      * apply Nat.leb_le in El. split.
        -- destruct (List.length _ =? 1)%nat;
             [|destruct (List.length _ =? 2)%nat]; discriminate.
        -- intros [H | [[H _] | (_ & _ & H)]];
             [discriminate | now elim H | lia].
      * apply Nat.leb_gt in El. split; [|reflexivity].
        intros _. right; right. repeat split. exact El.
  - change (0 <? String.length (String ch rest))%nat with true. cbv iota.
    destruct (VerifyParams M _) eqn:Ev.
    + split; [discriminate|].
      intros [H | [[_ H] | [H _]]]; discriminate.
    + split; [|reflexivity]. intros _. right; left.
      split; [discriminate | reflexivity].
Qed.

(** X6: with no override, the flag off and an unbounded size,
    [UndistortCamera] returns the focal lengths of the source camera,
    whatever its kind and whatever the scale step does to the size (a single
    focal length in both places), and the principal point of the source
    moved in proportion to the new width and height (lines 774-786 and
    880-896). *)
Theorem UndistortCamera_keeps_focal_length options camera uc :
  UndistortCamera M options camera = Some uc ->
  camera_model_override options = EmptyString ->
  estimate_focal_length_from_fov options = false ->
  (max_image_size options < 0)%Z ->
  (1 <= Width camera)%Z -> (1 <= Height camera)%Z ->
  (List.length (FocalLengthIdxs M (ModelId camera)) = 1%nat ->
   FocalLengthX uc = FocalLength camera
   /\ FocalLengthY uc = FocalLength camera)
  /\ (List.length (FocalLengthIdxs M (ModelId camera)) = 2%nat ->
      FocalLengthX uc = FocalLengthX camera
      /\ FocalLengthY uc = FocalLengthY camera)
  /\ PrincipalPointX uc
     = PrincipalPointX camera * IZR (Width uc) / IZR (Width camera)
  /\ PrincipalPointY uc
     = PrincipalPointY camera * IZR (Height uc) / IZR (Height camera).
Proof.
  intros Hrun Hover Hest Hneg Hw Hh.
  unfold UndistortCamera in Hrun.
  destruct (CheckOptions options); [|discriminate].
  rewrite Hover in Hrun.
  change (0 <? String.length EmptyString)%nat with false in Hrun.
  cbv iota in Hrun.
  destruct (ValidDomain M options camera) as [[pp half] radius].
  unfold SetFocalLengths in Hrun. rewrite Hest in Hrun.
  apply IZR_le in Hw, Hh.
  assert (Hx : forall v, v * IZR (Width camera) / IZR (Width camera) = v)
    by (intros v; field; lra).
  assert (Hy : forall v, v * IZR (Height camera) / IZR (Height camera) = v)
    by (intros v; field; lra).
  destruct (List.length (FocalLengthIdxs M (ModelId camera)) <=? 2)%nat;
    [|discriminate].
  destruct (List.length (FocalLengthIdxs M (ModelId camera)) =? 1)%nat eqn:E1;
    [|destruct (List.length (FocalLengthIdxs M (ModelId camera)) =? 2)%nat
        eqn:E2];
    (destruct (negb (IsPinholeFamily M camera));
     rewrite LimitImageSize_unbounded in Hrun by assumption;
     injection Hrun as <-;
     (split; [intros H1; try (rewrite H1 in E1; discriminate);
              try (rewrite H1 in E2; discriminate); split; reflexivity|]);
     (split; [intros H2; try (rewrite H2 in E1; discriminate);
              try (rewrite H2 in E2; discriminate); split; reflexivity|]);
     split; try reflexivity;
     cbn [InitialCamera PrincipalPointX PrincipalPointY Width Height Params
          SetPrincipalPointX SetPrincipalPointY SetFocalLengthX
          SetFocalLengthY SetParams SetWidth SetHeight SetModelId pp_x pp_y];
     (rewrite Hx || rewrite Hy); reflexivity).
Qed.

Lemma div_le_div_denominator a b c :
  0 <= a -> 0 < b -> b <= c -> a / c <= a / b.
Proof.
  intros Ha Hb Hbc. unfold Rdiv. apply Rmult_le_compat_l; [assumption|].
  apply Rinv_le_contravar; assumption.
Qed.

(** X7: the size cap (lines 899-911).  With a positive [max_image_size]
    below the larger of width and height, the camera is rescaled once, by
    [max_image_size] over that larger dimension; the factor is below 1 and
    takes the width and the height within [max_image_size]. *)
Theorem LimitImageSize_rescales_to_fit options uc :
  (0 < max_image_size options)%Z ->
  (1 <= Width uc)%Z -> (1 <= Height uc)%Z ->
  (max_image_size options < Z.max (Width uc) (Height uc))%Z ->
  let scale :=
    IZR (max_image_size options) / IZR (Z.max (Width uc) (Height uc)) in
  LimitImageSize M options uc = Rescale M scale uc
  /\ 0 < scale < 1
  /\ scale * IZR (Width uc) <= IZR (max_image_size options)
  /\ scale * IZR (Height uc) <= IZR (max_image_size options).
Proof.
  intros Hpos Hw Hh Hbig scale.
  assert (Hm : 0 < IZR (max_image_size options)) by now apply IZR_lt.
  assert (HW : 1 <= IZR (Width uc)) by now apply IZR_le.
  assert (HH : 1 <= IZR (Height uc)) by now apply IZR_le.
  assert (Hmax : 1 <= IZR (Z.max (Width uc) (Height uc)))
    by (apply IZR_le; lia).
  assert (HmW : IZR (Width uc) <= IZR (Z.max (Width uc) (Height uc)))
    by (apply IZR_le; lia).
  assert (HmH : IZR (Height uc) <= IZR (Z.max (Width uc) (Height uc)))
    by (apply IZR_le; lia).
  apply IZR_lt in Hbig.
  assert (Hmin : std_min
                   (IZR (max_image_size options) / IZR (Width uc))
                   (IZR (max_image_size options) / IZR (Height uc))
                 = scale).
  { unfold scale, std_min.
    destruct (Z.max_spec (Width uc) (Height uc)) as [[Hlt ->] | [Hle ->]].
    - assert (IZR (Width uc) <= IZR (Height uc)) by (apply IZR_le; lia).
      pose proof (div_le_div_denominator (IZR (max_image_size options))
                    (IZR (Width uc)) (IZR (Height uc))).
      destruct (Rlt_dec _ _); lra.
    - assert (IZR (Height uc) <= IZR (Width uc)) by (apply IZR_le; lia).
      pose proof (div_le_div_denominator (IZR (max_image_size options))
                    (IZR (Height uc)) (IZR (Width uc))).
      destruct (Rlt_dec _ _); lra. }
  assert (Hs : 0 < scale < 1).
  { unfold scale. split.
    - apply Rdiv_lt_0_compat; lra.
    - apply (Rmult_lt_reg_r (IZR (Z.max (Width uc) (Height uc)))); [lra|].
      replace (IZR (max_image_size options)
               / IZR (Z.max (Width uc) (Height uc))
               * IZR (Z.max (Width uc) (Height uc)))
        with (IZR (max_image_size options)) by (field; lra).
      lra. }
  assert (Hfit : forall d, 0 <= d ->
             d <= IZR (Z.max (Width uc) (Height uc)) ->
             scale * d <= IZR (max_image_size options)).
  { intros d Hd0 Hd.
    replace (IZR (max_image_size options))
      with (scale * IZR (Z.max (Width uc) (Height uc)))
      by (unfold scale; field; lra).
    apply Rmult_le_compat_l; lra. }
  split; [|split; [exact Hs | split; apply Hfit; lra]].
  unfold LimitImageSize.
  replace (0 <? max_image_size options)%Z with true
    by (symmetry; apply Z.ltb_lt; assumption).
  rewrite Hmin. destruct (Rlt_dec scale 1); [reflexivity | lra].
Qed.

(** The march from round [i] on ends with the last round it accepts. *)
Lemma RadiusMarch_first_violation camera pp corner_dir max_radius max_fov :
  forall fuel i half radius,
    max_radius <= IZR (i + Z.of_nat fuel) ->
    exists j,
      (i - 1 <= j)%Z
      /\ (forall k, (i <= k <= j)%Z ->
            MarchAccepts M camera pp corner_dir max_radius max_fov
              (if (k =? i)%Z then half
               else MarchAngle M camera pp corner_dir (k - 1)) k)
      /\ ~ MarchAccepts M camera pp corner_dir max_radius max_fov
             (if (j + 1 =? i)%Z then half
              else MarchAngle M camera pp corner_dir j) (j + 1)
      /\ RadiusMarch M camera pp corner_dir max_radius max_fov fuel i
           half radius
         = if (j =? i - 1)%Z then (half, radius)
           else (MarchAngle M camera pp corner_dir j, IZR j).
Proof.
  assert (Hstop : forall i half radius out,
            ~ MarchAccepts M camera pp corner_dir max_radius max_fov half i ->
            out = (half, radius) ->
            exists j,
              (i - 1 <= j)%Z
              /\ (forall k, (i <= k <= j)%Z ->
                    MarchAccepts M camera pp corner_dir max_radius max_fov
                      (if (k =? i)%Z then half
                       else MarchAngle M camera pp corner_dir (k - 1)) k)
              /\ ~ MarchAccepts M camera pp corner_dir max_radius max_fov
                     (if (j + 1 =? i)%Z then half
                      else MarchAngle M camera pp corner_dir j) (j + 1)
              /\ out = if (j =? i - 1)%Z then (half, radius)
                       else (MarchAngle M camera pp corner_dir j, IZR j)).
  { intros i half radius out Hno ->. exists (i - 1)%Z.
    replace (i - 1 + 1)%Z with i by lia.
    rewrite !Z.eqb_refl.
    split; [lia|]. split; [intros k Hk; lia|].
    split; [exact Hno | reflexivity]. }
  induction fuel as [|f IH]; intros i half radius Hfuel.
  - apply Hstop; [|reflexivity].
    rewrite Z.add_0_r in Hfuel. intros (H & _). lra.
  - rewrite RadiusMarch_S.
    destruct (Rlt_dec (IZR i) max_radius) as [Hi | Hi];
      [|apply Hstop; [intros (H & _); lra | reflexivity]].
    cbv zeta. fold (MarchAngle M camera pp corner_dir i).
    destruct (Rleb (MarchAngle M camera pp corner_dir i) half) eqn:E1.
    { apply Rleb_true in E1.
      apply Hstop; [intros (_ & H & _); lra | reflexivity]. }
    destruct (Rltb max_fov (2 * MarchAngle M camera pp corner_dir i)) eqn:E2.
    { apply Rltb_true in E2.
      apply Hstop; [intros (_ & _ & H); lra | reflexivity]. }
    cbn [orb]. apply Rleb_false in E1. apply Rltb_false in E2.
    destruct (IH (i + 1)%Z (MarchAngle M camera pp corner_dir i) (IZR i))
      as (j & Hij & Hacc & Hno & Hout).
    { replace (i + 1 + Z.of_nat f)%Z with (i + Z.of_nat (S f))%Z by lia.
      exact Hfuel. }
    replace (i + 1 - 1)%Z with i in * by lia.
    exists j. split; [lia|]. split; [|split].
    + intros k Hk. destruct (Z.eqb_spec k i) as [-> | Hne].
      * repeat split; assumption.
      * specialize (Hacc k ltac:(lia)). revert Hacc.
        destruct (Z.eqb_spec k (i + 1)) as [Heq | Hne']; intros Hacc;
          [replace (k - 1)%Z with i by lia|]; exact Hacc.
    + destruct (Z.eqb_spec (j + 1) i) as [Habs | _]; [lia|].
      revert Hno.
      destruct (Z.eqb_spec (j + 1) (i + 1)) as [Heq | _]; intros Hno;
        [|exact Hno].
      assert (Hji : j = i) by lia. rewrite Hji in *. exact Hno.
    + rewrite Hout.
      destruct (Z.eqb_spec j (i - 1)) as [Habs | _]; [lia|].
      destruct (Z.eqb_spec j i) as [Heq | _]; [rewrite Heq|]; reflexivity.
Qed.

(** X8: the march of lines 716-724 stops at the first round that is not
    accepted.  There is a [j >= 0] such that the rounds 1 .. [j] all run
    without break and round [j + 1] does not; [max_valid_radius] is then [j]
    and the half angle of the block the angle of round [j], and with
    [j = 0] both keep their initial values (0 and the image diagonal).
    Later accepted radii are never reached. *)
Theorem MarchFromCorner_stops_at_first_violation camera principal_point
    max_fov :
  let far := FarthestCorner (corners camera) principal_point in
  let accepts :=
    fun k : Z =>
      MarchAccepts M camera principal_point (snd far) (fst far) max_fov
        (if (k =? 1)%Z then 0
         else MarchAngle M camera principal_point (snd far) (k - 1)) k in
  exists j,
    (0 <= j)%Z
    /\ (forall k, (1 <= k <= j)%Z -> accepts k)
    /\ ~ accepts (j + 1)%Z
    /\ MarchFromCorner M camera principal_point max_fov
       = if (j =? 0)%Z then (0, norm (image_size camera))
         else (MarchAngle M camera principal_point (snd far) j, IZR j).
Proof.
  intros far accepts. unfold MarchFromCorner. fold far.
  destruct (RadiusMarch_first_violation camera principal_point (snd far)
              (fst far) max_fov (march_fuel (fst far)) 1 0
              (norm (image_size camera)) (march_fuel_enough (fst far)))
    as (j & Hj & Hacc & Hno & Hout).
  exists j. split; [lia|]. split; [exact Hacc|]. split.
  - unfold accepts. destruct (Z.eqb_spec (j + 1) 1) as [E | E].
    + exact Hno.
    + replace (j + 1 - 1)%Z with j by lia. exact Hno.
  - exact Hout.
Qed.

Lemma index_range_In n y : In y (index_range n) <-> (0 <= y < n)%Z.
Proof.
  unfold index_range. rewrite in_map_iff. split.
  - intros (k & <- & Hk). apply in_seq in Hk. lia.
  - intros Hy. exists (Z.to_nat y). split; [lia|]. apply in_seq. lia.
Qed.

(** The fold of lines 804-822 (and 833-851) keeps the four running extrema
    of two sequences. *)
Lemma extrema_fold (g h : Z -> R) : forall l a0 b0 c0 d0,
  let '(a, b, c, d) :=
    fold_left
      (fun (st : R * R * R * R) (y : Z) =>
         let '(a, b, c, d) := st in
         (std_min a (g y), std_max b (g y),
          std_min c (h y), std_max d (h y)))
      l (a0, b0, c0, d0) in
  (a <= a0 /\ b0 <= b /\ c <= c0 /\ d0 <= d)
  /\ (forall y, In y l -> a <= g y <= b /\ c <= h y <= d)
  /\ (a = a0 \/ exists y, In y l /\ a = g y)
  /\ (b = b0 \/ exists y, In y l /\ b = g y)
  /\ (c = c0 \/ exists y, In y l /\ c = h y)
  /\ (d = d0 \/ exists y, In y l /\ d = h y).
Proof.
  induction l as [|y l IH]; intros a0 b0 c0 d0.
  - cbn [fold_left]. repeat split; try lra; try (now left).
    all: intros y [].
  - cbn [fold_left].
    specialize (IH (std_min a0 (g y)) (std_max b0 (g y))
                   (std_min c0 (h y)) (std_max d0 (h y))).
    destruct (fold_left _ l _) as [[[a b] c] d].
    destruct IH as ((A & B & C & D) & Hall & Ha & Hb & Hc & Hd).
    pose proof (std_min_l a0 (g y)). pose proof (std_min_r a0 (g y)).
    pose proof (std_max_l b0 (g y)). pose proof (std_max_r b0 (g y)).
    pose proof (std_min_l c0 (h y)). pose proof (std_min_r c0 (h y)).
    pose proof (std_max_l d0 (h y)). pose proof (std_max_r d0 (h y)).
    split; [repeat split; lra|]. split.
    { intros z [<- | Hz]; [lra | now apply Hall]. }
    assert (Hmin : forall u v, std_min u v = u \/ std_min u v = v)
      by (intros u v; unfold std_min; destruct (Rlt_dec v u); auto).
    assert (Hmax : forall u v, std_max u v = u \/ std_max u v = v)
      by (intros u v; unfold std_max; destruct (Rlt_dec u v); auto).
    repeat split.
    + destruct Ha as [-> | (z & Hz & ->)].
      * destruct (Hmin a0 (g y)) as [-> | ->]; [now left|].
        right; exists y; split; [now left | reflexivity].
      * right; exists z; split; [now right | reflexivity].
    + destruct Hb as [-> | (z & Hz & ->)].
      * destruct (Hmax b0 (g y)) as [-> | ->]; [now left|].
        right; exists y; split; [now left | reflexivity].
      * right; exists z; split; [now right | reflexivity].
    + destruct Hc as [-> | (z & Hz & ->)].
      * destruct (Hmin c0 (h y)) as [-> | ->]; [now left|].
        right; exists y; split; [now left | reflexivity].
      * right; exists z; split; [now right | reflexivity].
    + destruct Hd as [-> | (z & Hz & ->)].
      * destruct (Hmax d0 (h y)) as [-> | ->]; [now left|].
        right; exists y; split; [now left | reflexivity].
      * right; exists z; split; [now right | reflexivity].
Qed.

Lemma extrema_fold_over (g h : Z -> R) n :
  let '(a, b, c, d) :=
    fold_left
      (fun (st : R * R * R * R) (y : Z) =>
         let '(a, b, c, d) := st in
         (std_min a (g y), std_max b (g y),
          std_min c (h y), std_max d (h y)))
      (index_range n) (double_max, double_lowest, double_max, double_lowest)
  in ExtremaOver g n a b /\ ExtremaOver h n c d.
Proof.
  pose proof (extrema_fold g h (index_range n)
                double_max double_lowest double_max double_lowest) as H.
  destruct (fold_left _ (index_range n) _) as [[[a b] c] d].
  destruct H as (_ & Hall & Ha & Hb & Hc & Hd).
  assert (Hex : forall (f : Z -> R) v,
            (exists y, In y (index_range n) /\ v = f y) ->
            exists y, (0 <= y < n)%Z /\ v = f y).
  { intros f v (y & Hy & E). exists y. split; [now apply index_range_In|].
    exact E. }
  split; (split; [intros y Hy; apply Hall, index_range_In, Hy|]).
  - split; [destruct Ha as [E | E] | destruct Hb as [E | E]]; auto.
  - split; [destruct Hc as [E | E] | destruct Hd as [E | E]]; auto.
Qed.

(** X9: the eight border values of lines 795-853.  Over the rows, the four
    values are the minimum and the maximum of the x coordinate of the
    undistorted left and right border points, and over the columns those of
    the y coordinate of the top and bottom border points; a camera with no
    row (no column) leaves the sentinels [double_max] and
    [double_lowest]. *)
Theorem Borders_are_extrema camera undistorted_camera principal_point
    max_valid_radius max_valid_fov_half max_horizontal_fov max_vertical_fov :
  let probe :=
    UndistortBorderPoint M camera undistorted_camera principal_point
      max_valid_radius max_valid_fov_half max_horizontal_fov
      max_vertical_fov in
  (let '(left_min_x, left_max_x, right_min_x, right_max_x) :=
     RowBorders M camera undistorted_camera principal_point max_valid_radius
       max_valid_fov_half max_horizontal_fov max_vertical_fov in
   ExtremaOver (fun y => vx (probe (0.5, IZR y + 0.5)))
     (Height camera) left_min_x left_max_x
   /\ ExtremaOver
        (fun y => vx (probe (IZR (Width camera) - 0.5, IZR y + 0.5)))
        (Height camera) right_min_x right_max_x)
  /\ (let '(top_min_y, top_max_y, bottom_min_y, bottom_max_y) :=
        ColumnBorders M camera undistorted_camera principal_point
          max_valid_radius max_valid_fov_half max_horizontal_fov
          max_vertical_fov in
      ExtremaOver (fun x => vy (probe (IZR x + 0.5, 0.5)))
        (Width camera) top_min_y top_max_y
      /\ ExtremaOver
           (fun x => vy (probe (IZR x + 0.5, IZR (Height camera) - 0.5)))
           (Width camera) bottom_min_y bottom_max_y).
Proof.
  intros probe. split.
  - apply (extrema_fold_over
             (fun y => vx (probe (0.5, IZR y + 0.5)))
             (fun y => vx (probe (IZR (Width camera) - 0.5, IZR y + 0.5)))
             (Height camera)).
  - apply (extrema_fold_over
             (fun x => vy (probe (IZR x + 0.5, 0.5)))
             (fun x => vy (probe (IZR x + 0.5, IZR (Height camera) - 0.5)))
             (Width camera)).
Qed.

(** X10: [SelectPointOnRay] (lines 120-147) stops short of the end of its
    range.  For [max_length >= 0] the distance of the returned point from
    the origin is at most [(1 - 1/2^32)] of the range
    [min(max_length, |target - origin|)]: on a ray of positive length the
    target itself is never returned, however valid it is. *)
Theorem SelectPointOnRay_stops_short camera origin target max_length
    max_angle max_horizontal_angle max_vertical_angle :
  0 <= max_length ->
  let range := std_min max_length (norm (vsub target origin)) in
  let distance :=
    SelectedDistance M camera origin target max_length max_angle
      max_horizontal_angle max_vertical_angle in
  distance <= range * (1 - 1 / 2 ^ 32)
  /\ (0 < range -> distance < range).
Proof.
  intros H range distance. unfold distance.
  rewrite SelectedDistance_bracket by assumption.
  unfold SelectBracket.
  set (valid := m_valid M camera origin (normalized (vsub target origin))
                  max_angle max_horizontal_angle max_vertical_angle).
  fold range.
  assert (Hrange : 0 <= range)
    by (apply std_min_glb; [assumption | apply norm_nonneg]).
  pose proof (bisect_bounds valid 32 0 range Hrange) as HB.
  pose proof (bisect_width valid 32 0 range) as HW.
  revert HB HW. generalize (bisect valid 32 0 range).
  intros b (B1 & B2 & B3) HW.
  pose proof (pow2_pos 32) as Hp.
  assert (Hq : 0 < 1 / 2 ^ 32) by (apply Rdiv_lt_0_compat; lra).
  replace ((range - 0) / 2 ^ 32) with (range * (1 / 2 ^ 32)) in HW
    by (field; lra).
  split; [nra | intros Hr; nra].
Qed.

End UndistortCameraProperties.

(** The statement of X6 at the 640x480 camera with distortion. *)
Lemma UndistortCamera_keeps_focal_length_witness :
  exists uc,
    UndistortCamera sample_models (sample_options (-1) false) opencv_camera
    = Some uc
    /\ FocalLengthX uc = 500 /\ FocalLengthY uc = 500
    /\ PrincipalPointX uc = 320 * IZR (Width uc) / 640
    /\ PrincipalPointY uc = 240 * IZR (Height uc) / 480.
Proof.
  destruct (UndistortCamera_returns sample_models
              (sample_options (-1) false) opencv_camera)
    as [uc Hrun].
  - apply sample_options_ok; lia.
  - reflexivity.
  - right. cbn. lia.
  - exists uc. split; [exact Hrun|].
    destruct (UndistortCamera_keeps_focal_length sample_models
                (sample_options (-1) false) opencv_camera uc Hrun)
      as (_ & Hf & Hx & Hy);
      [reflexivity | reflexivity | cbn; lia | cbn; lia | cbn; lia |].
    destruct (Hf eq_refl) as [Hfx Hfy].
    repeat split; assumption.
Defined.

(** The statement of X7 for the 640x480 camera and the cap 320. *)
Lemma LimitImageSize_rescales_to_fit_witness :
  LimitImageSize sample_models (sample_options 320 false) vga_camera
  = sample_Rescale (IZR 320 / IZR (Z.max 640 480)) vga_camera.
Proof.
  apply (LimitImageSize_rescales_to_fit sample_models
           (sample_options 320 false) vga_camera); cbn; lia.
Defined.

(** The statement of X10 for the unit camera, from the origin toward (2, 0),
    with [max_length] 1. *)
Lemma SelectPointOnRay_stops_short_witness :
  SelectedDistance sample_models unit_camera (0, 0) (2, 0) 1 2 2 2
  <= std_min 1 (norm (vsub (2, 0) (0, 0))) * (1 - 1 / 2 ^ 32).
Proof.
  apply (SelectPointOnRay_stops_short sample_models unit_camera (0, 0)
           (2, 0) 1 2 2 2).
  lra.
Defined.

(** ** [UndistortCamera]: the size after the scale step, the estimated
       focal length, idempotence *)

(** What the [CHECK]s of lines 661-667 leave of the scales and of
    [max_fov]. *)
Lemma CheckOptions_scales options :
  CheckOptions options = true ->
  0 < min_scale options <= max_scale options
  /\ 0 < max_fov options < 180.
Proof.
  unfold CheckOptions.
  rewrite !andb_true_iff, !Rleb_true, !Rltb_true. intros H.
  decompose [and] H. repeat split; assumption.
Qed.

(** [static_cast<size_t>] rounds down. *)
Lemma to_size_t_floor x : IZR (to_size_t x) <= x < IZR (to_size_t x) + 1.
Proof.
  unfold to_size_t. destruct (base_Int_part x) as [H1 H2]. lra.
Qed.

(** Lines 885-888 for one axis, with the scale between [lo] and [hi]. *)
Lemma scaled_size_bounds lo hi s n :
  0 < lo -> lo <= s <= hi -> (0 <= n)%Z ->
  lo * IZR n - 1 < IZR (to_size_t (std_max 1 (s * IZR n)))
  <= std_max 1 (hi * IZR n).
Proof.
  intros Hlo Hs Hn. apply IZR_le in Hn.
  pose proof (to_size_t_floor (std_max 1 (s * IZR n))) as [Hf1 Hf2].
  pose proof (std_max_r 1 (s * IZR n)) as Hr.
  split.
  - assert (lo * IZR n <= s * IZR n) by (apply Rmult_le_compat_r; lra). lra.
  - apply Rle_trans with (1 := Hf1).
    unfold std_max at 1. destruct (Rlt_dec 1 (s * IZR n)).
    + apply Rle_trans with (hi * IZR n); [|apply std_max_r].
      apply Rmult_le_compat_r; lra.
    + apply std_max_l.
Qed.

Section UndistortCameraBounds.

Variable M : CameraModels.

(** The focal-length step touches nothing but the focal lengths. *)
Lemma SetFocalLengths_size options camera pp half radius uc0 uc1 :
  SetFocalLengths M options camera pp half radius uc0 = Some uc1 ->
  Width uc1 = Width uc0 /\ Height uc1 = Height uc0
  /\ PrincipalPointX uc1 = PrincipalPointX uc0
  /\ PrincipalPointY uc1 = PrincipalPointY uc0.
Proof.
  unfold SetFocalLengths. intros Efocal.
  destruct (estimate_focal_length_from_fov options).
  - injection Efocal as <-. repeat split.
  - destruct (List.length _ <=? 2)%nat; [|discriminate].
    destruct (List.length _ =? 1)%nat;
      [|destruct (List.length _ =? 2)%nat];
      injection Efocal as <-; repeat split.
Qed.

(** X18: the size that the scale step of [UndistortCamera] (lines 792-896)
    leaves, with no override and an unbounded size, for a source that is not
    of a pinhole kind.  The new width is above [min_scale] times the old one
    less a pixel and at most [max_scale] times the old one (or 1 pixel), and
    so is the height, whatever the borders of the undistorted image are. *)
Theorem UndistortCamera_size_within_scale_limits options camera uc :
  UndistortCamera M options camera = Some uc ->
  camera_model_override options = EmptyString ->
  IsPinholeFamily M camera = false ->
  (max_image_size options < 0)%Z ->
  (0 <= Width camera)%Z -> (0 <= Height camera)%Z ->
  (min_scale options * IZR (Width camera) - 1 < IZR (Width uc)
   <= std_max 1 (max_scale options * IZR (Width camera)))
  /\ (min_scale options * IZR (Height camera) - 1 < IZR (Height uc)
      <= std_max 1 (max_scale options * IZR (Height camera))).
Proof.
  intros Hrun Hover Hkind Hneg Hw Hh. unfold UndistortCamera in Hrun.
  destruct (CheckOptions options) eqn:Hcheck; [|discriminate].
  destruct (CheckOptions_scales options Hcheck) as [[Hlo Hle] _].
  rewrite Hover in Hrun.
  change (0 <? String.length EmptyString)%nat with false in Hrun.
  cbv iota in Hrun.
  destruct (ValidDomain M options camera) as [[pp half] radius].
  destruct (SetFocalLengths M options camera pp half radius
              (InitialCamera M camera)) as [uc1|] eqn:Efocal;
    [|discriminate].
  destruct (SetFocalLengths_size _ _ _ _ _ _ _ Efocal) as (Hw1 & Hh1 & _).
  rewrite Hkind in Hrun. cbn [negb] in Hrun.
  rewrite LimitImageSize_unbounded in Hrun by assumption.
  injection Hrun as <-.
  unfold ScaleToAvoidBlankPixels. cbv zeta.
  destruct (ApplyScale_shape camera
    (AppliedScale options
       (PrincipalPointX
          (SetPrincipalPointY (PrincipalPointY camera)
             (SetPrincipalPointX (PrincipalPointX camera) uc1)))
       (Width camera)
       (RowBorders M camera
          (SetPrincipalPointY (PrincipalPointY camera)
             (SetPrincipalPointX (PrincipalPointX camera) uc1))
          pp radius half (DegToRad (max_horizontal_fov options))
          (DegToRad (max_vertical_fov options))))
    (AppliedScale options
       (PrincipalPointY
          (SetPrincipalPointY (PrincipalPointY camera)
             (SetPrincipalPointX (PrincipalPointX camera) uc1)))
       (Height camera)
       (ColumnBorders M camera
          (SetPrincipalPointY (PrincipalPointY camera)
             (SetPrincipalPointX (PrincipalPointX camera) uc1))
          pp radius half (DegToRad (max_horizontal_fov options))
          (DegToRad (max_vertical_fov options))))
    (SetPrincipalPointY (PrincipalPointY camera)
       (SetPrincipalPointX (PrincipalPointX camera) uc1)))
    as (_ & HW & HH).
  rewrite HW, HH.
  change (Width (SetPrincipalPointY (PrincipalPointY camera)
                   (SetPrincipalPointX (PrincipalPointX camera) uc1)))
    with (Width uc1).
  change (Height (SetPrincipalPointY (PrincipalPointY camera)
                    (SetPrincipalPointX (PrincipalPointX camera) uc1)))
    with (Height uc1).
  rewrite Hw1, Hh1.
  change (Width (InitialCamera M camera)) with (Width camera).
  change (Height (InitialCamera M camera)) with (Height camera).
  split; apply scaled_size_bounds; try assumption;
    apply AppliedScale_bounds; assumption.
Qed.

(** X19: the focal length from the field of view (lines 728-771).  With
    valid options, no override, the flag set and an unbounded size,
    [UndistortCamera] returns for every camera kind; the two focal lengths
    of the result are equal and at least the focal length that spreads
    [max_fov] over the diagonal of the source image, which is positive. *)
Theorem UndistortCamera_estimated_focal_length options camera :
  CheckOptions options = true ->
  camera_model_override options = EmptyString ->
  estimate_focal_length_from_fov options = true ->
  (max_image_size options < 0)%Z ->
  (1 <= Width camera)%Z -> (1 <= Height camera)%Z ->
  exists uc,
    UndistortCamera M options camera = Some uc
    /\ FocalLengthY uc = FocalLengthX uc
    /\ 0 < norm (image_size camera) / 2
           / tan (DegToRad (max_fov options) / 2)
       <= FocalLengthX uc.
Proof.
  intros Hcheck Hover Hest Hneg Hw Hh.
  destruct (CheckOptions_scales options Hcheck) as [_ [Hf0 Hf1]].
  unfold UndistortCamera. rewrite Hcheck, Hover.
  change (0 <? String.length EmptyString)%nat with false. cbv iota.
  assert (Hhalf : snd (fst (ValidDomain M options camera))
                  = DegToRad (max_fov options) / 2).
  { unfold ValidDomain. cbv zeta.
    now destruct (List.length _ =? 2)%nat. }
  destruct (ValidDomain M options camera) as [[pp half] radius].
  cbn [fst snd] in Hhalf. subst half.
  unfold SetFocalLengths. rewrite Hest.
  rewrite LimitImageSize_unbounded by assumption.
  eexists. split; [reflexivity|].
  set (focal := EstimateFocal M options camera pp
                  (DegToRad (max_fov options) / 2) radius).
  assert (Hxy : forall c,
            FocalLengthX
              (SetPrincipalPointY (PrincipalPointY camera)
                 (SetPrincipalPointX (PrincipalPointX camera)
                    (SetFocalLengthY focal (SetFocalLengthX focal c))))
            = focal
            /\ FocalLengthY
                 (SetPrincipalPointY (PrincipalPointY camera)
                    (SetPrincipalPointX (PrincipalPointX camera)
                       (SetFocalLengthY focal (SetFocalLengthX focal c))))
               = focal) by (intros c; split; reflexivity).
  destruct (Hxy (InitialCamera M camera)) as [Hx Hy].
  assert (Hfocal :
            FocalLengthX
              (if negb (IsPinholeFamily M camera)
               then ScaleToAvoidBlankPixels M options camera pp
                      (DegToRad (max_fov options) / 2) radius
                      (SetPrincipalPointY (PrincipalPointY camera)
                         (SetPrincipalPointX (PrincipalPointX camera)
                            (SetFocalLengthY focal
                               (SetFocalLengthX focal
                                  (InitialCamera M camera)))))
               else SetPrincipalPointY (PrincipalPointY camera)
                      (SetPrincipalPointX (PrincipalPointX camera)
                         (SetFocalLengthY focal
                            (SetFocalLengthX focal
                               (InitialCamera M camera))))) = focal
            /\ FocalLengthY
              (if negb (IsPinholeFamily M camera)
               then ScaleToAvoidBlankPixels M options camera pp
                      (DegToRad (max_fov options) / 2) radius
                      (SetPrincipalPointY (PrincipalPointY camera)
                         (SetPrincipalPointX (PrincipalPointX camera)
                            (SetFocalLengthY focal
                               (SetFocalLengthX focal
                                  (InitialCamera M camera)))))
               else SetPrincipalPointY (PrincipalPointY camera)
                      (SetPrincipalPointX (PrincipalPointX camera)
                         (SetFocalLengthY focal
                            (SetFocalLengthX focal
                               (InitialCamera M camera))))) = focal).
  { destruct (negb (IsPinholeFamily M camera)); split; reflexivity. }
  destruct Hfocal as [-> ->]. split; [reflexivity|].
  split.
  - assert (Hdiag : 0 < norm (image_size camera)).
    { unfold norm. apply sqrt_lt_R0. unfold squaredNorm, image_size.
      cbn [vx vy fst snd]. apply IZR_le in Hw, Hh. nra. }
    assert (Htan : 0 < tan (DegToRad (max_fov options) / 2)).
    { apply tan_gt_0; unfold DegToRad; pose proof PI_RGT_0; nra. }
    apply Rdiv_lt_0_compat; [lra | exact Htan].
  - unfold focal, EstimateFocal. cbv zeta.
    eapply Rle_trans; [|apply std_max_l].
    cbn [fold_left]. unfold CornerPairFocal.
    eapply Rle_trans; [|apply std_max_l]. apply std_max_l.
Qed.

(** Without override and size cap the result is a PINHOLE camera with no
    parameter beside the four intrinsics. *)
Lemma UndistortCamera_unbounded_shape options camera uc :
  UndistortCamera M options camera = Some uc ->
  camera_model_override options = EmptyString ->
  (max_image_size options < 0)%Z ->
  CheckOptions options = true
  /\ ModelId uc = Pinhole_model_id M
  /\ extra_params (Params uc) = [].
Proof.
  intros Hrun Hover Hneg. unfold UndistortCamera in Hrun.
  destruct (CheckOptions options); [|discriminate].
  split; [reflexivity|].
  rewrite Hover in Hrun.
  change (0 <? String.length EmptyString)%nat with false in Hrun.
  cbv iota in Hrun.
  destruct (ValidDomain M options camera) as [[pp half] radius].
  destruct (SetFocalLengths M options camera pp half radius
              (InitialCamera M camera)) as [uc1|] eqn:Efocal;
    [|discriminate].
  assert (Hshape : ModelId uc1 = Pinhole_model_id M
                   /\ extra_params (Params uc1) = []).
  { unfold SetFocalLengths in Efocal.
    destruct (estimate_focal_length_from_fov options).
    - injection Efocal as <-. split; reflexivity.
    - destruct (List.length _ <=? 2)%nat; [|discriminate].
      destruct (List.length _ =? 1)%nat;
        [|destruct (List.length _ =? 2)%nat];
        injection Efocal as <-; split; reflexivity. }
  rewrite LimitImageSize_unbounded in Hrun by assumption.
  injection Hrun as <-.
  destruct (negb (IsPinholeFamily M camera)); exact Hshape.
Qed.

(** X20: [UndistortCamera] is idempotent.  With no override, the flag off
    and an unbounded size, PINHOLE having two focal-length parameters,
    undistorting a camera that [UndistortCamera] returned gives that camera
    again: same size, focal lengths and principal point. *)
Theorem UndistortCamera_idempotent options camera uc :
  UndistortCamera M options camera = Some uc ->
  camera_model_override options = EmptyString ->
  estimate_focal_length_from_fov options = false ->
  (max_image_size options < 0)%Z ->
  List.length (FocalLengthIdxs M (Pinhole_model_id M)) = 2%nat ->
  UndistortCamera M options uc = Some uc.
Proof.
  intros Hrun Hover Hest Hneg Hidx.
  destruct (UndistortCamera_unbounded_shape options camera uc Hrun Hover Hneg)
    as (Hcheck & Hid & Hextra).
  clear Hrun. destruct uc as [id w h [fx fy cx cy extra]].
  cbn [ModelId Params extra_params] in Hid, Hextra. subst id extra.
  unfold UndistortCamera. rewrite Hcheck, Hover.
  change (0 <? String.length EmptyString)%nat with false. cbv iota.
  destruct (ValidDomain M options _) as [[pp half] radius].
  unfold SetFocalLengths. rewrite Hest. cbn [ModelId]. rewrite Hidx.
  cbn [Nat.leb Nat.eqb].
  unfold IsPinholeFamily. cbn [ModelId].
  rewrite Z.eqb_refl, orb_true_r. cbn [negb].
  rewrite LimitImageSize_unbounded by assumption.
  reflexivity.
Qed.

End UndistortCameraBounds.

(** The statement of X18 at the 640x480 camera with distortion and the
    scales 0.5 and 2. *)
Lemma UndistortCamera_size_within_scale_limits_witness :
  exists uc,
    UndistortCamera sample_models (sample_options (-1) false) opencv_camera
    = Some uc
    /\ (0.5 * 640 - 1 < IZR (Width uc) <= std_max 1 (2 * 640))
    /\ (0.5 * 480 - 1 < IZR (Height uc) <= std_max 1 (2 * 480)).
Proof.
  destruct (UndistortCamera_returns sample_models
              (sample_options (-1) false) opencv_camera)
    as [uc Hrun].
  - apply sample_options_ok; lia.
  - reflexivity.
  - right. cbn. lia.
  - exists uc. split; [exact Hrun|].
    apply (UndistortCamera_size_within_scale_limits sample_models
             (sample_options (-1) false) opencv_camera uc Hrun);
      [reflexivity | reflexivity | cbn; lia | cbn; lia | cbn; lia].
Defined.

(** The statement of X19 at the 640x480 pinhole camera. *)
Lemma UndistortCamera_estimated_focal_length_witness :
  exists uc,
    UndistortCamera sample_models (sample_options (-1) true) vga_camera
    = Some uc
    /\ FocalLengthY uc = FocalLengthX uc
    /\ 0 < norm (image_size vga_camera) / 2 / tan (DegToRad 100 / 2)
       <= FocalLengthX uc.
Proof.
  apply (UndistortCamera_estimated_focal_length sample_models
           (sample_options (-1) true) vga_camera).
  - apply sample_options_ok; lia.
  - reflexivity.
  - reflexivity.
  - cbn; lia.
  - cbn; lia.
  - cbn; lia.
Defined.

(** The statement of X20 at the 640x480 camera with distortion. *)
Lemma UndistortCamera_idempotent_witness :
  exists uc,
    UndistortCamera sample_models (sample_options (-1) false) opencv_camera
    = Some uc
    /\ UndistortCamera sample_models (sample_options (-1) false) uc
       = Some uc.
Proof.
  destruct (UndistortCamera_returns sample_models
              (sample_options (-1) false) opencv_camera)
    as [uc Hrun].
  - apply sample_options_ok; lia.
  - reflexivity.
  - right. cbn. lia.
  - exists uc. split; [exact Hrun|].
    apply (UndistortCamera_idempotent sample_models
             (sample_options (-1) false) opencv_camera uc Hrun);
      [reflexivity | reflexivity | cbn; lia | reflexivity].
Defined.

(** ** [UndistortReconstruction] *)

Section ReconstructionProperties.

Variable M : CameraModels.

Lemma UndistortCameras_spec options : forall cameras done,
  UndistortCameras M options cameras = Some done ->
  map fst done = map fst cameras
  /\ (forall key camera,
        at_key key cameras = Some camera ->
        exists undistorted,
          UndistortCamera M options camera = Some undistorted
          /\ at_key key done = Some undistorted)
  /\ (forall key, at_key key cameras = None -> at_key key done = None).
Proof.
  induction cameras as [|[id c] rest IH]; intros done H; cbn in H.
  - injection H as <-. repeat split; intros; discriminate || reflexivity.
  - destruct (UndistortCamera M options c) as [uc|] eqn:E; [|discriminate].
    destruct (UndistortCameras M options rest) as [d|]; [|discriminate].
    injection H as <-. destruct (IH d eq_refl) as (Hk & Hs & Hn).
    split; [cbn; now rewrite Hk|]. split.
    + intros key camera. cbn. destruct (id =? key)%Z.
      * intros [= <-]. now exists uc.
      * apply Hs.
    + intros key. cbn. destruct (id =? key)%Z; [discriminate | apply Hn].
Qed.

Lemma UndistortCameras_fails options : forall cameras,
  UndistortCameras M options cameras = None
  <-> exists id camera,
        In (id, camera) cameras /\ UndistortCamera M options camera = None.
Proof.
  induction cameras as [|[id c] rest IH]; cbn.
  - split; [discriminate | intros (? & ? & [] & _)].
  - destruct (UndistortCamera M options c) as [uc|] eqn:E.
    + destruct (UndistortCameras M options rest) as [d|].
      * split; [discriminate|]. intros (i & c' & [[= <- <-] | Hin] & Hf).
        -- congruence.
        -- destruct IH as [_ IH]. discriminate IH. now exists i, c'.
      * split; [|reflexivity]. intros _.
        destruct IH as [IH _]. destruct (IH eq_refl) as (i & c' & Hin & Hf).
        exists i, c'. split; [now right | exact Hf].
    + split; [|reflexivity]. intros _. exists id, c. split; [now left|exact E].
Qed.

Lemma UndistortImages_spec distorted cameras : forall images done,
  UndistortImages M distorted cameras images = Some done ->
  map fst done = map fst images
  /\ forall key image,
       at_key key images = Some image ->
       exists distorted_camera undistorted_camera,
         at_key (CameraId image) distorted = Some distorted_camera
         /\ at_key (CameraId image) cameras = Some undistorted_camera
         /\ at_key key done
            = Some (SetPoints2D
                      (UndistortPoints M distorted_camera undistorted_camera
                         (Points2D image))
                      image).
Proof.
  induction images as [|[id image] rest IH]; intros done H; cbn in H.
  - injection H as <-. split; [reflexivity | intros; discriminate].
  - destruct (at_key (CameraId image) distorted) as [dc|] eqn:Ed;
      [|discriminate].
    destruct (at_key (CameraId image) cameras) as [uc|] eqn:Eu;
      [|discriminate].
    destruct (UndistortImages M distorted cameras rest) as [d|];
      [|discriminate].
    injection H as <-. destruct (IH d eq_refl) as (Hk & Hs).
    split; [cbn; now rewrite Hk|].
    intros key im. cbn. destruct (id =? key)%Z.
    + intros [= <-]. now exists dc, uc.
    + apply Hs.
Qed.

Lemma UndistortImages_fails distorted cameras : forall images,
  UndistortImages M distorted cameras images = None
  <-> exists id image,
        In (id, image) images
        /\ (at_key (CameraId image) distorted = None
            \/ at_key (CameraId image) cameras = None).
Proof.
  induction images as [|[id image] rest IH]; cbn.
  - split; [discriminate | intros (? & ? & [] & _)].
  - destruct (at_key (CameraId image) distorted) as [dc|] eqn:Ed.
    + destruct (at_key (CameraId image) cameras) as [uc|] eqn:Eu.
      * destruct (UndistortImages M distorted cameras rest) as [d|].
        -- split; [discriminate|].
           intros (i & im & [[= <- <-] | Hin] & Hf).
           ++ destruct Hf; congruence.
           ++ destruct IH as [_ IH]. discriminate IH. now exists i, im.
        -- split; [|reflexivity]. intros _.
           destruct IH as [IH _].
           destruct (IH eq_refl) as (i & im & Hin & Hf).
           exists i, im. split; [now right | exact Hf].
      * split; [|reflexivity]. intros _. exists id, image.
        split; [now left | now right].
    + split; [|reflexivity]. intros _. exists id, image.
      split; [now left | now left].
Qed.

(** X11: what [UndistortReconstruction] (lines 933-952) leaves behind when
    it returns.  The camera ids and the image ids are the same; every
    camera is replaced by its [UndistortCamera]; every image keeps its
    name, its camera and the 3D points of its 2D points, and each 2D point
    is moved to the projection by the undistorted camera of its
    back-projection by the distorted camera; the registered images and the
    tracks are untouched. *)
Theorem UndistortReconstruction_result options reconstruction undistorted :
  UndistortReconstruction M options reconstruction = Some undistorted ->
  map fst (Cameras undistorted) = map fst (Cameras reconstruction)
  /\ (forall key camera,
        at_key key (Cameras reconstruction) = Some camera ->
        exists undistorted_camera,
          UndistortCamera M options camera = Some undistorted_camera
          /\ at_key key (Cameras undistorted) = Some undistorted_camera)
  /\ map fst (Images undistorted) = map fst (Images reconstruction)
  /\ (forall key image,
        at_key key (Images reconstruction) = Some image ->
        exists distorted_camera undistorted_camera image',
          at_key (CameraId image) (Cameras reconstruction)
          = Some distorted_camera
          /\ at_key (CameraId image) (Cameras undistorted)
             = Some undistorted_camera
          /\ at_key key (Images undistorted) = Some image'
          /\ CameraId image' = CameraId image
          /\ ImageName image' = ImageName image
          /\ map Point3DId (Points2D image')
             = map Point3DId (Points2D image)
          /\ map XY (Points2D image')
             = map (fun p =>
                      WorldToImage M undistorted_camera
                        (ImageToWorld M distorted_camera (XY p)))
                   (Points2D image))
  /\ RegImageIds undistorted = RegImageIds reconstruction
  /\ Points3D undistorted = Points3D reconstruction.
Proof.
  unfold UndistortReconstruction. cbv zeta.
  destruct (UndistortCameras M options (Cameras reconstruction))
    as [cameras|] eqn:Ec; [|discriminate].
  destruct (UndistortImages M (Cameras reconstruction) cameras
              (Images reconstruction)) as [images|] eqn:Ei; [|discriminate].
  intros [= <-]. cbn [Cameras Images RegImageIds Points3D].
  destruct (UndistortCameras_spec options _ _ Ec) as (Hk & Hs & _).
  destruct (UndistortImages_spec _ _ _ _ Ei) as (Hik & His).
  split; [exact Hk|]. split; [exact Hs|]. split; [exact Hik|].
  split; [|split; reflexivity].
  intros key image Hin.
  destruct (His key image Hin) as (dc & uc & Hd & Hu & Him).
  exists dc, uc. eexists. split; [exact Hd|]. split; [exact Hu|].
  split; [exact Him|]. cbn [SetPoints2D CameraId ImageName Points2D].
  split; [reflexivity|]. split; [reflexivity|].
  unfold UndistortPoints. rewrite !map_map. split; reflexivity.
Qed.

(** X12: [UndistortReconstruction] fails exactly when [UndistortCamera]
    fails on one of the cameras or when an image names a camera that the
    reconstruction does not have (line 943). *)
Theorem UndistortReconstruction_fails options reconstruction :
  UndistortReconstruction M options reconstruction = None
  <-> (exists id camera,
         In (id, camera) (Cameras reconstruction)
         /\ UndistortCamera M options camera = None)
      \/ (exists id image,
            In (id, image) (Images reconstruction)
            /\ at_key (CameraId image) (Cameras reconstruction) = None).
Proof.
  unfold UndistortReconstruction. cbv zeta.
  destruct (UndistortCameras M options (Cameras reconstruction))
    as [cameras|] eqn:Ec.
  - assert (Hnone : forall key,
              at_key key (Cameras reconstruction) = None
              <-> at_key key cameras = None).
    { intros key.
      destruct (UndistortCameras_spec options _ _ Ec) as (_ & Hs & Hn).
      split; [apply Hn|]. intros H.
      destruct (at_key key (Cameras reconstruction)) as [c|] eqn:E;
        [|reflexivity].
      destruct (Hs key c E) as (uc & _ & Hu). congruence. }
    assert (Hok : ~ exists id camera,
                In (id, camera) (Cameras reconstruction)
                /\ UndistortCamera M options camera = None).
    { intros H. apply UndistortCameras_fails in H. congruence. }
    destruct (UndistortImages M (Cameras reconstruction) cameras
                (Images reconstruction)) as [images|] eqn:Ei.
    + split; [discriminate|]. intros [H | (id & image & Hin & Hf)].
      * contradiction.
      * assert (Hfail : UndistortImages M (Cameras reconstruction) cameras
                          (Images reconstruction) = None)
          by (apply UndistortImages_fails; exists id, image; auto).
        congruence.
    + split; [|reflexivity]. intros _. right.
      apply UndistortImages_fails in Ei.
      destruct Ei as (id & image & Hin & [Hf | Hf]);
        exists id, image; split; try assumption.
      now apply Hnone.
  - split; [|reflexivity]. intros _. left.
    now apply UndistortCameras_fails.
Qed.

End ReconstructionProperties.

(** The statement of X11 for a reconstruction of one camera with distortion
    and three images. *)
Lemma UndistortReconstruction_result_witness :
  exists undistorted,
    UndistortReconstruction sample_models (sample_options (-1) false)
      sample_reconstruction = Some undistorted
    /\ map fst (Cameras undistorted) = [1%Z]
    /\ map fst (Images undistorted) = [7%Z; 8%Z; 9%Z]
    /\ RegImageIds undistorted = [7%Z; 8%Z; 9%Z].
Proof.
  destruct (UndistortCamera_returns sample_models
              (sample_options (-1) false) opencv_camera)
    as [uc Hrun].
  - apply sample_options_ok; lia.
  - reflexivity.
  - right. cbn. lia.
  - assert (H : exists undistorted,
               UndistortReconstruction sample_models
                 (sample_options (-1) false) sample_reconstruction
               = Some undistorted).
    { unfold UndistortReconstruction, sample_reconstruction.
      cbn [Cameras Images UndistortCameras]. rewrite Hrun.
      cbn [UndistortImages CameraId at_key Z.eqb Pos.eqb].
      eexists. reflexivity. }
    destruct H as [undistorted H]. exists undistorted.
    split; [exact H|].
    destruct (UndistortReconstruction_result sample_models
                (sample_options (-1) false) sample_reconstruction
                undistorted H)
      as (Hc & _ & Hi & _ & Hr & _).
    repeat split; assumption.
Defined.

(** ** The visibility lists of [PMVSUndistorter::WriteVisibilityData] *)

Lemma set_insert_In x y s : In y (set_insert x s) <-> y = x \/ In y s.
Proof.
  unfold set_insert. destruct (existsb (Z.eqb x) s) eqn:E.
  - apply existsb_exists in E as (z & Hz & Ez). apply Z.eqb_eq in Ez.
    subst z. split; [now right | intros [-> | H]; assumption].
  - cbn. split; intros [H | H]; auto.
Qed.

Lemma set_insert_NoDup x s : NoDup s -> NoDup (set_insert x s).
Proof.
  intros H. unfold set_insert. destruct (existsb (Z.eqb x) s) eqn:E.
  - exact H.
  - constructor; [|exact H]. intros Hin.
    assert (existsb (Z.eqb x) s = true)
      by (apply existsb_exists; exists x; split;
          [exact Hin | apply Z.eqb_refl]).
    congruence.
Qed.

Lemma sorted_insert_In x y l : In y (sorted_insert x l) <-> y = x \/ In y l.
Proof.
  induction l as [|z l IH]; cbn.
  - split; intros [H | H]; auto.
  - destruct (x <=? z)%Z; cbn; [|rewrite IH]; split; intros H;
      repeat destruct H as [H | H]; auto.
Qed.

Lemma std_sort_In y l : In y (std_sort l) <-> In y l.
Proof.
  induction l as [|x l IH]; [reflexivity|].
  change (std_sort (x :: l)) with (sorted_insert x (std_sort l)).
  rewrite sorted_insert_In, IH. cbn. split; intros [H | H]; auto.
Qed.

Lemma sorted_insert_strict x l :
  StronglySorted Z.lt l -> ~ In x l ->
  StronglySorted Z.lt (sorted_insert x l).
Proof.
  induction l as [|z l IH]; intros Hs Hx; cbn.
  - constructor; constructor.
  - inversion Hs as [|? ? Hs' Hall]; subst.
    destruct (Z.leb_spec x z) as [Hle | Hgt].
    + assert (x < z)%Z by (cbn in Hx; lia).
      constructor; [exact Hs|]. constructor; [assumption|].
      rewrite Forall_forall in *. intros w Hw. specialize (Hall w Hw). lia.
    + constructor.
      * apply IH; [exact Hs' | intros H; apply Hx; now right].
      * rewrite Forall_forall in *. intros w Hw.
        apply sorted_insert_In in Hw as [-> | Hw]; [lia | now apply Hall].
Qed.

Lemma std_sort_strict l : NoDup l -> StronglySorted Z.lt (std_sort l).
Proof.
  induction 1 as [|x l Hx Hnd IH]; [constructor|].
  change (std_sort (x :: l)) with (sorted_insert x (std_sort l)).
  apply sorted_insert_strict; [exact IH|]. now rewrite std_sort_In.
Qed.

Lemma VisitTrack_spec this track : forall visible,
  NoDup visible ->
  NoDup (VisitTrack this track visible)
  /\ forall j, In j (VisitTrack this track visible)
       <-> In j visible
           \/ (j <> this /\ exists el, In el track /\ image_id el = j).
Proof.
  unfold VisitTrack.
  induction track as [|el track IH]; intros visible Hnd; cbn [fold_left].
  - split; [exact Hnd|]. intros j. split; [now left|].
    intros [H | (_ & el & [] & _)]. exact H.
  - destruct (Z.eqb_spec (image_id el) this) as [He | He]; cbn [negb].
    + destruct (IH visible Hnd) as (Hn & Hin). split; [exact Hn|].
      intros j. rewrite Hin. split.
      * intros [H | (Hj & e & He' & Ee)]; [now left|].
        right. split; [exact Hj|]. exists e. split; [now right | exact Ee].
      * intros [H | (Hj & e & [<- | He'] & Ee)]; [now left | congruence |].
        right. split; [exact Hj|]. now exists e.
    + destruct (IH (set_insert (image_id el) visible)
                  (set_insert_NoDup _ _ Hnd)) as (Hn & Hin).
      split; [exact Hn|]. intros j. rewrite Hin, set_insert_In. split.
      * intros [[-> | H] | (Hj & e & He' & Ee)].
        -- right. split; [exact He|]. exists el. split; [now left|reflexivity].
        -- now left.
        -- right. split; [exact Hj|]. exists e. split; [now right|exact Ee].
      * intros [H | (Hj & e & [<- | He'] & Ee)].
        -- left; now right.
        -- left; left; now symmetry.
        -- right. split; [exact Hj|]. now exists e.
Qed.

Lemma VisitPoints_spec points3D this : forall points visible out,
  NoDup visible ->
  VisitPoints points3D this points visible = Some out ->
  NoDup out
  /\ forall j, In j out
       <-> In j visible
           \/ (j <> this
               /\ exists point2D id track el,
                    In point2D points /\ Point3DId point2D = Some id
                    /\ at_key id points3D = Some track
                    /\ In el track /\ image_id el = j).
Proof.
  induction points as [|p points IH]; intros visible out Hnd H; cbn in H.
  - injection H as <-. split; [exact Hnd|]. intros j. split; [now left|].
    intros [H | (_ & ? & ? & ? & ? & [] & _)]. exact H.
  - destruct (Point3DId p) as [id|] eqn:Ep.
    + destruct (at_key id points3D) as [track|] eqn:Et; [|discriminate].
      destruct (VisitTrack_spec this track visible Hnd) as (Hn & Hin).
      destruct (IH _ _ Hn H) as (Hno & Hout). split; [exact Hno|].
      intros j. rewrite Hout, Hin. split.
      * intros [[Hv | (Hj & el & He & Ee)] | (Hj & q & i & t & el & Hq & R)].
        -- now left.
        -- right. split; [exact Hj|]. exists p, id, track, el.
           repeat split; try assumption. now left.
        -- right. split; [exact Hj|]. exists q, i, t, el.
           destruct R as (R1 & R2 & R3 & R4).
           repeat split; try assumption. now right.
      * intros [Hv | (Hj & q & i & t & el & [<- | Hq] & R1 & R2 & R3 & R4)].
        -- left; now left.
        -- left; right. split; [exact Hj|]. exists el.
           assert (i = id) by congruence. subst i.
           assert (t = track) by congruence. subst t. now split.
        -- right. split; [exact Hj|]. exists q, i, t, el.
           repeat split; assumption.
    + destruct (IH _ _ Hnd H) as (Hno & Hout). split; [exact Hno|].
      intros j. rewrite Hout. split.
      * intros [Hv | (Hj & q & i & t & el & Hq & R)]; [now left|].
        right. split; [exact Hj|]. exists q, i, t, el.
        destruct R as (R1 & R2 & R3 & R4).
        repeat split; try assumption. now right.
      * intros [Hv | (Hj & q & i & t & el & [<- | Hq] & R1 & R2 & R3 & R4)];
          [now left | congruence |].
        right. split; [exact Hj|]. exists q, i, t, el.
        repeat split; assumption.
Qed.

(** X13: the list that [PMVSUndistorter::WriteVisibilityData] (lines
    374-397) writes for an image.  It is strictly increasing (so without
    repeats), never holds the image itself, and holds exactly the other
    images that occur in the track of a 3D point of one of the 2D points of
    the image. *)
Theorem SortedVisibleImageIds_spec reconstruction this image ids :
  at_key this (Images reconstruction) = Some image ->
  SortedVisibleImageIds reconstruction this = Some ids ->
  StronglySorted Z.lt ids
  /\ ~ In this ids
  /\ forall j, In j ids
       <-> j <> this
           /\ exists point2D id track el,
                In point2D (Points2D image)
                /\ Point3DId point2D = Some id
                /\ at_key id (Points3D reconstruction) = Some track
                /\ In el track /\ image_id el = j.
Proof.
  intros Him H. unfold SortedVisibleImageIds in H. rewrite Him in H.
  destruct (VisitPoints (Points3D reconstruction) this (Points2D image) [])
    as [visible|] eqn:E; [|discriminate].
  injection H as <-.
  destruct (VisitPoints_spec _ _ _ _ _ (NoDup_nil Z) E) as (Hnd & Hin).
  assert (Hiff : forall j, In j (std_sort visible)
            <-> j <> this
                /\ exists point2D id track el,
                     In point2D (Points2D image)
                     /\ Point3DId point2D = Some id
                     /\ at_key id (Points3D reconstruction) = Some track
                     /\ In el track /\ image_id el = j).
  { intros j. rewrite std_sort_In, Hin. split.
    - intros [[] | H]. exact H.
    - intros H. now right. }
  split; [now apply std_sort_strict|]. split; [|exact Hiff].
  intros H. apply Hiff in H. now destruct H.
Qed.

(** X14: the visibility list of an image cannot be written exactly when the
    reconstruction does not have the image, or one of the 2D points of the
    image names a 3D point that the reconstruction does not have (lines 375
    and 381). *)
Theorem SortedVisibleImageIds_fails reconstruction this :
  SortedVisibleImageIds reconstruction this = None
  <-> at_key this (Images reconstruction) = None
      \/ exists image point2D id,
           at_key this (Images reconstruction) = Some image
           /\ In point2D (Points2D image)
           /\ Point3DId point2D = Some id
           /\ at_key id (Points3D reconstruction) = None.
Proof.
  unfold SortedVisibleImageIds.
  destruct (at_key this (Images reconstruction)) as [image|];
    [|split; [now left | reflexivity]].
  assert (Hgen : forall points visible,
            VisitPoints (Points3D reconstruction) this points visible = None
            <-> exists point2D id,
                  In point2D points /\ Point3DId point2D = Some id
                  /\ at_key id (Points3D reconstruction) = None).
  { induction points as [|p points IH]; intros visible; cbn.
    - split; [discriminate | intros (? & ? & [] & _)].
    - destruct (Point3DId p) as [id|] eqn:Ep.
      + destruct (at_key id (Points3D reconstruction)) as [track|] eqn:Et.
        * rewrite IH. split.
          -- intros (q & i & Hq & R). exists q, i. split; [now right|exact R].
          -- intros (q & i & [<- | Hq] & R1 & R2); [congruence|].
             now exists q, i.
        * split; [|reflexivity]. intros _. exists p, id.
          repeat split; [now left | assumption | assumption].
      + rewrite IH. split.
        * intros (q & i & Hq & R). exists q, i. split; [now right|exact R].
        * intros (q & i & [<- | Hq] & R1 & R2); [congruence|].
          now exists q, i. }
  destruct (VisitPoints (Points3D reconstruction) this (Points2D image) [])
    as [visible|] eqn:E.
  - split; [discriminate|]. intros [H | (im & p & id & [= <-] & R)];
      [discriminate|].
    assert (VisitPoints (Points3D reconstruction) this (Points2D image) []
            = None) by (apply Hgen; now exists p, id).
    congruence.
  - split; [|reflexivity]. intros _. right.
    apply Hgen in E as (p & id & R). now exists image, p, id.
Qed.

(** The statement of X13 for image 7 of the reconstruction of three
    images. *)
Lemma SortedVisibleImageIds_spec_witness :
  SortedVisibleImageIds sample_reconstruction 7 = Some [8%Z; 9%Z]
  /\ StronglySorted Z.lt [8%Z; 9%Z]
  /\ ~ In 7%Z [8%Z; 9%Z].
Proof.
  assert (H : SortedVisibleImageIds sample_reconstruction 7
              = Some [8%Z; 9%Z]) by reflexivity.
  split; [exact H|].
  destruct (SortedVisibleImageIds_spec sample_reconstruction 7
              (mkImage "a.jpg" 1
                 [mkPoint2D (320, 240) (Some 3%Z); mkPoint2D (0, 0) None;
                  mkPoint2D (10, 20) (Some 4%Z)])
              [8%Z; 9%Z] eq_refl H)
    as (Hs & Hn & _).
  split; assumption.
Defined.

(** ** [UndistortImage] and [RectifyAndUndistortStereoImages] *)

Section ImageProperties.

Variable M : CameraModels.
Variable L : BitmapLayer.

(** The kind of what [UndistortCamera] returns: the override's, or
    PINHOLE. *)
Lemma UndistortCamera_kind options camera uc :
  UndistortCamera M options camera = Some uc ->
  (forall s c, ModelId (Rescale M s c) = ModelId c) ->
  ModelId uc
  = if (0 <? String.length (camera_model_override options))%nat
    then CameraModelNameToId M (camera_model_override options)
    else Pinhole_model_id M.
Proof.
  intros Hrun Hkind. unfold UndistortCamera in Hrun.
  destruct (CheckOptions options); [|discriminate].
  destruct (0 <? String.length (camera_model_override options))%nat.
  - unfold OverrideCamera in Hrun.
    destruct (VerifyParams M _); [|discriminate].
    now injection Hrun as <-.
  - destruct (ValidDomain M options camera) as [[pp half] radius].
    destruct (SetFocalLengths M options camera pp half radius
                (InitialCamera M camera)) as [uc1|] eqn:Efocal;
      [|discriminate].
    assert (Hid : ModelId uc1 = Pinhole_model_id M).
    { unfold SetFocalLengths in Efocal.
      destruct (estimate_focal_length_from_fov options).
      - now injection Efocal as <-.
      - destruct (List.length _ <=? 2)%nat; [|discriminate].
        destruct (List.length _ =? 1)%nat;
          [|destruct (List.length _ =? 2)%nat];
          now injection Efocal as <-. }
    injection Hrun as <-. unfold LimitImageSize.
    assert (H0 : forall c, ModelId c = Pinhole_model_id M ->
               ModelId
                 (if (0 <? max_image_size options)%Z
                  then
                    if Rlt_dec
                         (std_min
                            (IZR (max_image_size options) / IZR (Width c))
                            (IZR (max_image_size options) / IZR (Height c)))
                         1
                    then Rescale M
                           (std_min
                              (IZR (max_image_size options) / IZR (Width c))
                              (IZR (max_image_size options) / IZR (Height c)))
                           c
                    else c
                  else c) = Pinhole_model_id M).
    { intros c Hc. destruct (0 <? max_image_size options)%Z; [|exact Hc].
      destruct (Rlt_dec _ 1); [now rewrite Hkind | exact Hc]. }
    apply H0. destruct (negb (IsPinholeFamily M camera)); exact Hid.
Qed.

(** X15: when [RectifyAndUndistortStereoImages] (lines 1016-1050) aborts,
    [Rescale] keeping the kind.  Without override it aborts exactly when a
    bitmap does not have the size of its camera or [UndistortCamera] fails
    on the first camera: the rectification that follows cannot fail.  With
    an override to a kind that is neither of the two pinhole kinds it always
    aborts, at the [CHECK] of [RectifyStereoCameras]. *)
Theorem RectifyAndUndistortStereoImages_aborts options image1 image2
    camera1 camera2 qvec tvec out1 out2 :
  (forall s c, ModelId (Rescale M s c) = ModelId c) ->
  let run :=
    RectifyAndUndistortStereoImages M L options image1 image2 camera1 camera2
      qvec tvec out1 out2 in
  (camera_model_override options = EmptyString ->
   (run = None
    <-> SizesMatch L camera1 image1 = false
        \/ SizesMatch L camera2 image2 = false
        \/ UndistortCamera M options camera1 = None))
  /\ (camera_model_override options <> EmptyString ->
      CameraModelNameToId M (camera_model_override options)
      <> SimplePinhole_model_id M ->
      CameraModelNameToId M (camera_model_override options)
      <> Pinhole_model_id M ->
      run = None).
Proof.
  intros Hkind run. unfold run, RectifyAndUndistortStereoImages, SizesMatch.
  split.
  - intros Hover.
    destruct (Width camera1 =? BitmapWidth L image1)%Z;
      [|split; [now left | reflexivity]].
    destruct (Height camera1 =? BitmapHeight L image1)%Z;
      [|split; [now left | reflexivity]].
    destruct (Width camera2 =? BitmapWidth L image2)%Z;
      [|split; [right; now left | reflexivity]].
    destruct (Height camera2 =? BitmapHeight L image2)%Z;
      [|split; [right; now left | reflexivity]].
    cbn [andb].
    destruct (UndistortCamera M options camera1) as [uc|] eqn:E;
      [|split; [right; now right | reflexivity]].
    pose proof (UndistortCamera_kind options camera1 uc E Hkind) as Hid.
    rewrite Hover in Hid.
    change (0 <? String.length EmptyString)%nat with false in Hid.
    cbv iota in Hid. cbv zeta.
    rewrite RectifyStereoCameras_rotations.
    unfold IsPinholeFamily. rewrite Hid, Z.eqb_refl, orb_true_r. cbn [andb].
    destruct (RectifyRotations qvec tvec) as [[R1 R2] t].
    split; [discriminate|]. intros [H | [H | H]]; discriminate.
  - intros Hover Hn1 Hn2.
    destruct (_ && _); [|reflexivity].
    destruct (UndistortCamera M options camera1) as [uc|] eqn:E;
      [|reflexivity].
    pose proof (UndistortCamera_kind options camera1 uc E Hkind) as Hid.
    destruct (camera_model_override options) as [|ch rest];
      [contradiction|].
    change (0 <? String.length (String ch rest))%nat with true in Hid.
    cbv iota in Hid. cbv zeta.
    rewrite RectifyStereoCameras_rotations.
    unfold IsPinholeFamily. rewrite Hid.
    apply Z.eqb_neq in Hn1, Hn2. now rewrite Hn1, Hn2.
Qed.

(** X16: the second camera of [RectifyAndUndistortStereoImages] enters the
    result only through the warp of the second image.  When a run returns,
    the camera it returns is [UndistortCamera] of the first camera, and with
    any other second camera and second bitmap of matching size the run
    returns the same first bitmap, the same camera and the same [Q]. *)
Theorem RectifyAndUndistortStereoImages_ignores_camera2 options image1
    image2 camera1 camera2 qvec tvec out1 out2 b1 b2 undistorted_camera Q
    image2' camera2' out2' :
  RectifyAndUndistortStereoImages M L options image1 image2 camera1 camera2
    qvec tvec out1 out2 = Some (b1, b2, undistorted_camera, Q) ->
  SizesMatch L camera2' image2' = true ->
  UndistortCamera M options camera1 = Some undistorted_camera
  /\ exists b2',
       RectifyAndUndistortStereoImages M L options image1 image2' camera1
         camera2' qvec tvec out1 out2'
       = Some (b1, b2', undistorted_camera, Q).
Proof.
  unfold RectifyAndUndistortStereoImages, SizesMatch.
  intros Hrun Hsize. apply andb_true_iff in Hsize as [Hw Hh].
  rewrite Hw, Hh.
  destruct ((Width camera1 =? BitmapWidth L image1)%Z
            && (Height camera1 =? BitmapHeight L image1)%Z);
    [|discriminate].
  destruct ((Width camera2 =? BitmapWidth L image2)%Z);
    [|discriminate].
  destruct ((Height camera2 =? BitmapHeight L image2)%Z);
    [|discriminate].
  cbn [andb] in *.
  destruct (UndistortCamera M options camera1) as [uc|]; [|discriminate].
  cbv zeta in *.
  destruct (RectifyStereoCameras M uc uc qvec tvec) as [[[H1 H2] Q']|];
    [|discriminate].
  injection Hrun as <- _ <- <-. split; [reflexivity|].
  eexists. reflexivity.
Qed.

End ImageProperties.

(** The statement of X15 for the override OPENCV. *)
Lemma RectifyAndUndistortStereoImages_aborts_witness :
  RectifyAndUndistortStereoImages sample_models sample_bitmaps
    (sample_options_with (-1) "OPENCV" "500,500,320,240,0.1,0,0,0" false)
    vga_bitmap vga_bitmap vga_camera vga_camera (1, 0, 0, 0) (1, 0, 0)
    vga_bitmap vga_bitmap = None.
Proof.
  apply (RectifyAndUndistortStereoImages_aborts sample_models sample_bitmaps
           (sample_options_with (-1) "OPENCV" "500,500,320,240,0.1,0,0,0"
              false)
           vga_bitmap vga_bitmap vga_camera vga_camera (1, 0, 0, 0)
           (1, 0, 0) vga_bitmap vga_bitmap sample_Rescale_kind);
    discriminate.
Defined.

(** The statement of X16: the 640x480 camera twice, then with the 4x3
    camera as the second. *)
Lemma RectifyAndUndistortStereoImages_ignores_camera2_witness :
  exists b1 b2 b2' undistorted_camera Q,
    RectifyAndUndistortStereoImages sample_models sample_bitmaps
      (sample_options (-1) false) vga_bitmap vga_bitmap vga_camera
      vga_camera (1, 0, 0, 0) (1, 0, 0) vga_bitmap vga_bitmap
    = Some (b1, b2, undistorted_camera, Q)
    /\ UndistortCamera sample_models (sample_options (-1) false) vga_camera
       = Some undistorted_camera
    /\ RectifyAndUndistortStereoImages sample_models sample_bitmaps
         (sample_options (-1) false) vga_bitmap (4%Z, 3%Z, false)
         vga_camera camera_4x3 (1, 0, 0, 0) (1, 0, 0) vga_bitmap vga_bitmap
       = Some (b1, b2', undistorted_camera, Q).
Proof.
  destruct (UndistortCamera_returns sample_models
              (sample_options (-1) false) vga_camera)
    as [uc Hrun].
  - apply sample_options_ok; lia.
  - reflexivity.
  - right. cbn. lia.
  - pose proof (UndistortCamera_kind sample_models (sample_options (-1) false)
                  vga_camera uc Hrun sample_Rescale_kind) as Hid.
    change (ModelId uc = 1%Z) in Hid.
    assert (H : exists b1 b2 Q,
               RectifyAndUndistortStereoImages sample_models sample_bitmaps
                 (sample_options (-1) false) vga_bitmap vga_bitmap vga_camera
                 vga_camera (1, 0, 0, 0) (1, 0, 0) vga_bitmap vga_bitmap
               = Some (b1, b2, uc, Q)).
    { unfold RectifyAndUndistortStereoImages.
      change ((Width vga_camera =? BitmapWidth sample_bitmaps vga_bitmap)%Z
              && (Height vga_camera
                  =? BitmapHeight sample_bitmaps vga_bitmap)%Z
              && (Width vga_camera =? BitmapWidth sample_bitmaps vga_bitmap)%Z
              && (Height vga_camera
                  =? BitmapHeight sample_bitmaps vga_bitmap)%Z)
        with true.
      cbv iota. rewrite Hrun. cbv zeta.
      rewrite RectifyStereoCameras_rotations.
      unfold IsPinholeFamily. rewrite Hid.
      change ((1 =? SimplePinhole_model_id sample_models)%Z
              || (1 =? Pinhole_model_id sample_models)%Z) with true.
      cbn [andb].
      destruct (RectifyRotations (1, 0, 0, 0) (1, 0, 0)) as [[R1 R2] t].
      do 3 eexists. reflexivity. }
    destruct H as (b1 & b2 & Q & H).
    destruct (RectifyAndUndistortStereoImages_ignores_camera2 sample_models
                sample_bitmaps (sample_options (-1) false) vga_bitmap
                vga_bitmap vga_camera vga_camera (1, 0, 0, 0) (1, 0, 0)
                vga_bitmap vga_bitmap b1 b2 uc Q (4%Z, 3%Z, false)
                camera_4x3 vga_bitmap H eq_refl)
      as (Hcam & b2' & H').
    exists b1, b2, b2', uc, Q. repeat split; assumption.
Defined.

(** ** [UndistortImage] beside [UndistortReconstruction] *)

Section ExportProperties.

Variable M : CameraModels.
Variable L : BitmapLayer.

(** X21: the images and the reconstruction that [COLMAPUndistorter] writes
    agree (lines 196-198 and 210-235).  When [UndistortReconstruction]
    returns, the camera that [UndistortImage] returns for a camera of the
    reconstruction is the camera that the undistorted reconstruction has
    under the same id. *)
Theorem UndistortImage_agrees_with_UndistortReconstruction options
    reconstruction undistorted key camera bitmap out undistorted_bitmap
    undistorted_camera :
  UndistortReconstruction M options reconstruction = Some undistorted ->
  at_key key (Cameras reconstruction) = Some camera ->
  UndistortImage M L options bitmap camera out
  = Some (undistorted_bitmap, undistorted_camera) ->
  at_key key (Cameras undistorted) = Some undistorted_camera.
Proof.
  intros Hrec Hkey Himg. unfold UndistortReconstruction in Hrec.
  cbv zeta in Hrec.
  destruct (UndistortCameras M options (Cameras reconstruction))
    as [cameras|] eqn:Ec; [|discriminate].
  destruct (UndistortImages M (Cameras reconstruction) cameras
              (Images reconstruction)) as [images|]; [|discriminate].
  injection Hrec as <-. cbn [Cameras].
  destruct (UndistortCameras_spec M options _ _ Ec) as (_ & Hs & _).
  destruct (Hs key camera Hkey) as (uc & Huc & Hat).
  unfold UndistortImage in Himg.
  destruct (_ && _); [|discriminate].
  rewrite Huc in Himg. cbv zeta in Himg.
  injection Himg as _ <-. exact Hat.
Qed.

End ExportProperties.

(** The statement of X21 for the camera of the reconstruction of three
    images. *)
Lemma UndistortImage_agrees_with_UndistortReconstruction_witness :
  exists undistorted undistorted_bitmap undistorted_camera,
    UndistortReconstruction sample_models (sample_options (-1) false)
      sample_reconstruction = Some undistorted
    /\ UndistortImage sample_models sample_bitmaps
         (sample_options (-1) false) vga_bitmap opencv_camera vga_bitmap
       = Some (undistorted_bitmap, undistorted_camera)
    /\ at_key 1 (Cameras undistorted) = Some undistorted_camera.
Proof.
  destruct (UndistortCamera_returns sample_models
              (sample_options (-1) false) opencv_camera)
    as [uc Hrun].
  - apply sample_options_ok; lia.
  - reflexivity.
  - right. cbn. lia.
  - assert (H : exists undistorted,
               UndistortReconstruction sample_models
                 (sample_options (-1) false) sample_reconstruction
               = Some undistorted).
    { unfold UndistortReconstruction, sample_reconstruction.
      cbn [Cameras Images UndistortCameras]. rewrite Hrun.
      cbn [UndistortImages CameraId at_key Z.eqb Pos.eqb].
      eexists. reflexivity. }
    destruct H as [undistorted H].
    assert (Hi : exists undistorted_bitmap,
               UndistortImage sample_models sample_bitmaps
                 (sample_options (-1) false) vga_bitmap opencv_camera
                 vga_bitmap
               = Some (undistorted_bitmap, uc)).
    { unfold UndistortImage.
      change ((Width opencv_camera
               =? BitmapWidth sample_bitmaps vga_bitmap)%Z
              && (Height opencv_camera
                  =? BitmapHeight sample_bitmaps vga_bitmap)%Z)
        with true.
      cbv iota. rewrite Hrun. eexists. reflexivity. }
    destruct Hi as [ub Hi].
    exists undistorted, ub, uc. split; [exact H|]. split; [exact Hi|].
    apply (UndistortImage_agrees_with_UndistortReconstruction sample_models
             sample_bitmaps (sample_options (-1) false)
             sample_reconstruction undistorted 1%Z opencv_camera vga_bitmap
             vga_bitmap ub uc H eq_refl Hi).
Defined.

(** ** [WriteProjectionMatrix] after [UndistortImage] *)

Section ProjectionFileProperties.

Variable M : CameraModels.
Variable show : R -> string.
Variable L : BitmapLayer.

(** X17: [WriteProjectionMatrix] (lines 41-61) on the camera that
    [UndistortImage] returns, as [PMVSUndistorter::Undistort] and
    [CMPMVSUndistorter::Undistort] call it (lines 356-360 and 556-560),
    [Rescale] keeping the kind.  It fails exactly when the file cannot be
    opened or an override to a kind other than PINHOLE is configured:
    without override the projection matrix is always written. *)
Theorem WriteProjectionMatrix_after_UndistortImage options bitmap camera out
    undistorted_bitmap undistorted_camera is_open proj_matrix header :
  (forall s c, ModelId (Rescale M s c) = ModelId c) ->
  UndistortImage M L options bitmap camera out
  = Some (undistorted_bitmap, undistorted_camera) ->
  WriteProjectionMatrix M show is_open undistorted_camera proj_matrix header
  = None
  <-> is_open = false
      \/ (camera_model_override options <> EmptyString
          /\ CameraModelNameToId M (camera_model_override options)
             <> Pinhole_model_id M).
Proof.
  intros Hkind Hrun. unfold UndistortImage in Hrun.
  destruct (_ && _); [|discriminate].
  destruct (UndistortCamera M options camera) as [uc|] eqn:E; [|discriminate].
  cbv zeta in Hrun. injection Hrun as _ <-.
  pose proof (UndistortCamera_kind M options camera uc E Hkind) as Hid.
  unfold WriteProjectionMatrix. rewrite Hid.
  destruct (camera_model_override options) as [|ch rest].
  - change (0 <? String.length EmptyString)%nat with false. cbv iota.
    rewrite Z.eqb_refl. destruct is_open.
    + split; [discriminate|]. intros [H | [H _]]; [discriminate|].
      now contradiction H.
    + split; [now left | reflexivity].
  - change (0 <? String.length (String ch rest))%nat with true. cbv iota.
    destruct (Z.eqb_spec (CameraModelNameToId M (String ch rest))
                (Pinhole_model_id M)) as [He | He].
    + destruct is_open.
      * split; [discriminate|]. intros [H | [_ H]]; [discriminate|].
        now contradiction H.
      * split; [now left | reflexivity].
    + split; [|reflexivity]. intros _. right. split; [discriminate|exact He].
Qed.

End ProjectionFileProperties.

(** The statement of X17 for the override OPENCV. *)
Lemma WriteProjectionMatrix_after_UndistortImage_witness :
  exists undistorted_bitmap undistorted_camera,
    UndistortImage sample_models sample_bitmaps
      (sample_options_with (-1) "OPENCV" "500,500,320,240,0.1,0,0,0" false)
      vga_bitmap vga_camera vga_bitmap
    = Some (undistorted_bitmap, undistorted_camera)
    /\ WriteProjectionMatrix sample_models (fun _ => "0"%string) true
         undistorted_camera
         ((1, 0, 0, 0), (0, 1, 0, 0), (0, 0, 1, 0)) "CONTOUR"
       = None.
Proof.
  assert (H : exists undistorted_bitmap undistorted_camera,
             UndistortImage sample_models sample_bitmaps
               (sample_options_with (-1) "OPENCV"
                  "500,500,320,240,0.1,0,0,0" false)
               vga_bitmap vga_camera vga_bitmap
             = Some (undistorted_bitmap, undistorted_camera)).
  { unfold UndistortImage.
    change ((Width vga_camera =? BitmapWidth sample_bitmaps vga_bitmap)%Z
            && (Height vga_camera
                =? BitmapHeight sample_bitmaps vga_bitmap)%Z)
      with true.
    cbv iota. unfold UndistortCamera.
    rewrite sample_options_with_ok by lia.
    change (0 <? String.length
                   (camera_model_override
                      (sample_options_with (-1) "OPENCV"
                         "500,500,320,240,0.1,0,0,0" false)))%nat
      with true.
    cbv iota. unfold OverrideCamera.
    change (VerifyParams sample_models _) with true.
    do 2 eexists. reflexivity. }
  destruct H as (ub & uc & H). exists ub, uc. split; [exact H|].
  apply (WriteProjectionMatrix_after_UndistortImage sample_models
           (fun _ => "0"%string) sample_bitmaps
           (sample_options_with (-1) "OPENCV" "500,500,320,240,0.1,0,0,0" false)
           vga_bitmap vga_camera vga_bitmap ub uc true
           ((1, 0, 0, 0), (0, 1, 0, 0), (0, 0, 1, 0)) "CONTOUR"
           sample_Rescale_kind H).
  right. split; discriminate.
Defined.
